(** * GreenMax website controller (src/script.js): a shallow embedding

    The script is a browser-side controller: every method reads and mutates
    the DOM, the local storage, the URL fragment and the controller's own
    attributes, and may raise a JavaScript exception half way through.  The
    embedding therefore has three layers:

    - a small DOM: elements with attributes, class list and inline style,
      arranged in a rose tree and addressed by paths;
    - a state-and-exception monad [JS] over a [World] record holding the
      controller object ([this]) and the browser state;
    - the methods of [GreenMaxWebsite], the page-level listeners and
      [copyToClipboard], transcribed statement by statement.
      ([showNotification] only builds and removes a toast; nothing stated
      here depends on it and it is not transcribed.) *)

From Stdlib Require Import ZArith QArith Ascii String.
From stdpp Require Import base option list gmap strings fin_maps pretty.

Set Warnings "-register-all".

Local Open Scope string_scope.
Local Open Scope Z_scope.

(** ** Strings as the script uses them *)

Module Str.

(** [s.toLowerCase()] on the ASCII range, which is all the regular
    expressions of the script look at. *)
Definition lower_ascii (c : ascii) : ascii :=
  let n := nat_of_ascii c in
  if ((65 <=? n)%nat && (n <=? 90)%nat)%bool then ascii_of_nat (n + 32) else c.

Fixpoint toLowerCase (s : string) : string :=
  match s with
  | EmptyString => EmptyString
  | String c s' => String (lower_ascii c) (toLowerCase s')
  end.

(** [s.includes(t)], also the meaning of an alternative-free literal
    pattern under [RegExp.prototype.test]. *)
Fixpoint includes (t s : string) : bool :=
  String.prefix t s ||
  match s with
  | EmptyString => false
  | String _ s' => includes t s'
  end.

(** [s.substring(1)] *)
Definition substring1 (s : string) : string :=
  match s with
  | EmptyString => EmptyString
  | String _ s' => s'
  end.

(** Splitting on ASCII white space, as the [className] setter does. *)
Definition is_space (c : ascii) : bool :=
  let n := nat_of_ascii c in
  ((n =? 32) || (n =? 9) || (n =? 10) || (n =? 12) || (n =? 13))%nat.

Fixpoint words_aux (cur : string) (s : string) : list string :=
  match s with
  | EmptyString => if String.eqb cur "" then [] else [cur]
  | String c s' =>
      if is_space c
      then (if String.eqb cur "" then words_aux "" s' else cur :: words_aux "" s')
      else words_aux (cur ++ String c EmptyString) s'
  end.

Definition words (s : string) : list string := words_aux "" s.

(** JavaScript truthiness of a string value. *)
Definition truthy (s : string) : bool := negb (String.eqb s "").

End Str.

(** ** The DOM *)

Record Element := mkElement {
  tagName : string;                     (* lower case *)
  attributes : gmap string string;      (* every attribute but class and style *)
  classList : list string;              (* the class attribute, as tokens *)
  style : gmap string string;           (* inline style, by property name *)
  textContent : string;                 (* text of a style or notification, value of a textarea *)
  scrollHeight : Z                      (* layout height of the content, an input *)
}.

Inductive Node := El (e : Element) (kids : list Node).

(** A reference to an element is its path from the root: child indices, in
    order.  The script changes the shape of the tree only by adding and
    removing its own style blocks in the head and a textarea at the end of
    the body, so the references to the page's elements that it keeps in
    closures go on pointing at the same elements. *)
Definition path := list nat.

Definition node_element (n : Node) : Element := match n with El e _ => e end.
Definition node_kids (n : Node) : list Node := match n with El _ ks => ks end.

Module Dom.

(** *** Element-level operations *)

Definition setAttribute (k v : string) (e : Element) : Element :=
  mkElement (tagName e) (<[k := v]> (attributes e)) (classList e) (style e)
            (textContent e) (scrollHeight e).

Definition removeAttribute (k : string) (e : Element) : Element :=
  mkElement (tagName e) (delete k (attributes e)) (classList e) (style e)
            (textContent e) (scrollHeight e).

Definition getAttribute (k : string) (e : Element) : option string :=
  attributes e !! k.

Definition setClassList (cs : list string) (e : Element) : Element :=
  mkElement (tagName e) (attributes e) cs (style e) (textContent e) (scrollHeight e).

(** [el.className = s] *)
Definition setClassName (s : string) (e : Element) : Element :=
  setClassList (Str.words s) e.

Definition contains (c : string) (e : Element) : bool :=
  existsb (String.eqb c) (classList e).

(** [el.classList.add(c)] *)
Definition classAdd (c : string) (e : Element) : Element :=
  if contains c e then e else setClassList (classList e ++ [c]) e.

(** [el.classList.remove(c)] *)
Definition classRemove (c : string) (e : Element) : Element :=
  setClassList (List.filter (fun x => negb (String.eqb c x)) (classList e)) e.

Definition classRemoveAll (cs : list string) (e : Element) : Element :=
  fold_left (fun e c => classRemove c e) cs e.

(** [el.style.prop = v] *)
Definition setStyle (k v : string) (e : Element) : Element :=
  mkElement (tagName e) (attributes e) (classList e) (<[k := v]> (style e))
            (textContent e) (scrollHeight e).

Definition getStyle (k : string) (e : Element) : string :=
  default "" (style e !! k).

Definition setTextContent (s : string) (e : Element) : Element :=
  mkElement (tagName e) (attributes e) (classList e) (style e) s (scrollHeight e).

(** [document.createElement(tag)] *)
Definition createElement (tag : string) : Element :=
  mkElement tag ∅ [] ∅ "" 0.

Definition hasId (i : string) (e : Element) : bool :=
  match attributes e !! "id" with
  | Some v => String.eqb v i
  | None => false
  end.

Definition hasAttr (k v : string) (e : Element) : bool :=
  match attributes e !! k with
  | Some v' => String.eqb v' v
  | None => false
  end.

Definition hasTag (t : string) (e : Element) : bool := String.eqb (tagName e) t.

(** *** Tree operations, by path *)

Fixpoint get_at (p : path) (n : Node) : option Node :=
  match p with
  | [] => Some n
  | i :: p' =>
      match node_kids n !! i with
      | Some k => get_at p' k
      | None => None
      end
  end.

Definition element_at (p : path) (n : Node) : option Element :=
  node_element <$> get_at p n.

(** Mutation of the element a reference points to. *)
Fixpoint update_at (f : Element → Element) (p : path) (n : Node) : Node :=
  match p with
  | [] => El (f (node_element n)) (node_kids n)
  | i :: p' => El (node_element n) (alter (update_at f p') i (node_kids n))
  end.

(** [parent.appendChild(child)] for a freshly created child. *)
Fixpoint appendChild (child : Node) (p : path) (n : Node) : Node :=
  match p with
  | [] => El (node_element n) (node_kids n ++ [child])
  | i :: p' => El (node_element n) (alter (appendChild child p') i (node_kids n))
  end.

(** [el.remove()] / [parent.removeChild(el)]: the whole subtree goes. *)
Fixpoint remove_at (p : path) (n : Node) : Node :=
  match p with
  | [] => n
  | [i] => El (node_element n) (delete i (node_kids n))
  | i :: p' => El (node_element n) (alter (remove_at p') i (node_kids n))
  end.

(** *** Tree operations, in document order *)

Definition first_in {A} (g : A → option path) : nat → list A → option path :=
  fix go i l :=
    match l with
    | [] => None
    | x :: l' =>
        match g x with
        | Some p => Some (i :: p)
        | None => go (S i) l'
        end
    end.

(** First element in tree order that satisfies [P], the node itself included. *)
Fixpoint find_first (P : Element → bool) (n : Node) : option path :=
  match n with
  | El e ks => if P e then Some [] else first_in (find_first P) 0%nat ks
  end.

(** [el.querySelector(sel)]: descendants only. *)
Definition find_below (P : Element → bool) (n : Node) : option path :=
  first_in (find_first P) 0%nat (node_kids n).

(** [item.querySelector(sel)] for the element at [item], as a reference
    from the document root. *)
Definition below (P : Element → bool) (item : path) (d : Node) : option path :=
  match get_at item d with
  | Some n =>
      match find_below P n with
      | Some rel => Some (item ++ rel)%list
      | None => None
      end
  | None => None
  end.

(** All elements, in tree order. *)
Fixpoint elements (n : Node) : list Element :=
  match n with
  | El e ks => e :: concat (List.map elements ks)
  end.

(** [querySelectorAll(sel).forEach(el => f(el))] where [f] only mutates the
    element it is given: the node list is static, so every element that
    matched when the list was taken is updated once. *)
Fixpoint forEach_matching (P : Element → bool) (f : Element → Element) (n : Node) : Node :=
  match n with
  | El e ks => El (if P e then f e else e) (List.map (forEach_matching P f) ks)
  end.

Definition count (P : Element → bool) (n : Node) : nat :=
  length (List.filter P (elements n)).

Definition collect {A} (g : A → list path) : nat → list A → list path :=
  fix go i l :=
    match l with
    | [] => []
    | x :: l' => (List.map (cons i) (g x) ++ go (S i) l')%list
    end.

(** [querySelectorAll]: references to every element that satisfies [P],
    which may look at the ancestors (nearest first), in tree order. *)
Fixpoint select (P : list Element → Element → bool) (anc : list Element) (n : Node)
  : list path :=
  match n with
  | El e ks => ((if P anc e then [[]] else []) ++ collect (select P (e :: anc)) 0%nat ks)%list
  end.

End Dom.

(** ** Controller attributes and browser state *)

(** [this.deviceInfo]: the fields of the object literal of [detectDevice].
    The constructor's [{}] reads as all-falsy, see [emptyDeviceInfo]. *)
Record Connection := mkConnection {
  saveData : bool
}.

Record DeviceInfo := mkDeviceInfo {
  isMobile : bool;
  isTablet : bool;
  isDesktop : bool;
  isIOS : bool;
  isAndroid : bool;
  isMac : bool;
  isWindows : bool;
  hasTouch : bool;
  hasHover : bool;
  canVibrate : bool;
  isChrome : bool;
  isFirefox : bool;
  isSafari : bool;
  connection : option Connection;
  pixelRatio : option Q                 (* [None]: undefined, on [{}] only *)
}.

Definition emptyDeviceInfo : DeviceInfo :=
  mkDeviceInfo false false false false false false false false false false
               false false false None None.

(** [screen.orientation ? screen.orientation.angle : (... ? 'portrait' : 'landscape')] *)
Inductive Orientation := Angle (a : Z) | Named (s : string).

(** [this.screenInfo].  The literal also has [aspectRatio] (a floating-point
    quotient) and the two safe-area insets (parsed from a computed style);
    nothing in the script reads them back and they are left out. *)
Record ScreenInfo := mkScreenInfo {
  width : Z;
  height : Z;
  availWidth : Z;
  availHeight : Z;
  orientation : Orientation;
  isXSmall : bool;
  isSmall : bool;
  isMedium : bool;
  isLarge : bool;
  isXLarge : bool;
  isPortrait : bool;
  isLandscape : bool
}.

(** The constructor's [{}]: every flag reads as [undefined], hence falsy. *)
Definition emptyScreenInfo : ScreenInfo :=
  mkScreenInfo 0 0 0 0 (Named "") false false false false false false false.

Record GreenMaxWebsite := mkSite {
  currentTheme : string;
  currentTab : string;
  deviceInfo : DeviceInfo;
  screenInfo : ScreenInfo
}.

(** The closures the script hands to [addEventListener], [setTimeout] and
    [then]; each captures [this] and at most one element. *)
Inductive Callback :=
  | CbThemeToggleClick
  | CbTabClick
  | CbTabKeydown
  | CbSchemeChange
  | CbOrientationChange
  | CbResize
  | CbRedetect                           (* body of the two delayed re-detections *)
  | CbClearTransition                    (* the 300ms timer of toggleTheme *)
  | CbFaqClick (item : path)
  | CbFaqKeydown (item : path)
  | CbVibrate
  | CbConnectionChange
  | CbBatteryReady                       (* the [then] of getBattery() *)
  | CbOptimizeForBattery
  | CbWindowError                        (* page-level handlers of DOMContentLoaded *)
  | CbHashChange
  | CbDOMContentLoaded.                  (* the listener the script itself registers *)

Inductive Target :=
  | OnElement (p : path)
  | OnWindow
  | OnMediaQuery (q : string)
  | OnConnection
  | OnBattery
  | OnDocument.

Record Listener := mkListener {
  l_target : Target;
  l_event : string;
  l_callback : Callback
}.

Record Timer := mkTimer {
  t_id : nat;
  t_delay : Z;
  t_callback : Callback
}.

Record Battery := mkBattery {
  level : Q;
  charging : bool
}.

(** ** Completions *)

Inductive JSError :=
  | TypeError (what : string)            (* property access on null/undefined, call of a non-function *)
  | DOMException (name : string).        (* rejections and failures raised by the platform *)

Inductive Completion (A : Type) :=
  | Normal (a : A)
  | Throw (e : JSError).

Arguments Normal {A} a.
Arguments Throw {A} e.

(** What the platform answers; the script only reads these. *)
Record Env := mkEnv {
  userAgent : string;
  platform : string;
  maxTouchPoints : Z;
  ontouchstart : bool;                   (* 'ontouchstart' in window *)
  vibrate : bool;                        (* 'vibrate' in navigator *)
  nav_connection : option Connection;    (* connection || mozConnection || webkitConnection *)
  battery : option Battery;              (* 'getBattery' in navigator, and what it resolves to *)
  devicePixelRatio : Q;
  innerWidth : Z;
  innerHeight : Z;
  screen_availWidth : Z;
  screen_availHeight : Z;
  screen_orientation : option Z;         (* screen.orientation.angle when present *)
  matchMedia : option (string → bool);   (* window.matchMedia, and .matches per query *)
  isSecureContext : bool;
  clipboard : option (string → Completion unit);
                                         (* navigator.clipboard, and how writeText settles *)
  execCommand_copy : Completion bool     (* what document.execCommand('copy') does *)
}.

Record Browser := mkBrowser {
  document : Node;                       (* the <html> element *)
  localStorage : gmap string string;
  location_hash : string;                (* window.location.hash *)
  console : list string;
  timers : list Timer;
  next_timer : nat;
  resizeTimeout : option nat;            (* the [let] captured by the resize listener *)
  listeners : list Listener;
  microtasks : list Callback;            (* promise reactions not yet run *)
  scrolled : list path;                  (* scrollIntoView targets, latest first *)
  vibrated : nat;                        (* number of navigator.vibrate calls *)
  env : Env
}.

Record World := mkWorld {
  this : GreenMaxWebsite;
  browser : Browser
}.

Module Upd.

Definition with_currentTheme (v : string) (w : World) : World :=
  mkWorld (mkSite v (currentTab (this w)) (deviceInfo (this w)) (screenInfo (this w)))
          (browser w).

Definition with_currentTab (v : string) (w : World) : World :=
  mkWorld (mkSite (currentTheme (this w)) v (deviceInfo (this w)) (screenInfo (this w)))
          (browser w).

Definition with_deviceInfo (v : DeviceInfo) (w : World) : World :=
  mkWorld (mkSite (currentTheme (this w)) (currentTab (this w)) v (screenInfo (this w)))
          (browser w).

Definition with_screenInfo (v : ScreenInfo) (w : World) : World :=
  mkWorld (mkSite (currentTheme (this w)) (currentTab (this w)) (deviceInfo (this w)) v)
          (browser w).

Definition with_document (f : Node → Node) (w : World) : World :=
  let b := browser w in
  mkWorld (this w)
    (mkBrowser (f (document b)) (localStorage b) (location_hash b) (console b) (timers b)
               (next_timer b) (resizeTimeout b) (listeners b) (microtasks b) (scrolled b)
               (vibrated b) (env b)).

Definition with_localStorage (f : gmap string string → gmap string string) (w : World) : World :=
  let b := browser w in
  mkWorld (this w)
    (mkBrowser (document b) (f (localStorage b)) (location_hash b) (console b) (timers b)
               (next_timer b) (resizeTimeout b) (listeners b) (microtasks b) (scrolled b)
               (vibrated b) (env b)).

Definition with_location_hash (v : string) (w : World) : World :=
  let b := browser w in
  mkWorld (this w)
    (mkBrowser (document b) (localStorage b) v (console b) (timers b)
               (next_timer b) (resizeTimeout b) (listeners b) (microtasks b) (scrolled b)
               (vibrated b) (env b)).

Definition with_console (f : list string → list string) (w : World) : World :=
  let b := browser w in
  mkWorld (this w)
    (mkBrowser (document b) (localStorage b) (location_hash b) (f (console b)) (timers b)
               (next_timer b) (resizeTimeout b) (listeners b) (microtasks b) (scrolled b)
               (vibrated b) (env b)).

Definition with_timers (f : list Timer → list Timer) (n : nat) (w : World) : World :=
  let b := browser w in
  mkWorld (this w)
    (mkBrowser (document b) (localStorage b) (location_hash b) (console b) (f (timers b))
               n (resizeTimeout b) (listeners b) (microtasks b) (scrolled b)
               (vibrated b) (env b)).

Definition with_resizeTimeout (v : option nat) (w : World) : World :=
  let b := browser w in
  mkWorld (this w)
    (mkBrowser (document b) (localStorage b) (location_hash b) (console b) (timers b)
               (next_timer b) v (listeners b) (microtasks b) (scrolled b)
               (vibrated b) (env b)).

Definition with_listeners (f : list Listener → list Listener) (w : World) : World :=
  let b := browser w in
  mkWorld (this w)
    (mkBrowser (document b) (localStorage b) (location_hash b) (console b) (timers b)
               (next_timer b) (resizeTimeout b) (f (listeners b)) (microtasks b) (scrolled b)
               (vibrated b) (env b)).

Definition with_microtasks (f : list Callback → list Callback) (w : World) : World :=
  let b := browser w in
  mkWorld (this w)
    (mkBrowser (document b) (localStorage b) (location_hash b) (console b) (timers b)
               (next_timer b) (resizeTimeout b) (listeners b) (f (microtasks b)) (scrolled b)
               (vibrated b) (env b)).

Definition with_scrolled (f : list path → list path) (w : World) : World :=
  let b := browser w in
  mkWorld (this w)
    (mkBrowser (document b) (localStorage b) (location_hash b) (console b) (timers b)
               (next_timer b) (resizeTimeout b) (listeners b) (microtasks b) (f (scrolled b))
               (vibrated b) (env b)).

Definition with_vibrated (f : nat → nat) (w : World) : World :=
  let b := browser w in
  mkWorld (this w)
    (mkBrowser (document b) (localStorage b) (location_hash b) (console b) (timers b)
               (next_timer b) (resizeTimeout b) (listeners b) (microtasks b) (scrolled b)
               (f (vibrated b)) (env b)).

Definition with_env (v : Env) (w : World) : World :=
  let b := browser w in
  mkWorld (this w)
    (mkBrowser (document b) (localStorage b) (location_hash b) (console b) (timers b)
               (next_timer b) (resizeTimeout b) (listeners b) (microtasks b) (scrolled b)
               (vibrated b) v).

End Upd.

(** ** The [JS] monad *)

(** A statement sequence: run from a world, end normally or abruptly, and in
    both cases leave the mutations made so far. *)
Definition JS (A : Type) : Type := World → Completion A * World.

Global Instance JS_ret : MRet JS := λ A a w, (Normal a, w).

Global Instance JS_bind : MBind JS := λ A B f m w,
  match m w with
  | (Normal a, w') => f a w'
  | (Throw e, w') => (Throw e, w')
  end.

Definition throw {A} (e : JSError) : JS A := λ w, (Throw e, w).

(** [try { m } catch (err) { h err }] *)
Definition try_catch {A} (m : JS A) (h : JSError → JS A) : JS A := λ w,
  match m w with
  | (Normal a, w') => (Normal a, w')
  | (Throw e, w') => h e w'
  end.

Definition gets {A} (f : World → A) : JS A := λ w, (Normal (f w), w).
Definition modify (f : World → World) : JS unit := λ w, (Normal tt, f w).

Definition when (b : bool) (m : JS unit) : JS unit := if b then m else mret tt.

Definition completes {A} (r : Completion A * World) : bool :=
  match r.1 with Normal _ => true | Throw _ => false end.

(** ** The platform calls the script makes *)

Module Api.

(** Dereferencing a reference that may be [null]. *)
Definition deref {A} (what : string) (r : option A) : JS A :=
  match r with
  | Some a => mret a
  | None => throw (TypeError what)
  end.

(** [document.body], [document.head]: the first such child of <html>. *)
Fixpoint index_where {A} (P : A → bool) (l : list A) : option nat :=
  match l with
  | [] => None
  | x :: l' => if P x then Some 0%nat else S <$> index_where P l'
  end.

Definition child_with_tag (t : string) (d : Node) : option path :=
  (λ i, [i]) <$> index_where (λ k, Dom.hasTag t (node_element k)) (node_kids d).

Definition document_body : JS (option path) :=
  gets (λ w, child_with_tag "body" (document (browser w))).

Definition document_head : JS (option path) :=
  gets (λ w, child_with_tag "head" (document (browser w))).

(** [document.getElementById(i)]: the empty id names nothing. *)
Definition getElementById (i : string) : JS (option path) :=
  gets (λ w, if String.eqb i "" then None
             else Dom.find_first (Dom.hasId i) (document (browser w))).

(** [document.querySelector('#i')] for a literal, non-empty [i]. *)
Definition querySelector_id (i : string) : JS (option path) :=
  gets (λ w, Dom.find_first (Dom.hasId i) (document (browser w))).

(** [document.querySelector(`[k="${v}"]`)].  The template yields the
    attribute selector for value [v] when [v] has no double quote,
    backslash or line break (see [selector_safe]); statements about
    [switchTab] are made for such names. *)
Definition querySelector_attr (k v : string) : JS (option path) :=
  gets (λ w, Dom.find_first (Dom.hasAttr k v) (document (browser w))).

(** Mutating the element behind a reference; a null reference raises. *)
Definition mutate (what : string) (r : option path) (f : Element → Element) : JS unit :=
  p ← deref what r;
  modify (Upd.with_document (Dom.update_at f p)).

(** Reading from the element behind a non-null reference. *)
Definition read {A} (p : path) (f : Element → A) (dflt : A) : JS A :=
  gets (λ w, default dflt (f <$> Dom.element_at p (document (browser w)))).

Definition forEach (P : Element → bool) (f : Element → Element) : JS unit :=
  modify (Upd.with_document (Dom.forEach_matching P f)).

Definition localStorage_getItem (k : string) : JS (option string) :=
  gets (λ w, localStorage (browser w) !! k).

Definition localStorage_setItem (k v : string) : JS unit :=
  modify (Upd.with_localStorage (<[k := v]>)).

(** A value read from storage used as a condition: [null] and [''] are falsy. *)
Definition truthy_item (v : option string) : bool :=
  match v with
  | Some s => Str.truthy s
  | None => false
  end.

Definition console_log (msg : string) : JS unit :=
  modify (Upd.with_console (λ l, (l ++ [msg])%list)).

Definition setTimeout (cb : Callback) (delay : Z) : JS nat :=
  n ← gets (λ w, next_timer (browser w));
  modify (λ w, Upd.with_timers (λ l, (l ++ [mkTimer n delay cb])%list) (S n) w);;
  mret n.

Definition clearTimeout (i : option nat) : JS unit :=
  match i with
  | Some n =>
      modify (λ w, Upd.with_timers (List.filter (λ t, negb (Nat.eqb (t_id t) n)))
                              (next_timer (browser w)) w)
  | None => mret tt
  end.

Definition addEventListener (t : Target) (ev : string) (cb : Callback) : JS unit :=
  modify (Upd.with_listeners (λ l, (l ++ [mkListener t ev cb])%list)).

(** [window.matchMedia && window.matchMedia(q).matches] *)
Definition matchMedia_guarded (q : string) : JS bool :=
  gets (λ w, match matchMedia (env (browser w)) with
             | Some mm => mm q
             | None => false
             end).

(** [window.matchMedia(q).matches], unguarded *)
Definition matchMedia_matches (q : string) : JS bool :=
  mm ← gets (λ w, matchMedia (env (browser w)));
  mm ← deref "window.matchMedia is not a function" mm;
  mret (mm q).

End Api.

(** ** The controller: theme, tabs, accordion *)

Record Event := mkEvent {
  currentTarget : path;                  (* e.currentTarget *)
  key : string;                          (* e.key *)
  matches : bool                         (* e.matches of a media-query change *)
}.

Module Site.
Import Api.

Definition THEME_KEY : string := "greenmax-theme".
Definition DARK_QUERY : string := "(prefers-color-scheme: dark)".

(** *** Theme *)

Definition applyTheme : JS unit :=
  body ← document_body;
  themeIcon ← getElementById "themeIcon";
  theme ← gets (λ w, currentTheme (this w));
  (if String.eqb theme "dark" then
     mutate "body.setAttribute" body (Dom.setAttribute "data-theme" "dark");;
     mutate "themeIcon.className" themeIcon (Dom.setClassName "fas fa-sun")
   else
     mutate "body.removeAttribute" body (Dom.removeAttribute "data-theme");;
     mutate "themeIcon.className" themeIcon (Dom.setClassName "fas fa-moon"));;
  theme ← gets (λ w, currentTheme (this w));
  localStorage_setItem THEME_KEY theme.

Definition loadTheme : JS unit :=
  savedTheme ← localStorage_getItem THEME_KEY;
  (if truthy_item savedTheme then
     modify (Upd.with_currentTheme (default "" savedTheme))
   else
     dark ← matchMedia_guarded DARK_QUERY;
     when dark (modify (Upd.with_currentTheme "dark")));;
  applyTheme.

Definition toggleTheme : JS unit :=
  theme ← gets (λ w, currentTheme (this w));
  modify (Upd.with_currentTheme (if String.eqb theme "light" then "dark" else "light"));;
  applyTheme;;
  body ← document_body;
  mutate "document.body.style" body
         (Dom.setStyle "transition" "background-color 0.3s ease, color 0.3s ease");;
  setTimeout CbClearTransition 300;;
  mret tt.

(** The system colour-scheme listener registered by [setupEventListeners]. *)
Definition onSchemeChange (e : Event) : JS unit :=
  savedTheme ← localStorage_getItem THEME_KEY;
  when (negb (truthy_item savedTheme))
       (modify (Upd.with_currentTheme (if matches e then "dark" else "light"));;
        applyTheme).

Definition onClearTransition : JS unit :=
  body ← document_body;
  mutate "document.body.style" body (Dom.setStyle "transition" "").

(** *** Tabs *)

(** Names for which the template [`[data-tab="${tabName}"]`] is the plain
    attribute selector with value [tabName]. *)
Definition selector_safe (tabName : string) : bool :=
  forallb (λ c, negb (Ascii.eqb c "034" || Ascii.eqb c "092" || Ascii.eqb c "010"
                      || Ascii.eqb c "012" || Ascii.eqb c "013")%char)
          (list_ascii_of_string tabName).

Definition scrollIntoView (p : path) : JS unit :=
  modify (Upd.with_scrolled (cons p)).

(** [history.replaceState(null, null, url)] with a fragment-only URL. *)
Definition history_replaceState (url : string) : JS unit :=
  modify (Upd.with_location_hash url).

Definition switchTab (tabName : string) : JS unit :=
  forEach (Dom.contains "tab-button") (Dom.classRemove "active");;
  forEach (Dom.contains "tab-panel") (Dom.classRemove "active");;
  activeTabButton ← querySelector_attr "data-tab" tabName;
  activeTabPanel ← getElementById tabName;
  match activeTabButton, activeTabPanel with
  | Some _, Some panel =>
      mutate "activeTabButton.classList" activeTabButton (Dom.classAdd "active");;
      mutate "activeTabPanel.classList" activeTabPanel (Dom.classAdd "active");;
      modify (Upd.with_currentTab tabName);;
      scrollIntoView panel;;
      history_replaceState ("#" ++ tabName)
  | _, _ => mret tt
  end.

Definition validTabs : list string := ["general"; "faq"].

Definition includes (l : list string) (x : string) : bool := existsb (String.eqb x) l.

Definition initializeActiveTab : JS unit :=
  hash ← gets (λ w, Str.substring1 (location_hash (browser w)));
  if Str.truthy hash && includes validTabs hash
  then switchTab hash
  else switchTab "general".

(** The window-level [hashchange] listener. *)
Definition onHashChange : JS unit :=
  hash ← gets (λ w, Str.substring1 (location_hash (browser w)));
  when (Str.truthy hash && includes validTabs hash) (switchTab hash).

(** [e.currentTarget.getAttribute('data-tab')]; a missing attribute is
    [null], which the template and [getElementById] both read as "null". *)
Definition target_tabName (e : Event) : JS string :=
  read (currentTarget e) (λ el, default "null" (Dom.getAttribute "data-tab" el)) "null".

Definition onTabClick (e : Event) : JS unit :=
  tabName ← target_tabName e;
  switchTab tabName.

Definition activation_key (k : string) : bool := String.eqb k "Enter" || String.eqb k " ".

Definition onTabKeydown (e : Event) : JS unit :=
  when (activation_key (key e))
       (tabName ← target_tabName e;
        switchTab tabName).

(** *** FAQ accordion *)

(** [item.querySelector(sel)], as an absolute reference. *)
Definition querySelector_in (item : path) (P : Element → bool) : JS (option path) :=
  gets (λ w, Dom.below P item (document (browser w))).

Definition when_some (r : option path) (f : Element → Element) : JS unit :=
  match r with
  | Some _ => mutate "guarded" r f
  | None => mret tt
  end.

Definition toggleFAQItem (item : path) : JS unit :=
  isActive ← read item (Dom.contains "active") false;
  question ← querySelector_in item (Dom.hasTag "h4");
  answer ← querySelector_in item (Dom.contains "faq-answer");
  if (isActive : bool) then
    mutate "item.classList" (Some item) (Dom.classRemove "active");;
    when_some question (Dom.setAttribute "aria-expanded" "false");;
    when_some answer (Dom.setStyle "maxHeight" "0")
  else
    mutate "item.classList" (Some item) (Dom.classAdd "active");;
    when_some question (Dom.setAttribute "aria-expanded" "true");;
    when_some answer (λ a, Dom.setStyle "maxHeight" (pretty (scrollHeight a) ++ "px") a).

Definition onFaqKeydown (item : path) (e : Event) : JS unit :=
  when (activation_key (key e)) (toggleFAQItem item).

(** *** Device and screen detection *)

(** [/w1|w2|.../i.test(s)] for literal alternatives. *)
Definition test_any (ws : list string) (s : string) : bool :=
  existsb (λ w, Str.includes w s) ws.

(** The text [.*] can run over: up to the first line terminator. *)
Fixpoint first_line (s : string) : string :=
  match s with
  | EmptyString => EmptyString
  | String c s' =>
      if (Ascii.eqb c "010" || Ascii.eqb c "013")%char then EmptyString
      else String c (first_line s')
  end.

Fixpoint strip_prefix (t s : string) : option string :=
  match t, s with
  | EmptyString, _ => Some s
  | String a t', String b s' => if Ascii.eqb a b then strip_prefix t' s' else None
  | String _ _, EmptyString => None
  end.

(** [/android(?!.*mobile)/.test(s)]: some occurrence of "android" with no
    "mobile" after it on the same line. *)
Fixpoint android_not_mobile (s : string) : bool :=
  match strip_prefix "android" s with
  | Some rest => negb (Str.includes "mobile" (first_line rest))
  | None => false
  end ||
  match s with
  | EmptyString => false
  | String _ s' => android_not_mobile s'
  end.

Definition MOBILE_WORDS : list string :=
  ["android"; "webos"; "iphone"; "ipad"; "ipod"; "blackberry"; "iemobile"; "opera mini"].

Definition TABLET_THRESHOLD : Z := 768.

Definition detectDevice : JS unit :=
  ev ← gets (λ w, env (browser w));
  let ua := Str.toLowerCase (userAgent ev) in
  let pf := Str.toLowerCase (platform ev) in
  hover ← matchMedia_matches "(hover: hover)";
  let info :=
    mkDeviceInfo
      (test_any MOBILE_WORDS ua)
      (Str.includes "ipad" ua || android_not_mobile ua || Str.includes "tablet" ua)
      (negb (test_any (MOBILE_WORDS ++ ["tablet"])%list ua))
      (test_any ["iphone"; "ipad"; "ipod"] ua)
      (Str.includes "android" ua)
      (Str.includes "mac" pf)
      (Str.includes "win" pf)
      (ontouchstart ev || (0 <? maxTouchPoints ev))
      hover
      (vibrate ev)
      (Str.includes "chrome" ua)
      (Str.includes "firefox" ua)
      (Str.includes "safari" ua && negb (Str.includes "chrome" ua))
      (nav_connection ev)
      (Some (if Qeq_bool (devicePixelRatio ev) 0 then 1%Q else devicePixelRatio ev)) in
  modify (Upd.with_deviceInfo info);;
  (* Refine tablet detection *)
  when (isMobile info &&
        ((TABLET_THRESHOLD <? innerWidth ev) || (TABLET_THRESHOLD <? innerHeight ev)))
       (modify (λ w,
          let d := deviceInfo (this w) in
          Upd.with_deviceInfo
            (mkDeviceInfo false true (isDesktop d) (isIOS d) (isAndroid d) (isMac d)
                          (isWindows d) (hasTouch d) (hasHover d) (canVibrate d)
                          (isChrome d) (isFirefox d) (isSafari d) (connection d)
                          (pixelRatio d)) w));;
  console_log "Device detected:".

Definition detectScreen : JS unit :=
  ev ← gets (λ w, env (browser w));
  let iw := innerWidth ev in
  let ih := innerHeight ev in
  modify (Upd.with_screenInfo
    (mkScreenInfo iw ih (screen_availWidth ev) (screen_availHeight ev)
       (match screen_orientation ev with
        | Some a => Angle a
        | None => Named (if iw <? ih then "portrait" else "landscape")
        end)
       (iw <? 480)
       ((480 <=? iw) && (iw <? 768))
       ((768 <=? iw) && (iw <? 1024))
       ((1024 <=? iw) && (iw <? 1200))
       (1200 <=? iw)
       (iw <? ih)
       (ih <? iw)));;
  console_log "Screen detected:".

(** *** Injected style blocks *)

(** The CSS texts, with the source's indentation squeezed out. *)
Definition TOUCH_CSS : string :=
  ".touch-device .tab-button { min-height: 44px; padding: 1rem 1.5rem; } " ++
  ".touch-device .theme-toggle { width: 48px; height: 48px; min-width: 44px; min-height: 44px; } " ++
  ".touch-device .faq-item h4 { min-height: 44px; padding: 1rem 0; }".

Definition PERFORMANCE_CSS : string :=
  "* { transition-duration: 0.1s !important; animation-duration: 0.1s !important; } " ++
  ".content-card:hover { transform: none !important; }".

Definition MOBILE_CSS : string :=
  ".device-mobile .container { padding: 0 12px; } " ++
  ".device-mobile .content-card { margin-bottom: 1rem; padding: 1rem; } " ++
  ".device-mobile .hero { padding: 1rem 0; } " ++
  ".device-mobile .tabs { padding: 0 0.5rem; } ".

Definition TABLET_CSS : string :=
  ".device-tablet .container { padding: 0 24px; } " ++
  ".device-tablet .tabs { gap: 1.5rem; } " ++
  ".device-tablet .content-card { padding: 1.5rem; } ".

Definition LANDSCAPE_CSS : string :=
  ".device-mobile.orientation-landscape .hero { padding: 0.5rem 0; margin-bottom: 1.5rem; } " ++
  ".device-mobile.orientation-landscape .hero h2 { font-size: 1.8rem; } ".

Definition HIDPI_CSS : string :=
  ".logo i { font-size: 2.2rem; } .tab-button i { font-size: 1.1rem; } ".

Definition BATTERY_CSS : string :=
  ".low-battery * { transition: none !important; animation: none !important; }".

(** [style = createElement('style'); style.textContent = css; ...; style.id = i] *)
Definition styleElement (i css : string) : Node :=
  El (Dom.setAttribute "id" i (Dom.setTextContent css (Dom.createElement "style"))) [].

(** [el.remove()] *)
Definition remove (p : path) : JS unit :=
  modify (Upd.with_document (Dom.remove_at p)).

(** [document.head.appendChild(node)] *)
Definition head_appendChild (n : Node) : JS unit :=
  head ← document_head;
  head ← deref "document.head.appendChild" head;
  modify (Upd.with_document (Dom.appendChild n head)).

(** The sequence the three optimizers share, written out in each of them in
    the source: look the block up by id, remove it if present, then append
    the new one to the head. *)
Definition replaceStyleBlock (i css : string) : JS unit :=
  existing ← querySelector_id i;
  match existing with
  | Some p => remove p
  | None => mret tt
  end;;
  head_appendChild (styleElement i css).

(** [querySelectorAll('.tab-button, .theme-toggle, .faq-item h4')] *)
Definition haptic_target (ancestors : list Element) (e : Element) : bool :=
  Dom.contains "tab-button" e || Dom.contains "theme-toggle" e ||
  (Dom.hasTag "h4" e && existsb (Dom.contains "faq-item") ancestors).

Definition optimizeTouchInteractions : JS unit :=
  d ← gets (λ w, deviceInfo (this w));
  if negb (hasTouch d) then mret tt
  else
    replaceStyleBlock "touch-optimization" TOUCH_CSS;;
    when (canVibrate d)
         (buttons ← gets (λ w, Dom.select haptic_target [] (document (browser w)));
          modify (Upd.with_listeners (λ l,
            (l ++ List.map (λ p, mkListener (OnElement p) "click" CbVibrate) buttons)%list))).

Definition optimizeScrolling : JS unit :=
  d ← gets (λ w, deviceInfo (this w));
  when (isIOS d)
       (body ← document_body;
        mutate "document.body.style" body (Dom.setStyle "webkitOverflowScrolling" "touch"));;
  mutate "document.documentElement.style" (Some [])
         (Dom.setStyle "scrollBehavior" (if isMobile d then "auto" else "smooth")).

(** [x <= 1] and [x > 2] on a possibly undefined number. *)
Definition num_le (x : option Q) (y : Q) : bool :=
  match x with Some q => Qle_bool q y | None => false end.

Definition num_gt (x : option Q) (y : Q) : bool :=
  match x with Some q => negb (Qle_bool q y) | None => false end.

Definition prefersReducedMotion : JS bool :=
  matchMedia_guarded "(prefers-reduced-motion: reduce)".

Definition optimizePerformance : JS unit :=
  d ← gets (λ w, deviceInfo (this w));
  let isLowEndDevice :=
    num_le (pixelRatio d) 1 ||
    match connection d with Some c => saveData c | None => false end in
  reduced ← (if isLowEndDevice then mret true else prefersReducedMotion);
  when reduced (replaceStyleBlock "performance-optimization" PERFORMANCE_CSS).

Definition adjustLayoutForScreen : JS unit :=
  d ← gets (λ w, deviceInfo (this w));
  sc ← gets (λ w, screenInfo (this w));
  let css :=
    (if isMobile d then MOBILE_CSS else "") ++
    (if isTablet d then TABLET_CSS else "") ++
    (if isMobile d && isLandscape sc then LANDSCAPE_CSS else "") ++
    (if num_gt (pixelRatio d) 2 then HIDPI_CSS else "") in
  replaceStyleBlock "layout-optimization" css.

Definition DEVICE_CLASSES : list string :=
  ["device-mobile"; "device-tablet"; "device-desktop"; "touch-device"; "no-touch";
   "orientation-portrait"; "orientation-landscape"].

Definition SIZE_CLASSES : list string :=
  ["screen-xs"; "screen-sm"; "screen-md"; "screen-lg"; "screen-xl"].

Definition optimizeInterface : JS unit :=
  body ← document_body;
  d ← gets (λ w, deviceInfo (this w));
  sc ← gets (λ w, screenInfo (this w));
  let add c := mutate "body.classList" body (Dom.classAdd c) in
  mutate "body.classList" body (Dom.classRemoveAll DEVICE_CLASSES);;
  add (if isMobile d then "device-mobile"
       else if isTablet d then "device-tablet" else "device-desktop");;
  add (if hasTouch d then "touch-device" else "no-touch");;
  add (if isPortrait sc then "orientation-portrait" else "orientation-landscape");;
  mutate "body.classList" body (Dom.classRemoveAll SIZE_CLASSES);;
  add (if isXSmall sc then "screen-xs"
       else if isSmall sc then "screen-sm"
       else if isMedium sc then "screen-md"
       else if isLarge sc then "screen-lg" else "screen-xl");;
  optimizeTouchInteractions;;
  optimizeScrolling;;
  optimizePerformance;;
  adjustLayoutForScreen.

(** The closure [optimizeForBattery] of [setupDynamicOptimization]; the
    battery manager it reads is the one the platform currently reports. *)
(** [battery.level < 0.2 || !battery.charging] *)
Definition battery_low (b : Battery) : bool :=
  negb (Qle_bool (1 # 5) (level b)) || negb (charging b).

Definition optimizeForBattery : JS unit :=
  b ← gets (λ w, battery (env (browser w)));
  b ← deref "battery" b;
  body ← document_body;
  if battery_low b then
    mutate "document.body.classList" body (Dom.classAdd "low-battery");;
    head_appendChild (styleElement "battery-optimization" BATTERY_CSS)
  else
    mutate "document.body.classList" body (Dom.classRemove "low-battery");;
    batteryStyles ← querySelector_id "battery-optimization";
    match batteryStyles with
    | Some p => remove p
    | None => mret tt
    end.

Definition onBatteryReady : JS unit :=
  addEventListener OnBattery "levelchange" CbOptimizeForBattery;;
  addEventListener OnBattery "chargingchange" CbOptimizeForBattery;;
  optimizeForBattery.

Definition setupDynamicOptimization : JS unit :=
  d ← gets (λ w, deviceInfo (this w));
  when (bool_decide (is_Some (connection d)))
       (addEventListener OnConnection "change" CbConnectionChange);;
  b ← gets (λ w, battery (env (browser w)));
  when (bool_decide (is_Some b))
       (modify (Upd.with_microtasks (λ l, (l ++ [CbBatteryReady])%list))).

(** *** Wiring *)

(** [list.forEach(x => f(x))] for a callback with effects beyond its argument. *)
Definition for_each {A} (l : list A) (f : A → JS unit) : JS unit :=
  fold_right (λ x k, f x;; k) (mret tt) l.

Definition querySelectorAll (P : Element → bool) : JS (list path) :=
  gets (λ w, Dom.select (λ _, P) [] (document (browser w))).

Definition setupEventListeners : JS unit :=
  themeToggle ← getElementById "themeToggle";
  match themeToggle with
  | Some p => addEventListener (OnElement p) "click" CbThemeToggleClick
  | None => mret tt
  end;;
  tabButtons ← querySelectorAll (Dom.contains "tab-button");
  for_each tabButtons (λ b, addEventListener (OnElement b) "click" CbTabClick);;
  for_each tabButtons (λ b, addEventListener (OnElement b) "keydown" CbTabKeydown);;
  mm ← gets (λ w, matchMedia (env (browser w)));
  when (bool_decide (is_Some mm))
       (addEventListener (OnMediaQuery DARK_QUERY) "change" CbSchemeChange);;
  addEventListener OnWindow "orientationchange" CbOrientationChange;;
  addEventListener OnWindow "resize" CbResize.

Definition setupFAQInteractivity : JS unit :=
  faqItems ← querySelectorAll (Dom.contains "faq-item");
  for_each faqItems (λ item,
    question ← querySelector_in item (Dom.hasTag "h4");
    match question with
    | Some q =>
        addEventListener (OnElement q) "click" (CbFaqClick item);;
        addEventListener (OnElement q) "keydown" (CbFaqKeydown item);;
        mutate "question" question (Dom.setAttribute "tabindex" "0");;
        mutate "question" question (Dom.setAttribute "role" "button");;
        mutate "question" question (Dom.setAttribute "aria-expanded" "false")
    | None => mret tt
    end).

Definition init : JS unit :=
  detectDevice;;
  detectScreen;;
  optimizeInterface;;
  loadTheme;;
  setupEventListeners;;
  setupFAQInteractivity;;
  initializeActiveTab;;
  setupDynamicOptimization.

(** [new GreenMaxWebsite()] *)
Definition constructor : JS unit :=
  modify (λ w, mkWorld (mkSite "light" "general" emptyDeviceInfo emptyScreenInfo) (browser w));;
  init.

(** The [DOMContentLoaded] listener at the bottom of the script. *)
Definition onDOMContentLoaded : JS unit :=
  constructor;;
  addEventListener OnWindow "error" CbWindowError;;
  addEventListener OnWindow "hashchange" CbHashChange;;
  body ← document_body;
  mutate "document.body.classList" body (Dom.classAdd "loaded").

(** *** The closures, by name *)

Definition run (cb : Callback) (e : Event) : JS unit :=
  match cb with
  | CbThemeToggleClick => toggleTheme
  | CbTabClick => onTabClick e
  | CbTabKeydown => onTabKeydown e
  | CbSchemeChange => onSchemeChange e
  | CbOrientationChange => setTimeout CbRedetect 100;; mret tt
  | CbResize =>
      pending ← gets (λ w, resizeTimeout (browser w));
      clearTimeout pending;;
      n ← setTimeout CbRedetect 150;
      modify (Upd.with_resizeTimeout (Some n))
  | CbRedetect => detectScreen;; optimizeInterface
  | CbClearTransition => onClearTransition
  | CbFaqClick item => toggleFAQItem item
  | CbFaqKeydown item => onFaqKeydown item e
  | CbVibrate => modify (Upd.with_vibrated S)
  | CbConnectionChange => optimizePerformance
  | CbBatteryReady => onBatteryReady
  | CbOptimizeForBattery => optimizeForBattery
  | CbWindowError => console_log "Green Max Website Error:"
  | CbHashChange => onHashChange
  | CbDOMContentLoaded => onDOMContentLoaded
  end.

(** [document.addEventListener('DOMContentLoaded', ...)], the statement the
    script runs when it is loaded. *)
Definition script : JS unit :=
  addEventListener OnDocument "DOMContentLoaded" CbDOMContentLoaded.

Definition target_eqb (a b : Target) : bool :=
  match a, b with
  | OnElement p, OnElement q => bool_decide (p = q)
  | OnWindow, OnWindow => true
  | OnMediaQuery x, OnMediaQuery y => String.eqb x y
  | OnConnection, OnConnection => true
  | OnBattery, OnBattery => true
  | OnDocument, OnDocument => true
  | _, _ => false
  end.

(** An event reaching a target: its listeners run in registration order,
    and an exception escaping one of them is reported, not propagated. *)
Definition dispatch (t : Target) (ev : string) (e : Event) : JS unit :=
  ls ← gets (λ w, listeners (browser w));
  for_each (List.filter (λ l, target_eqb (l_target l) t && String.eqb (l_event l) ev) ls)
           (λ l, try_catch (run (l_callback l) e) (λ _, console_log "Uncaught")).

End Site.

(** ** The free-standing clipboard helper *)

Module Util.
Import Api.

Definition lift {A} (c : Completion A) : JS A := λ w, (c, w).

Definition TEXTAREA_STYLE (e : Element) : Element :=
  Dom.setStyle "top" "-999999px"
    (Dom.setStyle "left" "-999999px" (Dom.setStyle "position" "fixed" e)).

(** [parent.appendChild(n)], returning the reference to the new child. *)
Definition appendChild (what : string) (parent : option path) (n : Node) : JS path :=
  parent ← deref what parent;
  k ← gets (λ w, default 0%nat
                   ((λ x, length (node_kids x)) <$> Dom.get_at parent (document (browser w))));
  modify (Upd.with_document (Dom.appendChild n parent));;
  mret (parent ++ [k])%list.

(** The resolution value of the promise [copyToClipboard(text)] returns; a
    [Throw] would be its rejection.  [focus()] and [select()] change nothing
    that is modelled. *)
Definition copyToClipboard (text : string) : JS bool :=
  try_catch
    (ev ← gets (λ w, env (browser w));
     match clipboard ev, isSecureContext ev with
     | Some writeText, true =>
         lift (writeText text);;
         mret true
     | _, _ =>
         let textArea :=
           El (TEXTAREA_STYLE (Dom.setTextContent text (Dom.createElement "textarea"))) [] in
         body ← document_body;
         ref ← appendChild "document.body.appendChild" body textArea;
         success ← lift (execCommand_copy ev);
         Site.remove ref;;
         mret success
     end)
    (λ err,
     console_log "Failed to copy text: ";;
     mret false).

End Util.

(** ** Observations

    What the statements below read off a world. *)

Definition doc (w : World) : Node := document (browser w).

Definition body_ref (w : World) : option path := Api.child_with_tag "body" (doc w).
Definition head_ref (w : World) : option path := Api.child_with_tag "head" (doc w).
Definition icon_ref (w : World) : option path :=
  Dom.find_first (Dom.hasId "themeIcon") (doc w).

Definition body_of (w : World) : option Element :=
  p ← body_ref w; Dom.element_at p (doc w).
Definition icon_of (w : World) : option Element :=
  p ← icon_ref w; Dom.element_at p (doc w).

(** The document-level theme marker, the icon's classes, the stored key. *)
Definition data_theme (w : World) : option string :=
  e ← body_of w; Dom.getAttribute "data-theme" e.
Definition icon_class (w : World) : option (list string) := classList <$> icon_of w.
Definition stored_theme (w : World) : option string :=
  localStorage (browser w) !! Site.THEME_KEY.

(** What [applyTheme] does to the body and to the icon for a theme value. *)
Definition mark_body (theme : string) : Element → Element :=
  if String.eqb theme "dark" then Dom.setAttribute "data-theme" "dark"
  else Dom.removeAttribute "data-theme".

Definition mark_icon (theme : string) : Element → Element :=
  Dom.setClassName (if String.eqb theme "dark" then "fas fa-sun" else "fas fa-moon").

Definition marker_for (theme : string) : option string :=
  if String.eqb theme "dark" then Some "dark" else None.

Definition icon_for (theme : string) : list string :=
  if String.eqb theme "dark" then ["fas"; "fa-sun"] else ["fas"; "fa-moon"].

(** The marker state [applyTheme] leaves for the current theme. *)
Definition theme_applied (w : World) : Prop :=
  data_theme w = marker_for (currentTheme (this w)) ∧
  icon_class w = Some (icon_for (currentTheme (this w))).

(** Element updates that leave the tag and the id alone do not disturb
    what [document.body] and [getElementById] resolve to. *)
Definition keeps_identity (f : Element → Element) : Prop :=
  ∀ e, tagName (f e) = tagName e ∧ attributes (f e) !! "id" = attributes e !! "id".

(** The world [applyTheme] leaves when both lookups succeed. *)
Definition applied (bp ip : path) (w : World) : World :=
  Upd.with_localStorage (<[Site.THEME_KEY := currentTheme (this w)]>)
    (Upd.with_document (Dom.update_at (mark_icon (currentTheme (this w))) ip)
       (Upd.with_document (Dom.update_at (mark_body (currentTheme (this w))) bp) w)).

(** The theme [toggleTheme] moves to, and the world it leaves when both
    lookups succeed. *)
Definition flipped (theme : string) : string :=
  if String.eqb theme "light" then "dark" else "light".

Definition toggled (bp ip : path) (w : World) : World :=
  let w1 := applied bp ip (Upd.with_currentTheme (flipped (currentTheme (this w))) w) in
  let w2 :=
    Upd.with_document
      (Dom.update_at (Dom.setStyle "transition" "background-color 0.3s ease, color 0.3s ease") bp)
      w1 in
  let n := next_timer (browser w2) in
  Upd.with_timers (λ l, (l ++ [mkTimer n 300 CbClearTransition])%list) (S n) w2.

(** The system preference as [loadTheme] reads it. *)
Definition prefers_dark (w : World) : bool :=
  match matchMedia (env (browser w)) with
  | Some mm => mm Site.DARK_QUERY
  | None => false
  end.

(** The tab button and the tab panel [switchTab] would pick for a name. *)
Definition tab_button (tabName : string) (w : World) : option path :=
  Dom.find_first (Dom.hasAttr "data-tab" tabName) (doc w).

Definition tab_panel (tabName : string) (w : World) : option path :=
  if String.eqb tabName "" then None else Dom.find_first (Dom.hasId tabName) (doc w).

(** The document after the two clearing loops that open [switchTab]. *)
Definition cleared (w : World) : World :=
  Upd.with_document (Dom.forEach_matching (Dom.contains "tab-panel") (Dom.classRemove "active"))
    (Upd.with_document
       (Dom.forEach_matching (Dom.contains "tab-button") (Dom.classRemove "active")) w).

Definition is_tab (e : Element) : bool :=
  Dom.contains "tab-button" e || Dom.contains "tab-panel" e.

Definition active_at (p : path) (w : World) : bool :=
  default false (Dom.contains "active" <$> Dom.element_at p (doc w)).

(** The heading and the answer [toggleFAQItem] finds below an item, and what
    it keeps in step on them. *)
Definition question_ref (item : path) (w : World) : option path :=
  Dom.below (Dom.hasTag "h4") item (doc w).

Definition answer_ref (item : path) (w : World) : option path :=
  Dom.below (Dom.contains "faq-answer") item (doc w).

Definition aria_expanded (item : path) (w : World) : option string :=
  q ← question_ref item w; e ← Dom.element_at q (doc w); Dom.getAttribute "aria-expanded" e.

Definition max_height (item : path) (w : World) : option string :=
  a ← answer_ref item w; e ← Dom.element_at a (doc w); style e !! "maxHeight".

Definition update_opt (f : Element → Element) (r : option path) (d : Node) : Node :=
  match r with
  | Some p => Dom.update_at f p d
  | None => d
  end.

(** The world [toggleFAQItem] leaves. *)
Definition faq_toggled (item : path) (w : World) : World :=
  let q := question_ref item w in
  let a := answer_ref item w in
  if active_at item w then
    Upd.with_document (update_opt (Dom.setStyle "maxHeight" "0") a)
      (Upd.with_document (update_opt (Dom.setAttribute "aria-expanded" "false") q)
         (Upd.with_document (Dom.update_at (Dom.classRemove "active") item) w))
  else
    Upd.with_document
      (update_opt (λ e, Dom.setStyle "maxHeight" (pretty (scrollHeight e) ++ "px") e) a)
      (Upd.with_document (update_opt (Dom.setAttribute "aria-expanded" "true") q)
         (Upd.with_document (Dom.update_at (Dom.classAdd "active") item) w)).

(** The aria-expanded value that says what the active class says. *)
Definition aria_of (active : bool) : string := if active then "true" else "false".

(** Element updates that change neither the tag nor the faq-answer class. *)
Definition keeps_faq (f : Element → Element) : Prop :=
  ∀ e, tagName (f e) = tagName e ∧
       Dom.contains "faq-answer" (f e) = Dom.contains "faq-answer" e.

(** The world the low-battery branch of [optimizeForBattery] leaves. *)
Definition drained (bp hp : path) (w : World) : World :=
  Upd.with_document
    (Dom.appendChild (Site.styleElement "battery-optimization" Site.BATTERY_CSS) hp)
    (Upd.with_document (Dom.update_at (Dom.classAdd "low-battery") bp) w).

(** The theme settings: the storage, the in-memory theme, and the platform
    answers.  A computation keeps them when it leaves them as it found them,
    however it completes. *)
Definition settings (w : World) : gmap string string * string * Env :=
  (localStorage (browser w), currentTheme (this w), env (browser w)).

Definition keeps_settings {A} (m : JS A) : Prop :=
  ∀ w, settings (m w).2 = settings w.

(** A world with one more style block appended to the head at [[h]]. *)
Definition with_block (i css : string) (h : nat) (w : World) : World :=
  Upd.with_document (Dom.appendChild (Site.styleElement i css) [h]) w.

(** Number of elements satisfying [P] in a list of subtrees. *)
Definition count_in (P : Element → bool) (ks : list Node) : nat :=
  length (List.filter P (concat (List.map Dom.elements ks))).

(** Number of elements carrying an id, anywhere in the document. *)
Definition blocks (i : string) (w : World) : nat := Dom.count (Dom.hasId i) (doc w).

(** Running a sequence of triggers one after the other. *)
Definition repeat_js (n : nat) (m : JS unit) : JS unit :=
  Nat.iter n (λ k, m;; k) (mret tt).

(** ** Sample inputs *)

Module Sample.

Definition elem (tag : string) (attrs : list (string * string)) (cls : list string)
           (h : Z) : Element :=
  mkElement tag (list_to_map attrs) cls ∅ "" h.

(** A page with the toggle and its icon, two tabs, and one FAQ entry. *)
Definition content (icon : list Node) : list Node :=
  [ El (elem "button" [("id", "themeToggle")] ["theme-toggle"] 0) icon;
    El (elem "button" [("data-tab", "general")] ["tab-button"; "active"] 0) [];
    El (elem "button" [("data-tab", "faq")] ["tab-button"] 0) [];
    El (elem "section" [("id", "general")] ["tab-panel"; "active"] 0) [];
    El (elem "section" [("id", "faq")] ["tab-panel"] 0)
       [ El (elem "div" [] ["faq-item"] 0)
            [ El (elem "h4" [] [] 0) [];
              El (elem "div" [] ["faq-answer"] 120) [] ] ] ].

Definition icon : Node := El (elem "i" [("id", "themeIcon")] ["fas"; "fa-moon"] 0) [].

Definition page : Node :=
  El (elem "html" [] [] 0)
     [ El (elem "head" [] [] 0) []; El (elem "body" [] [] 0) (content [icon]) ].

(** The same page with the icon left out of the markup. *)
Definition page_without_icon : Node :=
  El (elem "html" [] [] 0)
     [ El (elem "head" [] [] 0) []; El (elem "body" [] [] 0) (content []) ].

Definition faq_item : path := [1; 4; 0]%nat.
Definition general_button : path := [1; 1]%nat.
Definition general_panel : path := [1; 3]%nat.

(** A desktop browser, light system scheme, battery low and discharging. *)
Definition desktop : Env :=
  mkEnv "Mozilla/5.0 (X11; Linux x86_64) Chrome/120.0 Safari/537.36" "Linux x86_64"
        0 false false None (Some (mkBattery (1 # 10) false)) 1 1280 800 1280 800
        (Some 0) (Some (λ q, false)) true None (Normal true).

(** A phone held so that its viewport is 412 by 915. *)
Definition phone : Env :=
  mkEnv "Mozilla/5.0 (Linux; Android 13; Pixel 7) Chrome/120.0 Mobile Safari/537.36"
        "Linux armv8l" 5 true true None None 3 412 915 412 915
        (Some 0) (Some (λ q, false)) true None (Normal true).

Definition fresh (d : Node) (store : gmap string string) (e : Env) : World :=
  mkWorld (mkSite "light" "general" emptyDeviceInfo emptyScreenInfo)
          (mkBrowser d store "" [] [] 0 None [] [] [] 0 e).

Definition w0 : World := fresh page ∅ desktop.
Definition w_no_icon : World := fresh page_without_icon ∅ desktop.
Definition w_blue : World := fresh page {[ "greenmax-theme" := "blue" ]} desktop.
Definition w_phone : World := fresh page ∅ phone.

End Sample.

(** ** The rest of the controller, and what is read off it *)

(** [scrollToElement(elementId)] *)
Definition scrollToElement (elementId : string) : JS unit :=
  element ← Api.getElementById elementId;
  match element with
  | Some p => Site.scrollIntoView p
  | None => mret tt
  end.

(** The four getters. *)
Definition getCurrentTheme : JS string := gets (λ w, currentTheme (this w)).
Definition getCurrentTab : JS string := gets (λ w, currentTab (this w)).
Definition getDeviceInfo : JS DeviceInfo := gets (λ w, deviceInfo (this w)).
Definition getScreenInfo : JS ScreenInfo := gets (λ w, screenInfo (this w)).

(** The world [switchTab] leaves when it finds the button at [b] and the
    panel at [p]. *)
Definition switched (tabName : string) (b p : path) (w : World) : World :=
  Upd.with_location_hash ("#" ++ tabName)
    (Upd.with_scrolled (cons p)
       (Upd.with_currentTab tabName
          (Upd.with_document (Dom.update_at (Dom.classAdd "active") p)
             (Upd.with_document (Dom.update_at (Dom.classAdd "active") b) (cleared w))))).

(** The fragment without its '#', and the tab [initializeActiveTab] goes to. *)
Definition fragment (w : World) : string := Str.substring1 (location_hash (browser w)).

Definition initial_tab (w : World) : string :=
  if Str.truthy (fragment w) && Site.includes Site.validTabs (fragment w)
  then fragment w else "general".

Module Scenario.

(** The sample page opened through a link to its FAQ tab. *)
Definition w_faq_link : World := Upd.with_location_hash "#faq" Sample.w0.

(** The sample page opened with a fragment that names no tab. *)
Definition w_bad_link : World := Upd.with_location_hash "#pricing" Sample.w0.

(** A page with two FAQ entries side by side. *)
Definition two_items : Node :=
  El (Sample.elem "html" [] [] 0)
     [ El (Sample.elem "head" [] [] 0) [];
       El (Sample.elem "body" [] [] 0)
          [ El (Sample.elem "div" [] ["faq-item"] 0)
               [ El (Sample.elem "h4" [] [] 0) [];
                 El (Sample.elem "div" [] ["faq-answer"] 80) [] ];
            El (Sample.elem "div" [] ["faq-item"; "active"] 0)
               [ El (Sample.elem "h4" [("aria-expanded", "true")] [] 0) [];
                 El (Sample.elem "div" [] ["faq-answer"] 60) [] ] ] ].

Definition w_two_items : World := Sample.fresh two_items ∅ Sample.desktop.
Definition first_item : path := [1; 0]%nat.
Definition second_item : path := [1; 1]%nat.

(** A bare page whose body carries stale responsive classes. *)
Definition classed : Node :=
  El (Sample.elem "html" [] [] 0)
     [ El (Sample.elem "head" [] [] 0) [];
       El (Sample.elem "body" [] ["device-mobile"; "page"; "screen-xs"; "touch-device"] 0) [] ].

Definition w_classed : World := Sample.fresh classed ∅ Sample.desktop.

(** The desktop once its battery is charged and on the mains. *)
Definition charged : Env :=
  mkEnv "Mozilla/5.0 (X11; Linux x86_64) Chrome/120.0 Safari/537.36" "Linux x86_64"
        0 false false None (Some (mkBattery (9 # 10) true)) 1 1280 800 1280 800
        (Some 0) (Some (λ q, false)) true None (Normal true).

(** The desktop and the phone after device detection. *)
Definition w_desktop_detected : World := (Site.detectDevice Sample.w0).2.
Definition w_phone_detected : World := (Site.detectDevice Sample.w_phone).2.

Definition faq_button : path := [1; 2]%nat.
Definition faq_panel : path := [1; 4]%nat.

(** A browser without [window.matchMedia]. *)
Definition old_browser : Env :=
  mkEnv "Mozilla/4.0 (compatible; MSIE 8.0; Windows NT 6.1)" "Win32"
        0 false false None None 1 1024 768 1024 768 None None false None (Normal true).

Definition w_old_browser : World := Sample.fresh Sample.page ∅ old_browser.

(** A browser whose [execCommand('copy')] throws. *)
Definition strict_env : Env :=
  mkEnv "Mozilla/5.0 (X11; Linux x86_64) Firefox/121.0" "Linux x86_64"
        0 false false None None 2 1280 800 1280 800 (Some 0) (Some (λ q, false)) false None
        (Throw (DOMException "NotAllowedError")).

Definition w_strict : World := Sample.fresh Sample.page ∅ strict_env.

(** A desktop whose system colour scheme is dark, and the sample page on it
    with the empty string under the theme key. *)
Definition dark_desktop : Env :=
  mkEnv "Mozilla/5.0 (X11; Linux x86_64) Chrome/120.0 Safari/537.36" "Linux x86_64"
        0 false false None (Some (mkBattery (1 # 10) false)) 1 1280 800 1280 800
        (Some 0) (Some (λ q, String.eqb q "(prefers-color-scheme: dark)")) true None
        (Normal true).

Definition w_empty_on_dark : World :=
  Sample.fresh Sample.page {[ "greenmax-theme" := "" ]} dark_desktop.

(** The sample page with one more tab button, 'pricing', that has no panel. *)
Definition page_with_orphan_button : Node :=
  El (Sample.elem "html" [] [] 0)
     [ El (Sample.elem "head" [] [] 0) [];
       El (Sample.elem "body" [] [] 0)
          (Sample.content [Sample.icon] ++
           [ El (Sample.elem "button" [("data-tab", "pricing")] ["tab-button"] 0) [] ]) ].

Definition w_orphan_button : World := Sample.fresh page_with_orphan_button ∅ Sample.desktop.
Definition orphan_button : path := [1; 5]%nat.

(** The sample page with 'dark' stored, and with the empty string stored. *)
Definition w_stored_dark : World :=
  Sample.fresh Sample.page {[ "greenmax-theme" := "dark" ]} Sample.desktop.

Definition w_stored_empty : World :=
  Sample.fresh Sample.page {[ "greenmax-theme" := "" ]} Sample.desktop.

End Scenario.

(** Number of flags that are set. *)
Definition count_true (l : list bool) : nat := length (List.filter id l).

(** The five breakpoint flags of a screen snapshot. *)
Definition breakpoints (sc : ScreenInfo) : list bool :=
  [isXSmall sc; isSmall sc; isMedium sc; isLarge sc; isXLarge sc].

(** The inline transition on the body, as [toggleTheme] sets and its timer
    clears it. *)
Definition body_transition (w : World) : option string :=
  Dom.getStyle "transition" <$> body_of w.

Definition THEME_TRANSITION : string := "background-color 0.3s ease, color 0.3s ease".

(** The pending re-detection a resize leaves, and the timers the resize
    listener leaves in the queue when it runs: all but the one whose id it
    remembers from its previous run, which may be pending still, or have
    fired and be gone from the queue, or never have been set. *)
Definition resize_timer (i : nat) : Timer := mkTimer i 150 CbRedetect.

Definition other_timers (w : World) : list Timer :=
  match resizeTimeout (browser w) with
  | Some r => List.filter (λ t, negb (Nat.eqb (t_id t) r)) (timers (browser w))
  | None => timers (browser w)
  end.

Definition no_event : Event := mkEvent [] "" false.

(** The sample page after one resize event, its re-detection still pending. *)
Definition w_resized : World := (Site.run CbResize no_event Sample.w0).2.

(** The CSS text [adjustLayoutForScreen] builds from the snapshots. *)
Definition layout_css (w : World) : string :=
  let d := deviceInfo (this w) in
  let sc := screenInfo (this w) in
  (if isMobile d then Site.MOBILE_CSS else "") ++
  (if isTablet d then Site.TABLET_CSS else "") ++
  (if isMobile d && isLandscape sc then Site.LANDSCAPE_CSS else "") ++
  (if Site.num_gt (pixelRatio d) 2 then Site.HIDPI_CSS else "").

(** The condition under which [optimizePerformance] injects its block. *)
Definition wants_less_motion (w : World) : bool :=
  let d := deviceInfo (this w) in
  Site.num_le (pixelRatio d) 1 ||
  match connection d with Some c => saveData c | None => false end ||
  match matchMedia (env (browser w)) with
  | Some mm => mm "(prefers-reduced-motion: reduce)"
  | None => false
  end.

(** The click listeners [optimizeTouchInteractions] adds for a document. *)
Definition haptic_listeners (d : Node) : list Listener :=
  List.map (λ p, mkListener (OnElement p) "click" CbVibrate) (Dom.select Site.haptic_target [] d).

(** A document [d0] without the block, or with one block of the id appended
    to its head: the two shapes an injector meets. *)
Definition block_slot (i : string) (h : nat) (d0 : Node) (d : Node) : Prop :=
  Dom.count (Dom.hasId i) d0 = 0%nat ∧ Api.child_with_tag "head" d0 = Some [h] ∧
  (d = d0 ∨ ∃ css, d = Dom.appendChild (Site.styleElement i css) [h] d0).

(** The hidden textarea of the clipboard fallback, and the number of
    textareas in a document. *)
Definition clipboard_textarea (text : string) : Node :=
  El (Util.TEXTAREA_STYLE (Dom.setTextContent text (Dom.createElement "textarea"))) [].

Definition textareas (w : World) : nat := Dom.count (Dom.hasTag "textarea") (doc w).

(** The clipboard API is not usable. *)
Definition fallback_only (w : World) : Prop :=
  clipboard (env (browser w)) = None ∨ isSecureContext (env (browser w)) = false.

(** Two references neither of which lies inside the other's subtree. *)
Definition apart (a b : path) : Prop := ¬ a `prefix_of` b ∧ ¬ b `prefix_of` a.

(** An attribute of the heading [setupFAQInteractivity] finds below an item. *)
Definition heading_attr (k : string) (item : path) (w : World) : option string :=
  q ← question_ref item w; e ← Dom.element_at q (doc w); Dom.getAttribute k e.

(** What the set-up loop does to a heading, and the listeners it registers
    for an item. *)
Definition as_button (e : Element) : Element :=
  Dom.setAttribute "aria-expanded" "false"
    (Dom.setAttribute "role" "button" (Dom.setAttribute "tabindex" "0" e)).

Definition faq_listeners (w : World) (item : path) : list Listener :=
  match question_ref item w with
  | Some q => [mkListener (OnElement q) "click" (CbFaqClick item);
               mkListener (OnElement q) "keydown" (CbFaqKeydown item)]
  | None => []
  end.

(** The heading of [item] carries [k] = [v] whenever the item has a heading. *)
Definition heading_set (k v : string) (item : path) (w : World) : Prop :=
  heading_attr k item w = (λ _, v) <$> question_ref item w.

Definition faq_items (w : World) : list path :=
  Dom.select (λ _, Dom.contains "faq-item") [] (doc w).

(** The body of the loop of [setupFAQInteractivity]. *)
Definition faq_setup_item (item : path) : JS unit :=
  question ← Site.querySelector_in item (Dom.hasTag "h4");
  match question with
  | Some q =>
      Api.addEventListener (OnElement q) "click" (CbFaqClick item);;
      Api.addEventListener (OnElement q) "keydown" (CbFaqKeydown item);;
      Api.mutate "question" question (Dom.setAttribute "tabindex" "0");;
      Api.mutate "question" question (Dom.setAttribute "role" "button");;
      Api.mutate "question" question (Dom.setAttribute "aria-expanded" "false")
  | None => mret tt
  end.

(** Total correctness of a computation: from a world satisfying [P] it
    completes normally, with a value and a world satisfying [Q]. *)
Definition total {A} (P : World → Prop) (m : JS A) (Q : A → World → Prop) : Prop :=
  ∀ w, P w → ∃ a w', m w = (Normal a, w') ∧ Q a w'.

(** The three blocks [optimizeInterface] injects. *)
Definition BLOCK_IDS : list string :=
  ["touch-optimization"; "performance-optimization"; "layout-optimization"].

(** A page the script can start on: the body at [bp], the head at [[h]],
    the theme icon (if any) at [io], and no element using any of the ids in
    [free]. *)
Definition ready (bp : path) (h : nat) (io : option path) (free : list string)
           (w : World) : Prop :=
  body_ref w = Some bp ∧ head_ref w = Some [h] ∧ icon_ref w = io ∧
  Forall (λ i, blocks i w = 0%nat) free.

(** The classes of the body, and the four [optimizeInterface] derives from
    the detected device and screen. *)
Definition body_classes (w : World) : option (list string) := classList <$> body_of w.

Definition device_class (d : DeviceInfo) : string :=
  if isMobile d then "device-mobile"
  else if isTablet d then "device-tablet" else "device-desktop".

Definition touch_class (d : DeviceInfo) : string :=
  if hasTouch d then "touch-device" else "no-touch".

Definition orientation_class (sc : ScreenInfo) : string :=
  if isPortrait sc then "orientation-portrait" else "orientation-landscape".

Definition size_class (sc : ScreenInfo) : string :=
  if isXSmall sc then "screen-xs"
  else if isSmall sc then "screen-sm"
  else if isMedium sc then "screen-md"
  else if isLarge sc then "screen-lg" else "screen-xl".

Definition responsive_classes (t : GreenMaxWebsite) : list string :=
  [device_class (deviceInfo t); touch_class (deviceInfo t);
   orientation_class (screenInfo t); size_class (screenInfo t)].

(** The class names [optimizeInterface] removes before it adds its own. *)
Definition managed (c : string) : bool :=
  Site.includes (Site.DEVICE_CLASSES ++ Site.SIZE_CLASSES)%list c.

(** [classList.add] and [classList.remove] on the list of classes. *)
Definition class_add (c : string) (l : list string) : list string :=
  if existsb (String.eqb c) l then l else (l ++ [c])%list.

Definition class_remove_all (cs l : list string) : list string :=
  fold_left (λ l c, List.filter (λ x, negb (String.eqb c x)) l) cs l.

Definition final_classes (t : GreenMaxWebsite) (cs : list string) : list string :=
  class_add (size_class (screenInfo t))
    (class_remove_all Site.SIZE_CLASSES
       (class_add (orientation_class (screenInfo t))
          (class_add (touch_class (deviceInfo t))
             (class_add (device_class (deviceInfo t))
                (class_remove_all Site.DEVICE_CLASSES cs))))).

(** A ready page whose controller attributes are [t] and whose body
    carries the classes [cs]. *)
Definition kept (bp : path) (h : nat) (io : option path) (t : GreenMaxWebsite)
           (cs free : list string) (w : World) : Prop :=
  ready bp h io free w ∧ this w = t ∧ body_classes w = Some cs.

(** The block the low-battery branch appends, and a page on which the
    first element with its id is such a block, the child [k0] of the head. *)
Definition BATTERY_BLOCK : Node :=
  Site.styleElement "battery-optimization" Site.BATTERY_CSS.

Definition first_block (bp : path) (h k0 : nat) (w : World) : Prop :=
  body_ref w = Some bp ∧ head_ref w = Some [h] ∧
  Dom.find_first (Dom.hasId "battery-optimization") (doc w) = Some [h; k0] ∧
  Dom.get_at [h; k0] (doc w) = Some BATTERY_BLOCK.

(** ** Facts about the DOM operations *)

Section DomFacts.

Lemma Node_ind' (P : Node → Prop) :
  (∀ e ks, Forall P ks → P (El e ks)) → ∀ n, P n.
Proof.
  intros step. fix IH 1. intros [e ks]. apply step.
  induction ks as [|k ks IHks]; constructor; [apply IH | exact IHks].
Qed.

Lemma first_in_ext {A} (g h : A → option path) l i :
  Forall (λ x, g x = h x) l → Dom.first_in g i l = Dom.first_in h i l.
Proof.
  intros H. revert i. induction H as [|x l Hx _ IH]; intros i; simpl; [done|].
  rewrite Hx. destruct (h x); [done | apply IH].
Qed.

Lemma first_in_map {A B} (g : B → option path) (h : A → B) l i :
  Dom.first_in g i (List.map h l) = Dom.first_in (λ x, g (h x)) i l.
Proof.
  revert i. induction l as [|x l IH]; intros i; simpl; [done|].
  destruct (g (h x)); [done | apply IH].
Qed.

Lemma first_in_alter {A} (g : A → option path) (h : A → A) j l i :
  (∀ x, l !! j = Some x → g (h x) = g x) →
  Dom.first_in g i (alter h j l) = Dom.first_in g i l.
Proof.
  revert i j. induction l as [|x l IH]; intros i j H; [done|].
  destruct j as [|j]; simpl.
  - rewrite (H x eq_refl). done.
  - destruct (g x); [done|]. apply IH. intros y Hy. apply H. exact Hy.
Qed.

Lemma find_first_forEach P Q f n :
  (∀ e, P (f e) = P e) →
  Dom.find_first P (Dom.forEach_matching Q f n) = Dom.find_first P n.
Proof.
  intros HP. induction n as [e ks IH] using Node_ind'. simpl.
  replace (P (if Q e then f e else e)) with (P e) by (destruct (Q e); by rewrite ?HP).
  destruct (P e); [done|].
  rewrite first_in_map. apply first_in_ext. exact IH.
Qed.

Lemma find_first_update_at P f p n :
  (∀ e, P (f e) = P e) →
  Dom.find_first P (Dom.update_at f p n) = Dom.find_first P n.
Proof.
  intros HP. revert n. induction p as [|i p IH]; intros [e ks]; simpl.
  - by rewrite HP.
  - destruct (P e); [done|]. apply first_in_alter. intros x _. apply IH.
Qed.

Lemma elements_forEach Q f n :
  Dom.elements (Dom.forEach_matching Q f n) =
  List.map (λ e, if Q e then f e else e) (Dom.elements n).
Proof.
  induction n as [e ks IH] using Node_ind'. simpl. f_equal.
  rewrite concat_map, !List.map_map. f_equal.
  induction IH as [|k ks Hk _ IHks]; simpl; [done|]. by rewrite Hk, IHks.
Qed.

Lemma node_element_update_at f p n :
  node_element (Dom.update_at f p n) =
  match p with [] => f (node_element n) | _ => node_element n end.
Proof. by destruct p. Qed.

Lemma element_at_update_at f p q n :
  Dom.element_at q (Dom.update_at f p n) =
  (if decide (q = p) then f else id) <$> Dom.element_at q n.
Proof.
  unfold Dom.element_at. revert p n.
  induction q as [|j q IH]; intros p n.
  - destruct p; simpl; [done|]. by destruct n.
  - destruct p as [|i p]; simpl.
    + destruct (node_kids n !! j); simpl; [|done].
      by destruct (Dom.get_at q n0); simpl.
    + destruct (decide (j = i)) as [->|Hne].
      * rewrite list_lookup_alter_eq. destruct (node_kids n !! i) as [k|]; simpl; [|done].
        rewrite IH. destruct (decide (q = p)) as [->|Hqp].
        -- by rewrite !decide_True by done.
        -- rewrite !decide_False by congruence. done.
      * rewrite list_lookup_alter_ne by done.
        rewrite decide_False by congruence.
        destruct (node_kids n !! j); simpl; [|done].
        by destruct (Dom.get_at q n0).
Qed.

Lemma child_with_tag_update_at t f p n :
  (∀ e, tagName (f e) = tagName e) →
  Api.child_with_tag t (Dom.update_at f p n) = Api.child_with_tag t n.
Proof.
  intros Hf. unfold Api.child_with_tag. f_equal.
  destruct p as [|i p]; simpl; [done|].
  generalize (node_kids n). intros ks. revert i.
  induction ks as [|k ks IH]; intros i; [done|].
  destruct i as [|i]; simpl.
  - rewrite node_element_update_at.
    replace (Dom.hasTag t (match p with [] => f (node_element k) | _ => node_element k end))
      with (Dom.hasTag t (node_element k))
      by (destruct p; unfold Dom.hasTag; by rewrite ?Hf).
    done.
  - specialize (IH i). unfold alter in IH. by rewrite IH.
Qed.

End DomFacts.
Section Lookups.

Lemma first_in_Some {A} (g : A → option path) i l p :
  Dom.first_in g i l = Some p →
  ∃ j x q, p = (i + j)%nat :: q ∧ l !! j = Some x ∧ g x = Some q.
Proof.
  revert i. induction l as [|x l IH]; intros i; simpl; [done|].
  destruct (g x) as [q|] eqn:Hg.
  - intros [= <-]. exists 0%nat, x, q. by rewrite Nat.add_0_r.
  - intros H. destruct (IH _ H) as (j & y & q & -> & Hl & Hy).
    exists (S j), y, q. split_and!; [f_equal; lia | done | done].
Qed.

Lemma find_first_Some P n p :
  Dom.find_first P n = Some p →
  ∃ e, Dom.element_at p n = Some e ∧ P e = true.
Proof.
  revert p. induction n as [e ks IH] using Node_ind'. intros p. simpl.
  destruct (P e) eqn:HP.
  - intros [= <-]. by exists e.
  - intros H. apply first_in_Some in H as (j & k & q & -> & Hl & Hk).
    destruct (Forall_lookup_1 _ _ _ _ IH Hl q Hk) as (e' & He' & HPe').
    exists e'. split; [|done].
    unfold Dom.element_at in *. simpl. by rewrite Hl.
Qed.

Lemma index_where_Some {A} (P : A → bool) l i :
  Api.index_where P l = Some i → ∃ x, l !! i = Some x ∧ P x = true.
Proof.
  revert i. induction l as [|x l IH]; intros i; simpl; [done|].
  destruct (P x) eqn:HP.
  - intros [= <-]. by exists x.
  - destruct (Api.index_where P l) as [j|]; simpl; [|done].
    intros [= <-]. by apply IH.
Qed.

Lemma child_with_tag_Some t n p :
  Api.child_with_tag t n = Some p →
  ∃ e, Dom.element_at p n = Some e ∧ Dom.hasTag t e = true.
Proof.
  unfold Api.child_with_tag.
  destruct (Api.index_where _ _) as [i|] eqn:Hi; simpl; [|done].
  intros [= <-]. apply index_where_Some in Hi as (k & Hk & Ht).
  exists (node_element k). unfold Dom.element_at. simpl. by rewrite Hk.
Qed.

End Lookups.

(** ** The theme controller *)

Section ThemeFacts.

Lemma keeps_identity_hasId f i e : keeps_identity f → Dom.hasId i (f e) = Dom.hasId i e.
Proof. intros H. unfold Dom.hasId. by rewrite (proj2 (H e)). Qed.

Lemma mark_body_identity theme : keeps_identity (mark_body theme).
Proof.
  intros e. unfold mark_body. destruct (String.eqb theme "dark"); simpl; split; try done.
  - by rewrite lookup_insert_ne.
  - by rewrite lookup_delete_ne.
Qed.

Lemma mark_icon_identity theme : keeps_identity (mark_icon theme).
Proof. by intros e. Qed.

Lemma setStyle_identity k v : keeps_identity (Dom.setStyle k v).
Proof. by intros e. Qed.

Lemma body_ref_update f p w :
  keeps_identity f → body_ref (Upd.with_document (Dom.update_at f p) w) = body_ref w.
Proof. intros H. apply child_with_tag_update_at. intros e. apply H. Qed.

Lemma icon_ref_update f p w :
  keeps_identity f → icon_ref (Upd.with_document (Dom.update_at f p) w) = icon_ref w.
Proof.
  intros H. apply find_first_update_at. intros e. by apply keeps_identity_hasId.
Qed.

Lemma body_of_update f p w bp :
  keeps_identity f → body_ref w = Some bp →
  body_of (Upd.with_document (Dom.update_at f p) w) =
  (if decide (bp = p) then f else id) <$> body_of w.
Proof.
  intros H Hb. unfold body_of. rewrite body_ref_update, Hb by done. simpl.
  apply element_at_update_at.
Qed.

Lemma icon_of_update f p w ip :
  keeps_identity f → icon_ref w = Some ip →
  icon_of (Upd.with_document (Dom.update_at f p) w) =
  (if decide (ip = p) then f else id) <$> icon_of w.
Proof.
  intros H Hi. unfold icon_of. rewrite icon_ref_update, Hi by done. simpl.
  apply element_at_update_at.
Qed.

Lemma body_of_Some w bp : body_ref w = Some bp → ∃ e, body_of w = Some e.
Proof.
  intros H. unfold body_of. rewrite H. simpl.
  apply child_with_tag_Some in H as (e & He & _). eauto.
Qed.

Lemma icon_of_Some w ip : icon_ref w = Some ip → ∃ e, icon_of w = Some e.
Proof.
  intros H. unfold icon_of. rewrite H. simpl.
  apply find_first_Some in H as (e & He & _). eauto.
Qed.

Lemma applyTheme_run w bp ip :
  body_ref w = Some bp → icon_ref w = Some ip →
  Site.applyTheme w = (Normal tt, applied bp ip w).
Proof.
  unfold body_ref, icon_ref, doc. intros Hb Hi.
  unfold Site.applyTheme, applied, mark_body, mark_icon.
  unfold mbind, JS_bind, Api.document_body, Api.getElementById, gets. simpl.
  rewrite Hb, Hi.
  destruct (String.eqb (currentTheme (this w)) "dark"); reflexivity.
Qed.

Lemma applied_this bp ip w : this (applied bp ip w) = this w.
Proof. done. Qed.

Lemma applied_stored bp ip w :
  stored_theme (applied bp ip w) = Some (currentTheme (this w)).
Proof. unfold stored_theme, applied. simpl. apply lookup_insert_eq. Qed.

Lemma applied_body_ref bp ip w : body_ref (applied bp ip w) = body_ref w.
Proof.
  unfold applied.
  change (body_ref (Upd.with_localStorage ?g ?x)) with (body_ref x).
  rewrite !body_ref_update; auto using mark_body_identity, mark_icon_identity.
Qed.

Lemma applied_icon_ref bp ip w : icon_ref (applied bp ip w) = icon_ref w.
Proof.
  unfold applied.
  change (icon_ref (Upd.with_localStorage ?g ?x)) with (icon_ref x).
  rewrite !icon_ref_update; auto using mark_body_identity, mark_icon_identity.
Qed.

Lemma applied_data_theme bp ip w :
  body_ref w = Some bp → icon_ref w = Some ip →
  data_theme (applied bp ip w) = marker_for (currentTheme (this w)).
Proof.
  intros Hb Hi. unfold data_theme, applied.
  change (body_of (Upd.with_localStorage ?g ?x)) with (body_of x).
  rewrite (body_of_update _ _ _ bp), (body_of_update _ _ _ bp);
    auto using mark_body_identity, mark_icon_identity.
  2: { rewrite body_ref_update; [done | apply mark_body_identity]. }
  destruct (body_of_Some _ _ Hb) as [e ->].
  destruct (decide (bp = bp)); [|done]. simpl.
  replace (Dom.getAttribute "data-theme" _)
    with (Dom.getAttribute "data-theme" (mark_body (currentTheme (this w)) e))
    by (by destruct (decide (bp = ip))).
  unfold mark_body, marker_for, Dom.getAttribute.
  destruct (String.eqb (currentTheme (this w)) "dark"); simpl.
  - apply lookup_insert_eq.
  - apply lookup_delete_eq.
Qed.

Lemma applied_icon_class bp ip w :
  body_ref w = Some bp → icon_ref w = Some ip →
  icon_class (applied bp ip w) = Some (icon_for (currentTheme (this w))).
Proof.
  intros Hb Hi. unfold icon_class, applied.
  change (icon_of (Upd.with_localStorage ?g ?x)) with (icon_of x).
  rewrite (icon_of_update _ _ _ ip), (icon_of_update _ _ _ ip);
    auto using mark_body_identity, mark_icon_identity.
  2: { rewrite icon_ref_update; [done | apply mark_body_identity]. }
  destruct (icon_of_Some _ _ Hi) as [e ->].
  destruct (decide (ip = ip)); [|done]. simpl.
  unfold mark_icon, icon_for.
  by destruct (String.eqb (currentTheme (this w)) "dark").
Qed.

End ThemeFacts.

Section ThemeClaims.

Lemma loadTheme_unset w :
  stored_theme w = None →
  Site.loadTheme w =
  Site.applyTheme (if prefers_dark w then Upd.with_currentTheme "dark" w else w).
Proof.
  unfold stored_theme. intros Hs.
  unfold Site.loadTheme, mbind, JS_bind, Api.localStorage_getItem,
    Api.matchMedia_guarded, gets, prefers_dark. simpl.
  rewrite Hs. simpl.
  by destruct (matchMedia (env (browser w))) as [mm|]; [destruct (mm _)|].
Qed.

Lemma loadTheme_stored w s :
  stored_theme w = Some s → s ≠ "" →
  Site.loadTheme w = Site.applyTheme (Upd.with_currentTheme s w).
Proof.
  unfold stored_theme. intros Hs Hne.
  unfold Site.loadTheme, mbind, JS_bind, Api.localStorage_getItem, gets. simpl.
  rewrite Hs. simpl. unfold Str.truthy.
  by destruct (String.eqb_spec s "").
Qed.

(** C7.  At load time (the constructor has just set the theme to 'light')
    and with nothing stored under the theme key, [loadTheme] ends with the
    theme the system asks for, dark when the prefers-color-scheme query
    matches and light otherwise, and with that theme applied to the
    document. *)
Theorem loadTheme_follows_system_preference (w : World) (bp ip : path) :
  currentTheme (this w) = "light" →
  stored_theme w = None →
  body_ref w = Some bp → icon_ref w = Some ip →
  ∃ w', Site.loadTheme w = (Normal tt, w') ∧
        currentTheme (this w') = (if prefers_dark w then "dark" else "light") ∧
        theme_applied w'.
Proof.
  intros Hlight Hs Hb Hi. rewrite loadTheme_unset by done.
  set (w1 := if prefers_dark w then _ else _).
  assert (body_ref w1 = Some bp) as Hb1 by (subst w1; by destruct (prefers_dark w)).
  assert (icon_ref w1 = Some ip) as Hi1 by (subst w1; by destruct (prefers_dark w)).
  assert (currentTheme (this w1) = if prefers_dark w then "dark" else "light") as Ht
    by (subst w1; by destruct (prefers_dark w)).
  exists (applied bp ip w1). split; [by apply applyTheme_run|].
  split; [by rewrite applied_this|].
  split; rewrite applied_this.
  - by apply applied_data_theme.
  - by apply applied_icon_class.
Qed.

Lemma loadTheme_follows_system_preference_witness :
  ∃ w', Site.loadTheme Sample.w0 = (Normal tt, w') ∧
        currentTheme (this w') = "light" ∧ theme_applied w'.
Proof.
  apply (loadTheme_follows_system_preference Sample.w0 [1%nat] [1%nat; 0%nat; 0%nat]);
    reflexivity.
Defined.

(** C10 (amended).  [applyTheme] renders every theme value other than
    'dark' as the light theme (no data-theme attribute, moon icon) and
    stores the value as it is; so a stored string that is not empty and is
    neither 'light' nor 'dark' loads as the light theme and is written back
    unchanged. *)
Theorem applyTheme_non_dark_is_light (w : World) (bp ip : path) (s : string) :
  body_ref w = Some bp → icon_ref w = Some ip →
  (currentTheme (this w) ≠ "dark" →
   ∃ w', Site.applyTheme w = (Normal tt, w') ∧
         data_theme w' = None ∧
         icon_class w' = Some ["fas"; "fa-moon"] ∧
         stored_theme w' = Some (currentTheme (this w))) ∧
  (stored_theme w = Some s → s ≠ "" → s ≠ "light" → s ≠ "dark" →
   ∃ w', Site.loadTheme w = (Normal tt, w') ∧
         currentTheme (this w') = s ∧
         data_theme w' = None ∧
         icon_class w' = Some ["fas"; "fa-moon"] ∧
         stored_theme w' = Some s).
Proof.
  intros Hb Hi.
  assert (∀ v, body_ref v = Some bp → icon_ref v = Some ip →
               currentTheme (this v) ≠ "dark" →
               data_theme (applied bp ip v) = None ∧
               icon_class (applied bp ip v) = Some ["fas"; "fa-moon"]) as Hlight.
  { intros v Hvb Hvi Hnd.
    rewrite applied_data_theme, applied_icon_class by done.
    unfold marker_for, icon_for.
    by destruct (String.eqb_spec (currentTheme (this v)) "dark"). }
  split.
  - intros Hnd. exists (applied bp ip w).
    destruct (Hlight w Hb Hi Hnd) as [? ?].
    split_and!; [by apply applyTheme_run | done | done | apply applied_stored].
  - intros Hs Hne _ Hnd. rewrite (loadTheme_stored w s) by done.
    set (w1 := Upd.with_currentTheme s w).
    destruct (Hlight w1 Hb Hi Hnd) as [? ?].
    exists (applied bp ip w1).
    split_and!; [by apply applyTheme_run | done | done | done | apply applied_stored].
Qed.

Lemma applyTheme_non_dark_is_light_witness :
  (∃ w', Site.applyTheme Sample.w_blue = (Normal tt, w') ∧
         data_theme w' = None ∧
         icon_class w' = Some ["fas"; "fa-moon"] ∧
         stored_theme w' = Some "light") ∧
  (∃ w', Site.loadTheme Sample.w_blue = (Normal tt, w') ∧
         currentTheme (this w') = "blue" ∧
         data_theme w' = None ∧
         icon_class w' = Some ["fas"; "fa-moon"] ∧
         stored_theme w' = Some "blue").
Proof.
  destruct (applyTheme_non_dark_is_light Sample.w_blue [1%nat] [1%nat; 0%nat; 0%nat] "blue")
    as [H1 H2]; [reflexivity | reflexivity |].
  split; [apply H1 | apply H2]; (reflexivity || discriminate).
Defined.

(** C10 as stated fails for the empty string, which is a stored string that
    is neither 'light' nor 'dark': [loadTheme] reads it as no preference,
    so on a system whose colour scheme is dark the page loads dark (marker
    set, sun icon) and 'dark' is stored in its place. *)
Lemma loadTheme_empty_string_loads_dark :
  let w := Scenario.w_empty_on_dark in
  let w' := (Site.loadTheme w).2 in
  stored_theme w = Some "" ∧
  completes (Site.loadTheme w) = true ∧
  currentTheme (this w') = "dark" ∧
  data_theme w' = Some "dark" ∧
  icon_class w' = Some ["fas"; "fa-sun"] ∧
  stored_theme w' = Some "dark".
Proof. vm_compute. by repeat split. Qed.

End ThemeClaims.

Section ToggleFacts.

Lemma data_theme_setStyle k v p w bp :
  body_ref w = Some bp →
  data_theme (Upd.with_document (Dom.update_at (Dom.setStyle k v) p) w) = data_theme w.
Proof.
  intros Hb. unfold data_theme.
  rewrite (body_of_update _ _ _ bp) by auto using setStyle_identity.
  destruct (body_of w) as [e|]; [|done]. simpl. by destruct (decide (bp = p)).
Qed.

Lemma icon_class_setStyle k v p w ip :
  icon_ref w = Some ip →
  icon_class (Upd.with_document (Dom.update_at (Dom.setStyle k v) p) w) = icon_class w.
Proof.
  intros Hi. unfold icon_class.
  rewrite (icon_of_update _ _ _ ip) by auto using setStyle_identity.
  destruct (icon_of w) as [e|]; [|done]. simpl. by destruct (decide (ip = p)).
Qed.

Lemma toggleTheme_run w bp ip :
  body_ref w = Some bp → icon_ref w = Some ip →
  Site.toggleTheme w = (Normal tt, toggled bp ip w).
Proof.
  intros Hb Hi. unfold Site.toggleTheme.
  cbv [mbind JS_bind gets modify].
  set (w0 := Upd.with_currentTheme _ w).
  rewrite (applyTheme_run w0 bp ip) by done.
  pose proof (applied_body_ref bp ip w0) as Hb'.
  cbv [Api.document_body gets].
  change (Api.child_with_tag "body" (document (browser (applied bp ip w0))))
    with (body_ref (applied bp ip w0)).
  rewrite Hb'. change (body_ref w0) with (body_ref w). rewrite Hb.
  reflexivity.
Qed.

Lemma toggled_facts w bp ip :
  body_ref w = Some bp → icon_ref w = Some ip →
  currentTheme (this (toggled bp ip w)) = flipped (currentTheme (this w)) ∧
  body_ref (toggled bp ip w) = Some bp ∧
  icon_ref (toggled bp ip w) = Some ip ∧
  theme_applied (toggled bp ip w) ∧
  stored_theme (toggled bp ip w) = Some (flipped (currentTheme (this w))).
Proof.
  intros Hb Hi. unfold toggled.
  set (w0 := Upd.with_currentTheme _ w).
  set (w1 := applied bp ip w0).
  assert (body_ref w1 = Some bp) as Hb1 by (subst w1; by rewrite applied_body_ref).
  assert (icon_ref w1 = Some ip) as Hi1 by (subst w1; by rewrite applied_icon_ref).
  cbv zeta.
  match goal with |- context [Upd.with_timers ?f ?n ?x] =>
    change (currentTheme (this (Upd.with_timers f n x))) with (currentTheme (this w0));
    change (body_ref (Upd.with_timers f n x)) with (body_ref x);
    change (icon_ref (Upd.with_timers f n x)) with (icon_ref x);
    change (theme_applied (Upd.with_timers f n x)) with
      (data_theme x = marker_for (currentTheme (this w0)) ∧
       icon_class x = Some (icon_for (currentTheme (this w0))));
    change (stored_theme (Upd.with_timers f n x)) with (stored_theme w1)
  end.
  rewrite body_ref_update, icon_ref_update by apply setStyle_identity.
  rewrite (data_theme_setStyle _ _ _ _ bp), (icon_class_setStyle _ _ _ _ ip) by done.
  split_and!; try done.
  - subst w1. by apply applied_data_theme.
  - subst w1. by apply applied_icon_class.
  - subst w1. by rewrite applied_stored.
Qed.

End ToggleFacts.

Section ToggleClaims.

Lemma flipped_twice theme :
  theme = "light" ∨ theme = "dark" → flipped (flipped theme) = theme.
Proof. by intros [-> | ->]. Qed.

(** C5 (amended).  From a theme of 'light' or 'dark', with the body and the
    theme icon in the document, toggling twice completes and returns the
    in-memory theme to its original value; the data-theme attribute is then
    present exactly when that theme is dark and the icon carries the class
    of that theme, which is the original marker state whenever the
    starting theme had been applied. *)
Theorem toggleTheme_twice (w : World) (bp ip : path) :
  currentTheme (this w) = "light" ∨ currentTheme (this w) = "dark" →
  body_ref w = Some bp → icon_ref w = Some ip →
  ∃ w2, (Site.toggleTheme;; Site.toggleTheme) w = (Normal tt, w2) ∧
        currentTheme (this w2) = currentTheme (this w) ∧
        data_theme w2 = marker_for (currentTheme (this w)) ∧
        icon_class w2 = Some (icon_for (currentTheme (this w))) ∧
        (theme_applied w → data_theme w2 = data_theme w ∧ icon_class w2 = icon_class w).
Proof.
  intros Ht Hb Hi.
  destruct (toggled_facts w bp ip Hb Hi) as (Ht1 & Hb1 & Hi1 & _ & _).
  destruct (toggled_facts _ bp ip Hb1 Hi1) as (Ht2 & _ & _ & [Hd2 Hc2] & _).
  rewrite Ht1, flipped_twice in Ht2 by done.
  exists (toggled bp ip (toggled bp ip w)).
  split.
  { cbv [mbind JS_bind]. rewrite (toggleTheme_run w bp ip) by done.
    by apply toggleTheme_run. }
  rewrite Ht2 in Hd2, Hc2.
  split_and!; try done.
  intros [Hd Hc]. by rewrite Hd, Hc.
Qed.

Lemma toggleTheme_twice_witness :
  ∃ w2, (Site.toggleTheme;; Site.toggleTheme) Sample.w0 = (Normal tt, w2) ∧
        currentTheme (this w2) = "light" ∧
        data_theme w2 = None ∧
        icon_class w2 = Some ["fas"; "fa-moon"] ∧
        (theme_applied Sample.w0 →
         data_theme w2 = data_theme Sample.w0 ∧ icon_class w2 = icon_class Sample.w0).
Proof.
  apply (toggleTheme_twice Sample.w0 [1%nat] [1%nat; 0%nat; 0%nat]);
    [left; reflexivity | reflexivity | reflexivity].
Defined.

(** C5 as stated fails on a start state the script itself reaches: with
    'blue' stored, [loadTheme] makes 'blue' the current theme (rendered
    light); two toggles then end on 'dark' with the marker set. *)
Lemma toggleTheme_twice_from_stored_blue :
  let w := (Site.loadTheme Sample.w_blue).2 in
  let w2 := ((Site.toggleTheme;; Site.toggleTheme) w).2 in
  completes (Site.loadTheme Sample.w_blue) = true ∧
  currentTheme (this w) = "blue" ∧
  data_theme w = None ∧
  icon_class w = Some ["fas"; "fa-moon"] ∧
  currentTheme (this w2) = "dark" ∧
  data_theme w2 = Some "dark" ∧
  icon_class w2 = Some ["fas"; "fa-sun"].
Proof. vm_compute. by repeat split. Qed.

(** C4 (loading is said not to write the stored key; it does).  Loading
    with nothing stored completes and leaves the theme key set to the theme
    it picked; from then on the system colour-scheme listener finds a stored
    value and changes nothing, whatever the user has or has not chosen. *)
Theorem loadTheme_writes_unset_preference (w : World) (bp ip : path) :
  currentTheme (this w) = "light" →
  stored_theme w = None →
  body_ref w = Some bp → icon_ref w = Some ip →
  ∃ w', Site.loadTheme w = (Normal tt, w') ∧
        stored_theme w' = Some (if prefers_dark w then "dark" else "light") ∧
        ∀ e, Site.onSchemeChange e w' = (Normal tt, w').
Proof.
  intros Hlight Hs Hb Hi. rewrite loadTheme_unset by done.
  set (w1 := if prefers_dark w then _ else _).
  assert (body_ref w1 = Some bp) as Hb1 by (subst w1; by destruct (prefers_dark w)).
  assert (icon_ref w1 = Some ip) as Hi1 by (subst w1; by destruct (prefers_dark w)).
  assert (currentTheme (this w1) = if prefers_dark w then "dark" else "light") as Ht
    by (subst w1; by destruct (prefers_dark w)).
  exists (applied bp ip w1).
  assert (stored_theme (applied bp ip w1) =
          Some (if prefers_dark w then "dark" else "light")) as Hst
    by (by rewrite applied_stored, Ht).
  split_and!; [by apply applyTheme_run | done |].
  intros e. unfold Site.onSchemeChange.
  cbv [mbind JS_bind Api.localStorage_getItem gets].
  change (localStorage (browser (applied bp ip w1)) !! Site.THEME_KEY)
    with (stored_theme (applied bp ip w1)).
  rewrite Hst. by destruct (prefers_dark w).
Qed.

Lemma loadTheme_writes_unset_preference_witness :
  ∃ w', Site.loadTheme Sample.w0 = (Normal tt, w') ∧
        stored_theme w' = Some "light" ∧
        ∀ e, Site.onSchemeChange e w' = (Normal tt, w').
Proof.
  apply (loadTheme_writes_unset_preference Sample.w0 [1%nat] [1%nat; 0%nat; 0%nat]);
    reflexivity.
Defined.

Lemma applyTheme_null_icon w :
  icon_ref w = None →
  completes (Site.applyTheme w) = false ∧
  stored_theme (Site.applyTheme w).2 = stored_theme w.
Proof.
  unfold icon_ref, doc. intros Hi. unfold Site.applyTheme.
  cbv [mbind JS_bind Api.document_body Api.getElementById gets]. simpl.
  rewrite Hi.
  destruct (Api.child_with_tag "body" (document (browser w))) as [bp|];
    by destruct (String.eqb (currentTheme (this w)) "dark").
Qed.

(** C2 (the lookup of the icon is not guarded).  In every state whose
    document has no element with id themeIcon, [applyTheme] ends in a
    TypeError before it reaches the storage write, and so do [loadTheme]
    and [toggleTheme], which call it. *)
Theorem theme_operations_raise_without_icon (w : World) :
  icon_ref w = None →
  completes (Site.applyTheme w) = false ∧
  completes (Site.loadTheme w) = false ∧
  completes (Site.toggleTheme w) = false ∧
  stored_theme (Site.applyTheme w).2 = stored_theme w.
Proof.
  intros Hi. destruct (applyTheme_null_icon w Hi) as [Ha Hst].
  split_and!; try done.
  - unfold Site.loadTheme.
    cbv [mbind JS_bind Api.localStorage_getItem Api.matchMedia_guarded gets when modify].
    destruct (Api.truthy_item _).
    + by apply applyTheme_null_icon.
    + destruct (matchMedia (env (browser w))) as [mm|]; [destruct (mm _)|];
        simpl; by apply applyTheme_null_icon.
  - unfold Site.toggleTheme. cbv [mbind JS_bind gets modify].
    set (w1 := Upd.with_currentTheme _ w).
    destruct (applyTheme_null_icon w1 Hi) as [Hc _].
    unfold completes in *. by destruct (Site.applyTheme w1) as [[|] ?].
Qed.

Lemma theme_operations_raise_without_icon_witness :
  completes (Site.applyTheme Sample.w_no_icon) = false ∧
  completes (Site.loadTheme Sample.w_no_icon) = false ∧
  completes (Site.toggleTheme Sample.w_no_icon) = false ∧
  stored_theme (Site.applyTheme Sample.w_no_icon).2 = stored_theme Sample.w_no_icon.
Proof. apply (theme_operations_raise_without_icon Sample.w_no_icon). reflexivity. Defined.

(** On the page without the icon the constructor stops inside [loadTheme]:
    no listener is registered, no tab is initialised, and the guarded
    lookup of the toggle button is never reached. *)
Example constructor_aborts_without_icon :
  let r := Site.constructor Sample.w_no_icon in
  r.1 = Throw (TypeError "themeIcon.className") ∧
  listeners (browser r.2) = [] ∧
  location_hash (browser r.2) = "" ∧
  stored_theme r.2 = None.
Proof. vm_compute. by repeat split. Qed.

End ToggleClaims.

(** ** Tabs *)

Section TabFacts.

Lemma contains_classRemove c a e :
  Dom.contains c (Dom.classRemove a e) = Dom.contains c e && negb (String.eqb a c).
Proof.
  unfold Dom.contains, Dom.classRemove. simpl.
  induction (classList e) as [|x l IH]; simpl; [done|].
  destruct (String.eqb_spec a x) as [->|Hax]; simpl.
  - rewrite IH. destruct (String.eqb_spec c x) as [->|Hcx]; simpl; [|done].
    rewrite String.eqb_refl. simpl. by rewrite andb_false_r.
  - rewrite IH. destruct (String.eqb_spec c x) as [->|Hcx]; simpl; [|done].
    destruct (String.eqb_spec a x); [done|]. simpl. done.
Qed.

Lemma contains_classAdd c a e :
  Dom.contains c (Dom.classAdd a e) = Dom.contains c e || String.eqb c a.
Proof.
  unfold Dom.classAdd. destruct (Dom.contains a e) eqn:Ha.
  - destruct (String.eqb_spec c a) as [->|]; [by rewrite Ha | by rewrite orb_false_r].
  - unfold Dom.contains. simpl. rewrite existsb_app. simpl. by rewrite orb_false_r.
Qed.

Lemma tab_lookups_cleared tabName w :
  tab_button tabName (cleared w) = tab_button tabName w ∧
  tab_panel tabName (cleared w) = tab_panel tabName w.
Proof.
  unfold tab_button, tab_panel, cleared, doc. simpl.
  rewrite !find_first_forEach by done. done.
Qed.

Lemma cleared_no_active w :
  Forall (λ e, is_tab e = true → Dom.contains "active" e = false) (Dom.elements (doc (cleared w))).
Proof.
  unfold cleared, doc. simpl. rewrite !elements_forEach, List.map_map.
  apply Forall_forall. intros e' Hin.
  apply list_elem_of_In, in_map_iff in Hin as (e & <- & _).
  assert (∀ x, Dom.contains "active" (Dom.classRemove "active" x) = false) as Hoff
    by (intros x; rewrite contains_classRemove; apply andb_false_r).
  assert (∀ c x, c ≠ "active" →
                 Dom.contains c (Dom.classRemove "active" x) = Dom.contains c x) as Hkeep.
  { intros c x Hc. rewrite contains_classRemove.
    destruct (String.eqb_spec "active" c); [congruence | apply andb_true_r]. }
  unfold is_tab.
  destruct (Dom.contains "tab-button" e) eqn:Hb.
  - rewrite (Hkeep "tab-panel") by done.
    destruct (Dom.contains "tab-panel" e) eqn:Hp; intros _; by rewrite ?Hoff.
  - destruct (Dom.contains "tab-panel" e) eqn:Hp.
    + intros _. apply Hoff.
    + by rewrite Hb, Hp.
Qed.

(** C1 (the selection is cleared before the name is looked up).  For a
    name the selector template carries verbatim and for which the document
    has no tab button or no tab panel, [switchTab] completes without
    raising and leaves the current-tab value and the URL fragment as they
    were, but it leaves no tab button and no tab panel marked active: the
    clearing loops have already run when the lookups fail, so the
    current-tab value and the fragment name a tab that is no longer
    shown. *)
Theorem switchTab_unmatched (w : World) (tabName : string) :
  Site.selector_safe tabName = true →
  tab_button tabName w = None ∨ tab_panel tabName w = None →
  Site.switchTab tabName w = (Normal tt, cleared w) ∧
  currentTab (this (cleared w)) = currentTab (this w) ∧
  location_hash (browser (cleared w)) = location_hash (browser w) ∧
  Forall (λ e, is_tab e = true → Dom.contains "active" e = false)
         (Dom.elements (doc (cleared w))).
Proof.
  intros _ Hnone.
  split_and!; [| done | done | apply cleared_no_active].
  destruct (tab_lookups_cleared tabName w) as [Hb Hp].
  unfold Site.switchTab.
  cbv [mbind JS_bind Api.forEach Api.querySelector_attr Api.getElementById gets modify].
  change (Upd.with_document _ (Upd.with_document _ w)) with (cleared w).
  change (Dom.find_first (Dom.hasAttr "data-tab" tabName) (document (browser (cleared w))))
    with (tab_button tabName (cleared w)).
  change (if String.eqb tabName "" then None
          else Dom.find_first (Dom.hasId tabName) (document (browser (cleared w))))
    with (tab_panel tabName (cleared w)).
  rewrite Hb, Hp.
  destruct Hnone as [-> | ->]; [done | by destruct (tab_button tabName w)].
Qed.

Lemma switchTab_unmatched_witness :
  Site.switchTab "unknown" Sample.w0 = (Normal tt, cleared Sample.w0) ∧
  currentTab (this (cleared Sample.w0)) = currentTab (this Sample.w0) ∧
  location_hash (browser (cleared Sample.w0)) = location_hash (browser Sample.w0) ∧
  Forall (λ e, is_tab e = true → Dom.contains "active" e = false)
         (Dom.elements (doc (cleared Sample.w0))).
Proof.
  apply (switchTab_unmatched Sample.w0 "unknown"); [reflexivity | left; reflexivity].
Defined.

(** C1 as stated fails: after the constructor has selected 'general',
    [switchTab('unknown')] finds neither a button nor a panel, yet the
    'general' button and panel are no longer marked active. *)
Lemma switchTab_unknown_clears_selection :
  let w := (Site.constructor Sample.w0).2 in
  let w' := (Site.switchTab "unknown" w).2 in
  completes (Site.constructor Sample.w0) = true ∧
  tab_button "unknown" w = None ∧ tab_panel "unknown" w = None ∧
  active_at Sample.general_button w = true ∧ active_at Sample.general_panel w = true ∧
  completes (Site.switchTab "unknown" w) = true ∧
  active_at Sample.general_button w' = false ∧ active_at Sample.general_panel w' = false ∧
  currentTab (this w') = "general" ∧ location_hash (browser w') = "#general".
Proof. vm_compute. by repeat split. Qed.

(** The same from the page itself: a click on a tab button whose panel is
    missing from the markup blanks the selection, while the controller
    still reports 'general' and the fragment still says so. *)
Example tab_click_without_panel_blanks_selection :
  let w := (Site.constructor Scenario.w_orphan_button).2 in
  let click := mkEvent Scenario.orphan_button "" false in
  let w' := (Site.run CbTabClick click w).2 in
  completes (Site.constructor Scenario.w_orphan_button) = true ∧
  active_at Sample.general_button w = true ∧ active_at Sample.general_panel w = true ∧
  completes (Site.run CbTabClick click w) = true ∧
  active_at Sample.general_button w' = false ∧ active_at Sample.general_panel w' = false ∧
  active_at Scenario.orphan_button w' = false ∧
  currentTab (this w') = "general" ∧ location_hash (browser w') = "#general".
Proof. vm_compute. by repeat split. Qed.

End TabFacts.

(** ** The FAQ accordion *)

Section FaqFacts.

Lemma toggleFAQItem_run item w :
  Site.toggleFAQItem item w = (Normal tt, faq_toggled item w).
Proof.
  unfold Site.toggleFAQItem, faq_toggled.
  cbv [mbind JS_bind Api.read Site.querySelector_in gets].
  change (default false (Dom.contains "active" <$> Dom.element_at item (document (browser w))))
    with (active_at item w).
  change (Dom.below (Dom.hasTag "h4") item (document (browser w)))
    with (question_ref item w).
  change (Dom.below (Dom.contains "faq-answer") item (document (browser w)))
    with (answer_ref item w).
  destruct (active_at item w), (question_ref item w), (answer_ref item w); reflexivity.
Qed.

Lemma get_at_app p q n :
  Dom.get_at (p ++ q)%list n = Dom.get_at p n ≫= Dom.get_at q.
Proof.
  revert n. induction p as [|i p IH]; intros n; simpl; [done|].
  destruct (node_kids n !! i); simpl; [apply IH | done].
Qed.

Lemma below_cons P j item d :
  Dom.below P (j :: item) d =
  match node_kids d !! j with
  | Some k => cons j <$> Dom.below P item k
  | None => None
  end.
Proof.
  unfold Dom.below. simpl. destruct (node_kids d !! j) as [k|]; [|done].
  destruct (Dom.get_at item k) as [n|]; [|done]. by destruct (Dom.find_below P n).
Qed.

Lemma below_update_at P f p item d :
  (∀ e, P (f e) = P e) →
  Dom.below P item (Dom.update_at f p d) = Dom.below P item d.
Proof.
  intros HP. revert p d. induction item as [|j item IH]; intros p d.
  - unfold Dom.below, Dom.find_below. simpl.
    destruct p as [|i p]; simpl; [done|].
    rewrite first_in_alter; [done|]. intros x _. by apply find_first_update_at.
  - rewrite !below_cons. destruct p as [|i p]; simpl; [done|].
    destruct (decide (j = i)) as [->|Hne].
    + rewrite list_lookup_alter_eq. destruct (node_kids d !! i); simpl; [|done].
      by rewrite IH.
    + by rewrite list_lookup_alter_ne.
Qed.

Lemma below_Some P item d q :
  Dom.below P item d = Some q →
  q ≠ item ∧ ∃ e, Dom.element_at q d = Some e ∧ P e = true.
Proof.
  unfold Dom.below. destruct (Dom.get_at item d) as [n|] eqn:Hn; [|done].
  destruct (Dom.find_below P n) as [rel|] eqn:Hrel; [|done]. intros [= <-].
  unfold Dom.find_below in Hrel.
  apply first_in_Some in Hrel as (j & k & r & -> & Hk & Hr).
  apply find_first_Some in Hr as (e & He & HPe).
  split.
  - intros Heq. rewrite <- (app_nil_r item) in Heq at 2.
    by apply app_inv_head in Heq.
  - exists e. split; [|done]. unfold Dom.element_at in *.
    rewrite get_at_app, Hn. simpl. by rewrite Hk.
Qed.

Lemma element_at_update_opt f r q d :
  Dom.element_at q (update_opt f r d) =
  (if decide (r = Some q) then f else id) <$> Dom.element_at q d.
Proof.
  destruct r as [p|]; simpl.
  - rewrite element_at_update_at. destruct (decide (q = p)) as [->|Hne].
    + by rewrite decide_True.
    + by rewrite decide_False by congruence.
  - by destruct (Dom.element_at q d).
Qed.

Lemma below_update_opt P f r item d :
  (∀ e, P (f e) = P e) →
  Dom.below P item (update_opt f r d) = Dom.below P item d.
Proof. intros HP. destruct r; simpl; [by apply below_update_at | done]. Qed.

Lemma keeps_faq_classAdd : keeps_faq (Dom.classAdd "active").
Proof.
  intros e. split; [unfold Dom.classAdd; by destruct (Dom.contains _ e)|].
  rewrite contains_classAdd. apply orb_false_r.
Qed.

Lemma keeps_faq_classRemove : keeps_faq (Dom.classRemove "active").
Proof. intros e. split; [done|]. rewrite contains_classRemove. apply andb_true_r. Qed.

Lemma keeps_faq_tag f t e : keeps_faq f → Dom.hasTag t (f e) = Dom.hasTag t e.
Proof. intros H. unfold Dom.hasTag. by rewrite (proj1 (H e)). Qed.

Lemma keeps_faq_answer f e :
  keeps_faq f → Dom.contains "faq-answer" (f e) = Dom.contains "faq-answer" e.
Proof. intros H. apply H. Qed.

(** The three updates of either branch of [toggleFAQItem], seen from the
    item, its heading and its answer. *)
Lemma faq_updates_view (fi fa : Element → Element) (v : string) w item e0 :
  keeps_faq fi → keeps_faq fa →
  (∀ e, attributes (fa e) = attributes e) →
  Dom.element_at item (doc w) = Some e0 →
  let q := question_ref item w in
  let a := answer_ref item w in
  let w' :=
    Upd.with_document (update_opt fa a)
      (Upd.with_document (update_opt (Dom.setAttribute "aria-expanded" v) q)
         (Upd.with_document (Dom.update_at fi item) w)) in
  question_ref item w' = q ∧ answer_ref item w' = a ∧
  active_at item w' = Dom.contains "active" (fi e0) ∧
  aria_expanded item w' = (λ _, v) <$> q ∧
  (∀ m, (∀ e, style (fa e) !! "maxHeight" = Some m) → max_height item w' = (λ _, m) <$> a).
Proof.
  intros Hfi Hfa Hattr He0 q a w'.
  assert (question_ref item w' = q) as Hq.
  { unfold question_ref, w', doc. simpl.
    rewrite !below_update_opt, below_update_at; try done;
      intros e; by apply keeps_faq_tag. }
  assert (answer_ref item w' = a) as Ha.
  { unfold answer_ref, w', doc. simpl.
    rewrite !below_update_opt, below_update_at; try done;
      intros e; by apply keeps_faq_answer. }
  split_and!; try done.
  - unfold active_at, w', doc. simpl.
    rewrite !element_at_update_opt, element_at_update_at.
    fold (doc w). rewrite He0. rewrite (decide_True (P := item = item)) by done. simpl.
    destruct (decide (q = Some item)) as [Hqi|_].
    { by apply below_Some in Hqi as [? _]. }
    destruct (decide (a = Some item)) as [Hai|_].
    { by apply below_Some in Hai as [? _]. }
    done.
  - unfold aria_expanded. rewrite Hq.
    destruct (question_ref item w) as [qp|] eqn:Hqp; subst q; [|done]. simpl.
    destruct (below_Some _ _ _ _ Hqp) as (Hne & e & He & _).
    unfold w', doc. simpl.
    repeat first [rewrite element_at_update_opt | rewrite element_at_update_at].
    unfold doc in He. rewrite He. simpl.
    rewrite (decide_False (P := qp = item)) by done.
    rewrite (decide_True (P := qp = qp)) by done.
    simpl. unfold Dom.getAttribute.
    destruct (decide (a = Some qp)); simpl; rewrite ?Hattr; simpl; apply lookup_insert_eq.
  - intros m Hm. unfold max_height. rewrite Ha.
    destruct (answer_ref item w) as [ap|] eqn:Hap; subst a; [|done]. simpl.
    destruct (below_Some _ _ _ _ Hap) as (Hne & e & He & _).
    unfold w', doc. simpl.
    repeat first [rewrite element_at_update_opt | rewrite element_at_update_at].
    unfold doc in He. rewrite He. simpl.
    rewrite (decide_True (P := ap = ap)) by done. simpl. apply Hm.
Qed.

(** One toggle, from any state of an item that is in the document. *)
Lemma faq_toggled_view w item :
  is_Some (Dom.element_at item (doc w)) →
  let w' := faq_toggled item w in
  is_Some (Dom.element_at item (doc w')) ∧
  question_ref item w' = question_ref item w ∧
  answer_ref item w' = answer_ref item w ∧
  active_at item w' = negb (active_at item w) ∧
  aria_expanded item w' = (λ _, aria_of (active_at item w')) <$> question_ref item w ∧
  (active_at item w = true → max_height item w' = (λ _, "0") <$> answer_ref item w).
Proof.
  intros [e0 He0].
  assert (keeps_faq (λ e, Dom.setStyle "maxHeight" (pretty (scrollHeight e) ++ "px") e))
    as Hgrow by done.
  assert (keeps_faq (Dom.setStyle "maxHeight" "0")) as Hshrink by done.
  assert (∀ v, active_at item v = true → is_Some (Dom.element_at item (doc v))) as Hsome.
  { intros v. unfold active_at. by destruct (Dom.element_at item (doc v)); [eauto|]. }
  unfold faq_toggled. destruct (active_at item w) eqn:Hact; cbv zeta.
  - destruct (faq_updates_view (Dom.classRemove "active") _ "false" w item e0
                keeps_faq_classRemove Hshrink (λ _, eq_refl) He0)
      as (Hq & Ha & Hact' & Haria & Hmax).
    rewrite contains_classRemove, andb_false_r in Hact'.
    specialize (Hmax "0" (λ e, lookup_insert_eq _ _ _)).
    rewrite Hact'. split_and!; try done.
    unfold doc. cbn [document browser Upd.with_document].
    rewrite !element_at_update_opt, element_at_update_at.
    fold (doc w). rewrite He0. simpl. eauto.
  - destruct (faq_updates_view (Dom.classAdd "active") _ "true" w item e0
                keeps_faq_classAdd Hgrow (λ _, eq_refl) He0)
      as (Hq & Ha & Hact' & Haria & _).
    rewrite contains_classAdd, orb_true_r in Hact'.
    rewrite Hact'. split_and!; try done. by apply Hsome.
Qed.

(** C8 (amended).  Each toggle of an FAQ item flips its active class and
    leaves aria-expanded saying what the class says, so two toggles return
    the class to what it was; from an item that is not marked active, two
    toggles therefore end with aria-expanded at 'false' and with the
    answer's max-height at '0'.  (The heading and the answer are optional in
    the script: without one there is no attribute or style to speak of.) *)
Theorem toggleFAQItem_twice (w : World) (item : path) :
  is_Some (Dom.element_at item (doc w)) →
  ∃ w1 w2,
    Site.toggleFAQItem item w = (Normal tt, w1) ∧
    Site.toggleFAQItem item w1 = (Normal tt, w2) ∧
    active_at item w1 = negb (active_at item w) ∧
    aria_expanded item w1 = (λ _, aria_of (active_at item w1)) <$> question_ref item w ∧
    active_at item w2 = active_at item w ∧
    aria_expanded item w2 = (λ _, aria_of (active_at item w2)) <$> question_ref item w ∧
    (active_at item w = false →
     aria_expanded item w2 = (λ _, "false") <$> question_ref item w ∧
     max_height item w2 = (λ _, "0") <$> answer_ref item w).
Proof.
  intros Hitem.
  exists (faq_toggled item w), (faq_toggled item (faq_toggled item w)).
  split; [apply toggleFAQItem_run|]. split; [apply toggleFAQItem_run|].
  destruct (faq_toggled_view w item Hitem) as (Hitem1 & Hq1 & Ha1 & Hact1 & Haria1 & _).
  destruct (faq_toggled_view _ item Hitem1) as (_ & _ & _ & Hact2 & Haria2 & Hmax2).
  rewrite Hq1 in Haria2. rewrite Ha1 in Hmax2.
  rewrite Hact1, negb_involutive in Hact2.
  split_and!; try done.
  intros Hoff. rewrite Hoff in Hact1, Hact2. split.
  - by rewrite Haria2, Hact2.
  - by apply Hmax2.
Qed.

Lemma toggleFAQItem_twice_witness :
  ∃ w1 w2,
    Site.toggleFAQItem Sample.faq_item Sample.w0 = (Normal tt, w1) ∧
    Site.toggleFAQItem Sample.faq_item w1 = (Normal tt, w2) ∧
    active_at Sample.faq_item w1 = true ∧
    aria_expanded Sample.faq_item w1 = Some "true" ∧
    active_at Sample.faq_item w2 = false ∧
    aria_expanded Sample.faq_item w2 = Some "false" ∧
    max_height Sample.faq_item w2 = Some "0".
Proof.
  destruct (toggleFAQItem_twice Sample.w0 Sample.faq_item) as
    (w1 & w2 & H1 & H2 & Hact1 & Haria1 & Hact2 & Haria2 & Hround); [by eexists|].
  destruct (Hround eq_refl) as [Hfalse Hzero].
  exists w1, w2. split_and!; try done.
  by rewrite Haria1, Hact1.
Defined.

(** An item that is already expanded when it is toggled twice ends
    expanded, with aria-expanded 'true' and the answer at its content
    height: the theorem is about items that start collapsed. *)
Example toggleFAQItem_twice_from_expanded :
  let w := (Site.toggleFAQItem Sample.faq_item Sample.w0).2 in
  let w2 := ((Site.toggleFAQItem Sample.faq_item;; Site.toggleFAQItem Sample.faq_item) w).2 in
  active_at Sample.faq_item w = true ∧
  aria_expanded Sample.faq_item w2 = Some "true" ∧
  max_height Sample.faq_item w2 = Some "120px".
Proof. vm_compute. by repeat split. Qed.

(** C8 as stated fails.  An item that the markup marks active is given
    aria-expanded 'false' by [setupFAQInteractivity] like every other; the
    first toggle collapses it, the second expands it, and it ends with
    aria-expanded 'true' and the answer at its content height, not at
    'false' and '0'. *)
Lemma toggleFAQItem_twice_from_active_markup :
  let w := (Site.setupFAQInteractivity Scenario.w_two_items).2 in
  let twice := Site.toggleFAQItem Scenario.second_item;;
               Site.toggleFAQItem Scenario.second_item in
  let w2 := (twice w).2 in
  completes (Site.setupFAQInteractivity Scenario.w_two_items) = true ∧
  active_at Scenario.second_item w = true ∧
  aria_expanded Scenario.second_item w = Some "false" ∧
  max_height Scenario.second_item w = None ∧
  completes (twice w) = true ∧
  aria_expanded Scenario.second_item w2 = Some "true" ∧
  max_height Scenario.second_item w2 = Some "60px".
Proof. vm_compute. by repeat split. Qed.

End FaqFacts.

(** ** Device detection *)

Section DeviceClaims.

(** C9.  When the user agent matches the mobile pattern and the viewport
    is wider or taller than 768 pixels, [detectDevice] completes with a
    snapshot that reports tablet and does not report mobile. *)
Theorem detectDevice_reclassifies_tablet (w : World) (mm : string → bool) :
  matchMedia (env (browser w)) = Some mm →
  Site.test_any Site.MOBILE_WORDS (Str.toLowerCase (userAgent (env (browser w)))) = true →
  768 < innerWidth (env (browser w)) ∨ 768 < innerHeight (env (browser w)) →
  ∃ w', Site.detectDevice w = (Normal tt, w') ∧
        isTablet (deviceInfo (this w')) = true ∧
        isMobile (deviceInfo (this w')) = false.
Proof.
  intros Hmm Hmobile Hsize.
  assert ((Site.TABLET_THRESHOLD <? innerWidth (env (browser w)))
          || (Site.TABLET_THRESHOLD <? innerHeight (env (browser w))) = true) as Hbig.
  { unfold Site.TABLET_THRESHOLD. apply orb_true_iff.
    destruct Hsize; [left | right]; by apply Z.ltb_lt. }
  unfold Site.detectDevice.
  cbv [mbind JS_bind gets Api.matchMedia_matches Api.deref modify when mret JS_ret
       Api.console_log].
  rewrite Hmm. cbn [isMobile]. rewrite Hmobile, Hbig. cbn [andb].
  eexists. split; [reflexivity|]. done.
Qed.

Lemma detectDevice_reclassifies_tablet_witness :
  ∃ w', Site.detectDevice Sample.w_phone = (Normal tt, w') ∧
        isTablet (deviceInfo (this w')) = true ∧
        isMobile (deviceInfo (this w')) = false.
Proof.
  apply (detectDevice_reclassifies_tablet Sample.w_phone (λ _, false));
    [reflexivity | reflexivity | right; reflexivity].
Defined.

(** Below the threshold in both dimensions the mobile classification stays. *)
Lemma detectDevice_keeps_mobile (w : World) (mm : string → bool) :
  matchMedia (env (browser w)) = Some mm →
  Site.test_any Site.MOBILE_WORDS (Str.toLowerCase (userAgent (env (browser w)))) = true →
  innerWidth (env (browser w)) ≤ 768 → innerHeight (env (browser w)) ≤ 768 →
  ∃ w', Site.detectDevice w = (Normal tt, w') ∧
        isMobile (deviceInfo (this w')) = true.
Proof.
  intros Hmm Hmobile Hw Hh.
  assert ((Site.TABLET_THRESHOLD <? innerWidth (env (browser w)))
          || (Site.TABLET_THRESHOLD <? innerHeight (env (browser w))) = false) as Hsmall.
  { unfold Site.TABLET_THRESHOLD. apply orb_false_iff. split; by apply Z.ltb_ge. }
  unfold Site.detectDevice.
  cbv [mbind JS_bind gets Api.matchMedia_matches Api.deref modify when mret JS_ret
       Api.console_log].
  rewrite Hmm. cbn [isMobile]. rewrite Hmobile, Hsmall. cbn [andb].
  eexists. split; [reflexivity|]. done.
Qed.

End DeviceClaims.

(** ** The clipboard helper *)

Section ClipboardClaims.

(** C6.  [copyToClipboard] always settles with a boolean, never with an
    exception: [true] when the clipboard API is usable and its write
    succeeds; what [execCommand('copy')] returned when the API is not
    usable; and [false], after logging, when the write is rejected, when
    [execCommand] throws, or when there is no body to attach the textarea
    to. *)
Theorem copyToClipboard_returns_boolean (text : string) (w : World) :
  let ev := env (browser w) in
  let r := Util.copyToClipboard text w in
  let logged := console (browser r.2) = (console (browser w) ++ ["Failed to copy text: "])%list in
  (∃ b, r.1 = Normal b) ∧
  (∀ writeText, clipboard ev = Some writeText → isSecureContext ev = true →
     (writeText text = Normal tt → r = (Normal true, w)) ∧
     (∀ e, writeText text = Throw e → r.1 = Normal false ∧ logged)) ∧
  (clipboard ev = None ∨ isSecureContext ev = false →
     (∀ bp b, body_ref w = Some bp → execCommand_copy ev = Normal b → r.1 = Normal b) ∧
     (∀ e, execCommand_copy ev = Throw e → r.1 = Normal false ∧ logged) ∧
     (body_ref w = None → r.1 = Normal false ∧ logged)).
Proof.
  unfold Util.copyToClipboard, try_catch, body_ref, doc.
  cbv [mbind JS_bind gets modify Util.lift Util.appendChild Api.document_body Api.deref
       Site.remove Api.console_log mret JS_ret throw].
  destruct (clipboard (env (browser w))) as [wt|] eqn:Hclip;
    destruct (isSecureContext (env (browser w))) eqn:Hsec;
    try destruct (wt text) as [[]|e1] eqn:Hwt;
    destruct (Api.child_with_tag "body" (document (browser w))) as [bp|] eqn:Hbody;
    destruct (execCommand_copy (env (browser w))) as [b|e2] eqn:Hexec;
    simpl; rewrite ?Hexec; simpl;
    (split; [eauto|]);
    (split;
     [ intros writeText [= <-] Hs; try discriminate;
       (split; [intros Hok | intros e Hko]); try congruence; try done;
       rewrite ?Hwt in *; try discriminate; done
     | intros Hfallback;
       try (destruct Hfallback; discriminate);
       (split; [intros bp' b' Hb Hx | split; [intros e Hx | intros Hb]]);
       try discriminate; try congruence; try done ]).
Qed.

Example copyToClipboard_fallback_true :
  (Util.copyToClipboard "GreenMax" Sample.w0).1 = Normal true ∧
  doc (Util.copyToClipboard "GreenMax" Sample.w0).2 = doc Sample.w0.
Proof. vm_compute. by split. Qed.

End ClipboardClaims.

(** ** Injected style blocks *)

Section StyleFacts.

Lemma count_node P e ks :
  Dom.count P (El e ks) = ((if P e then 1 else 0) + count_in P ks)%nat.
Proof. unfold Dom.count, count_in. simpl. by destruct (P e). Qed.

Lemma count_in_cons P k ks :
  count_in P (k :: ks) = (Dom.count P k + count_in P ks)%nat.
Proof.
  unfold count_in, Dom.count. simpl. by rewrite List.filter_app, length_app.
Qed.

Lemma count_in_app P ks ks' :
  count_in P (ks ++ ks') = (count_in P ks + count_in P ks')%nat.
Proof.
  induction ks as [|k ks IH]; [done|]. simpl.
  rewrite !count_in_cons, IH. lia.
Qed.

Lemma count_in_alter P g i ks k (δ : nat) :
  ks !! i = Some k →
  Dom.count P (g k) = (Dom.count P k + δ)%nat →
  count_in P (alter g i ks) = (count_in P ks + δ)%nat.
Proof.
  revert i. induction ks as [|x ks IH]; intros i Hk Hg; [done|].
  destruct i as [|i]; simpl in *.
  - injection Hk as ->. rewrite !count_in_cons, Hg. lia.
  - rewrite !count_in_cons. unfold alter in IH. rewrite (IH i) by done. lia.
Qed.

Lemma alter_out_of_range {A} (g : A → A) i (l : list A) :
  l !! i = None → alter g i l = l.
Proof.
  revert i. induction l as [|x l IH]; intros i; [done|].
  destruct i as [|i]; simpl; [done|]. intros H. f_equal. by apply IH.
Qed.

Lemma count_update_at P f p n :
  (∀ e, P (f e) = P e) →
  Dom.count P (Dom.update_at f p n) = Dom.count P n.
Proof.
  intros HP. revert n. induction p as [|i p IH]; intros [e ks]; simpl.
  - by rewrite !count_node, HP.
  - rewrite !count_node. f_equal.
    destruct (ks !! i) as [k|] eqn:Hk.
    + rewrite (count_in_alter P _ i ks k 0) by (rewrite ?IH; done || lia). lia.
    + by rewrite alter_out_of_range.
Qed.

Lemma count_appendChild P c p n :
  is_Some (Dom.get_at p n) →
  Dom.count P (Dom.appendChild c p n) = (Dom.count P n + Dom.count P c)%nat.
Proof.
  revert n. induction p as [|i p IH]; intros [e ks]; simpl.
  - intros _. rewrite !count_node, count_in_app.
    rewrite count_in_cons. change (count_in P []) with 0%nat.
    destruct (P e); lia.
  - destruct (ks !! i) as [k|] eqn:Hk; [|by intros [? ?]].
    intros Hp. rewrite !count_node.
    rewrite (count_in_alter P _ i ks k (Dom.count P c)) by (by rewrite ?IH). lia.
Qed.

Lemma index_where_alter {A} (P : A → bool) (g : A → A) i l :
  (∀ x, P (g x) = P x) → Api.index_where P (alter g i l) = Api.index_where P l.
Proof.
  intros Hg. revert i. induction l as [|x l IH]; intros i; [done|].
  destruct i as [|i]; simpl.
  - by rewrite Hg.
  - specialize (IH i). unfold alter in IH. by rewrite IH.
Qed.

Lemma child_with_tag_appendChild t c i p n :
  Api.child_with_tag t (Dom.appendChild c (i :: p) n) = Api.child_with_tag t n.
Proof.
  unfold Api.child_with_tag. simpl. f_equal.
  apply index_where_alter. intros k. by destruct p.
Qed.

Lemma head_ref_inv w hp : head_ref w = Some hp → ∃ i, hp = [i].
Proof.
  unfold head_ref, Api.child_with_tag.
  destruct (Api.index_where _ _) as [i|]; simpl; [|done]. intros [= <-]. eauto.
Qed.

Lemma classAdd_identity c : keeps_identity (Dom.classAdd c).
Proof. intros e. unfold Dom.classAdd. by destruct (Dom.contains c e). Qed.

Lemma optimizeForBattery_low w b bp hp :
  battery (env (browser w)) = Some b → Site.battery_low b = true →
  body_ref w = Some bp → head_ref w = Some hp →
  Site.optimizeForBattery w = (Normal tt, drained bp hp w).
Proof.
  intros Hbat Hlow Hb Hh. unfold Site.optimizeForBattery.
  cbv [mbind JS_bind gets Api.deref Api.document_body Api.mutate modify mret JS_ret
       Site.head_appendChild Api.document_head].
  rewrite Hbat. unfold body_ref, doc in Hb. rewrite Hb, Hlow.
  set (w1 := Upd.with_document _ w).
  assert (head_ref w1 = Some hp) as Hh1.
  { unfold head_ref, w1. rewrite <- Hh. apply child_with_tag_update_at.
    intros e. apply classAdd_identity. }
  unfold head_ref, doc in Hh1. by rewrite Hh1.
Qed.

Lemma drained_facts w bp hp :
  body_ref w = Some bp → head_ref w = Some hp →
  env (browser (drained bp hp w)) = env (browser w) ∧
  body_ref (drained bp hp w) = Some bp ∧
  head_ref (drained bp hp w) = Some hp ∧
  blocks "battery-optimization" (drained bp hp w) = S (blocks "battery-optimization" w).
Proof.
  intros Hb Hh. destruct (head_ref_inv _ _ Hh) as [i ->].
  set (w1 := Upd.with_document (Dom.update_at (Dom.classAdd "low-battery") bp) w).
  assert (body_ref w1 = Some bp) as Hb1
    by (unfold w1; rewrite body_ref_update; [done | apply classAdd_identity]).
  assert (head_ref w1 = Some [i]) as Hh1.
  { etrans; [|exact Hh]. apply child_with_tag_update_at.
    intros e. apply classAdd_identity. }
  split_and!; [done | | | ].
  - etrans; [apply (child_with_tag_appendChild "body" _ i [] (doc w1)) | exact Hb1].
  - etrans; [apply (child_with_tag_appendChild "head" _ i [] (doc w1)) | exact Hh1].
  - etrans; [apply (count_appendChild _ _ [i] (doc w1))|].
    + apply child_with_tag_Some in Hh1 as (e & He & _).
      unfold Dom.element_at in He. by destruct (Dom.get_at [i] (doc w1)).
    + unfold w1, doc. cbn [document browser Upd.with_document].
      rewrite count_update_at by (intros e; apply keeps_identity_hasId, classAdd_identity).
      change (Dom.count _ (Site.styleElement _ _)) with 1%nat. unfold blocks, doc. lia.
Qed.

(** C3 (the battery block is appended without the removal its siblings
    do).  While the battery is low or discharging, every trigger of
    [optimizeForBattery] completes and adds one more style element with id
    battery-optimization: after [n] triggers there are [n] more than
    before, not one. *)
Theorem optimizeForBattery_accumulates (n : nat) (w : World) (b : Battery) (bp hp : path) :
  battery (env (browser w)) = Some b → Site.battery_low b = true →
  body_ref w = Some bp → head_ref w = Some hp →
  ∃ w', repeat_js n Site.optimizeForBattery w = (Normal tt, w') ∧
        blocks "battery-optimization" w' = (blocks "battery-optimization" w + n)%nat.
Proof.
  revert w. induction n as [|n IH]; intros w Hbat Hlow Hb Hh.
  - exists w. split; [done | lia].
  - destruct (drained_facts w bp hp Hb Hh) as (Henv & Hb1 & Hh1 & Hcount).
    destruct (IH (drained bp hp w)) as (w' & Hrun & Hblocks); try done.
    exists w'. split.
    + unfold repeat_js in *. simpl. cbv [mbind JS_bind].
      rewrite (optimizeForBattery_low w b bp hp) by done. exact Hrun.
    + rewrite Hblocks, Hcount. lia.
Qed.

Lemma optimizeForBattery_accumulates_witness :
  ∃ w', repeat_js 2 Site.optimizeForBattery Sample.w0 = (Normal tt, w') ∧
        blocks "battery-optimization" w' = 2%nat.
Proof.
  apply (optimizeForBattery_accumulates 2 Sample.w0 (mkBattery (1 # 10) false)
           [1%nat] [0%nat]); reflexivity.
Defined.

(** The three blocks of [optimizeInterface] are replaced, not appended:
    after the constructor and two further re-detections (a resize, say)
    the document holds one block of each id, on the phone and on the
    desktop.  On the desktop the battery callback followed by two level
    changes leaves three battery blocks. *)
Example optimizer_blocks_after_retriggers :
  let again := Site.run CbRedetect (mkEvent [] "" false) in
  let level := Site.run CbOptimizeForBattery (mkEvent [] "" false) in
  let ready := Site.run CbBatteryReady (mkEvent [] "" false) in
  let w := ((Site.constructor;; again;; again) Sample.w_phone).2 in
  let w' := ((Site.constructor;; again;; again;; ready;; level;; level) Sample.w0).2 in
  blocks "touch-optimization" w = 1%nat ∧
  blocks "layout-optimization" w = 1%nat ∧
  blocks "performance-optimization" w' = 1%nat ∧
  blocks "layout-optimization" w' = 1%nat ∧
  blocks "battery-optimization" w' = 3%nat.
Proof. vm_compute. by repeat split. Qed.

End StyleFacts.


(** ** Who writes the stored key or the in-memory theme *)

Section StorageFrame.

Lemma keeps_settings_ret {A} (a : A) : keeps_settings (mret a).
Proof. by intros w. Qed.

Lemma keeps_settings_throw {A} e : keeps_settings (@throw A e).
Proof. by intros w. Qed.

Lemma keeps_settings_gets {A} (f : World → A) : keeps_settings (gets f).
Proof. by intros w. Qed.

Lemma keeps_settings_modify f :
  (∀ w, settings (f w) = settings w) →
  keeps_settings (modify f).
Proof. intros H w. apply H. Qed.

Lemma keeps_settings_bind {A B} (m : JS A) (f : A → JS B) :
  keeps_settings m → (∀ a, keeps_settings (f a)) → keeps_settings (m ≫= f).
Proof.
  intros Hm Hf w. unfold mbind, JS_bind. specialize (Hm w).
  destruct (m w) as [[a|e] w']; simpl in *; [|done].
  by rewrite Hf.
Qed.

Lemma keeps_settings_try_catch {A} (m : JS A) h :
  keeps_settings m → (∀ e, keeps_settings (h e)) → keeps_settings (try_catch m h).
Proof.
  intros Hm Hh w. unfold try_catch. specialize (Hm w).
  destruct (m w) as [[a|e] w']; simpl in *; [done|].
  by rewrite Hh.
Qed.

Lemma keeps_settings_when b m : keeps_settings m → keeps_settings (when b m).
Proof. intros H. destruct b; [done | apply keeps_settings_ret]. Qed.

Lemma keeps_settings_for_each {A} (l : list A) f :
  (∀ x, keeps_settings (f x)) → keeps_settings (Site.for_each l f).
Proof.
  intros H. induction l as [|x l IH]; simpl; [apply keeps_settings_ret|].
  apply keeps_settings_bind; [apply H | by intros _].
Qed.

Lemma keeps_settings_lift {A} (c : Completion A) : keeps_settings (Util.lift c).
Proof. by intros w. Qed.

End StorageFrame.

Create HintDb frame discriminated.

Ltac frame_step :=
  first
    [ solve [auto with frame]
    | apply keeps_settings_bind; [|intros ?]
    | apply keeps_settings_ret
    | apply keeps_settings_throw
    | apply keeps_settings_gets
    | apply keeps_settings_lift
    | apply keeps_settings_modify; intros ?; reflexivity
    | apply keeps_settings_when
    | apply keeps_settings_try_catch; [|intros ?]
    | apply keeps_settings_for_each; intros ?
    | match goal with
      | |- keeps_settings (match ?x with _ => _ end) => destruct x
      end ].

Ltac frame := cbv zeta; repeat frame_step.

Lemma keeps_settings_deref {A} what (r : option A) : keeps_settings (Api.deref what r).
Proof. unfold Api.deref. frame. Qed.

Lemma keeps_settings_mutate what r f : keeps_settings (Api.mutate what r f).
Proof. unfold Api.mutate, Api.deref. frame. Qed.

#[global] Hint Resolve keeps_settings_deref keeps_settings_mutate : frame.

Lemma keeps_settings_read {A} p (f : Element → A) d : keeps_settings (Api.read p f d).
Proof. unfold Api.read. frame. Qed.

Lemma keeps_settings_setTimeout cb d : keeps_settings (Api.setTimeout cb d).
Proof. unfold Api.setTimeout. frame. Qed.

Lemma keeps_settings_clearTimeout i : keeps_settings (Api.clearTimeout i).
Proof. unfold Api.clearTimeout. frame. Qed.

Lemma keeps_settings_document_body : keeps_settings Api.document_body.
Proof. unfold Api.document_body. frame. Qed.

Lemma keeps_settings_document_head : keeps_settings Api.document_head.
Proof. unfold Api.document_head. frame. Qed.

Lemma keeps_settings_getElementById i : keeps_settings (Api.getElementById i).
Proof. unfold Api.getElementById. frame. Qed.

Lemma keeps_settings_querySelector_id i : keeps_settings (Api.querySelector_id i).
Proof. unfold Api.querySelector_id. frame. Qed.

Lemma keeps_settings_querySelector_attr k v : keeps_settings (Api.querySelector_attr k v).
Proof. unfold Api.querySelector_attr. frame. Qed.

Lemma keeps_settings_forEach P f : keeps_settings (Api.forEach P f).
Proof. unfold Api.forEach. frame. Qed.

Lemma keeps_settings_console_log m : keeps_settings (Api.console_log m).
Proof. unfold Api.console_log. frame. Qed.

Lemma keeps_settings_addEventListener t ev cb : keeps_settings (Api.addEventListener t ev cb).
Proof. unfold Api.addEventListener. frame. Qed.

Lemma keeps_settings_matchMedia_guarded q : keeps_settings (Api.matchMedia_guarded q).
Proof. unfold Api.matchMedia_guarded. frame. Qed.

Lemma keeps_settings_matchMedia_matches q : keeps_settings (Api.matchMedia_matches q).
Proof. unfold Api.matchMedia_matches. frame. Qed.

Lemma keeps_settings_getItem k : keeps_settings (Api.localStorage_getItem k).
Proof. unfold Api.localStorage_getItem. frame. Qed.

#[global] Hint Resolve keeps_settings_read
  keeps_settings_setTimeout keeps_settings_clearTimeout keeps_settings_document_body
  keeps_settings_document_head keeps_settings_getElementById keeps_settings_querySelector_id
  keeps_settings_querySelector_attr keeps_settings_forEach keeps_settings_console_log
  keeps_settings_addEventListener keeps_settings_matchMedia_guarded
  keeps_settings_matchMedia_matches keeps_settings_getItem : frame.

(** The methods that never reach [applyTheme]. *)

Lemma keeps_settings_switchTab t : keeps_settings (Site.switchTab t).
Proof. unfold Site.switchTab, Site.scrollIntoView, Site.history_replaceState. frame. Qed.

#[global] Hint Resolve keeps_settings_switchTab : frame.

Lemma keeps_settings_initializeActiveTab : keeps_settings Site.initializeActiveTab.
Proof. unfold Site.initializeActiveTab. frame. Qed.

Lemma keeps_settings_onHashChange : keeps_settings Site.onHashChange.
Proof. unfold Site.onHashChange. frame. Qed.

Lemma keeps_settings_onTabClick e : keeps_settings (Site.onTabClick e).
Proof. unfold Site.onTabClick, Site.target_tabName. frame. Qed.

Lemma keeps_settings_onTabKeydown e : keeps_settings (Site.onTabKeydown e).
Proof. unfold Site.onTabKeydown, Site.target_tabName. frame. Qed.

Lemma keeps_settings_toggleFAQItem item : keeps_settings (Site.toggleFAQItem item).
Proof. unfold Site.toggleFAQItem, Site.querySelector_in, Site.when_some. frame. Qed.

Lemma keeps_settings_detectDevice : keeps_settings Site.detectDevice.
Proof. unfold Site.detectDevice. frame. Qed.

Lemma keeps_settings_detectScreen : keeps_settings Site.detectScreen.
Proof. unfold Site.detectScreen. frame. Qed.

Lemma keeps_settings_replaceStyleBlock i css : keeps_settings (Site.replaceStyleBlock i css).
Proof. unfold Site.replaceStyleBlock, Site.remove, Site.head_appendChild. frame. Qed.

#[global] Hint Resolve keeps_settings_replaceStyleBlock keeps_settings_toggleFAQItem
  keeps_settings_detectDevice keeps_settings_detectScreen keeps_settings_initializeActiveTab
  keeps_settings_onHashChange keeps_settings_onTabClick keeps_settings_onTabKeydown : frame.

Lemma keeps_settings_optimizeInterface : keeps_settings Site.optimizeInterface.
Proof.
  unfold Site.optimizeInterface, Site.optimizeTouchInteractions, Site.optimizeScrolling,
    Site.optimizePerformance, Site.adjustLayoutForScreen, Site.prefersReducedMotion.
  frame.
Qed.

Lemma keeps_settings_optimizePerformance : keeps_settings Site.optimizePerformance.
Proof. unfold Site.optimizePerformance, Site.prefersReducedMotion. frame. Qed.

Lemma keeps_settings_optimizeForBattery : keeps_settings Site.optimizeForBattery.
Proof. unfold Site.optimizeForBattery, Site.remove, Site.head_appendChild. frame. Qed.

Lemma keeps_settings_setupEventListeners : keeps_settings Site.setupEventListeners.
Proof. unfold Site.setupEventListeners, Site.querySelectorAll. frame. Qed.

Lemma keeps_settings_setupFAQInteractivity : keeps_settings Site.setupFAQInteractivity.
Proof. unfold Site.setupFAQInteractivity, Site.querySelectorAll, Site.querySelector_in. frame. Qed.

Lemma keeps_settings_setupDynamicOptimization : keeps_settings Site.setupDynamicOptimization.
Proof. unfold Site.setupDynamicOptimization. frame. Qed.

#[global] Hint Resolve keeps_settings_optimizeInterface keeps_settings_optimizePerformance
  keeps_settings_optimizeForBattery keeps_settings_setupEventListeners
  keeps_settings_setupFAQInteractivity keeps_settings_setupDynamicOptimization : frame.

(** Every closure the script registers leaves the stored key and the
    in-memory theme alone, except the ones that go through [applyTheme]: the
    click on the theme toggle, the system colour-scheme change, and the
    page-load listener, which runs the constructor. *)
Lemma storage_written_only_through_applyTheme cb e :
  cb ≠ CbThemeToggleClick → cb ≠ CbSchemeChange → cb ≠ CbDOMContentLoaded →
  keeps_settings (Site.run cb e).
Proof.
  intros Hc Hs Hd.
  destruct cb; try done; unfold Site.run, Site.onClearTransition, Site.onFaqKeydown,
    Site.onBatteryReady; frame.
Qed.

(** So do the clipboard helper and every step of [init] other than
    [loadTheme]. *)
Lemma storage_kept_elsewhere text :
  keeps_settings (Util.copyToClipboard text) ∧
  keeps_settings (Site.detectDevice;; Site.detectScreen;; Site.optimizeInterface) ∧
  keeps_settings (Site.setupEventListeners;; Site.setupFAQInteractivity;;
                 Site.initializeActiveTab;; Site.setupDynamicOptimization).
Proof.
  split_and!; [unfold Util.copyToClipboard, Util.appendChild, Site.remove | |]; frame.
Qed.

(** The state in which the constructor reaches [loadTheme]: theme 'light',
    storage and system preference as the page load found them. *)
Lemma constructor_reaches_loadTheme_light w :
  let pre :=
    modify (λ w, mkWorld (mkSite "light" "general" emptyDeviceInfo emptyScreenInfo) (browser w));;
    Site.detectDevice;; Site.detectScreen;; Site.optimizeInterface in
  Site.constructor w = (pre;; Site.loadTheme;; Site.setupEventListeners;;
                        Site.setupFAQInteractivity;; Site.initializeActiveTab;;
                        Site.setupDynamicOptimization) w ∧
  currentTheme (this (pre w).2) = "light" ∧
  stored_theme (pre w).2 = stored_theme w ∧
  prefers_dark (pre w).2 = prefers_dark w.
Proof.
  intros pre. split.
  { unfold Site.constructor, Site.init, pre.
    cbv [mbind JS_bind modify].
    destruct (Site.detectDevice _) as [[[]|] ?]; [|done].
    destruct (Site.detectScreen _) as [[[]|] ?]; [|done].
    by destruct (Site.optimizeInterface _) as [[[]|] ?]. }
  destruct (storage_kept_elsewhere "") as (_ & Hpre & _).
  unfold pre. cbv [mbind JS_bind modify] in *.
  set (w1 := mkWorld _ (browser w)).
  specialize (Hpre w1). unfold settings in Hpre.
  unfold stored_theme, prefers_dark.
  destruct (Site.detectDevice w1) as [[[]|] w2]; simpl in *.
  - destruct (Site.detectScreen w2) as [[[]|] w3]; simpl in *.
    + destruct (Site.optimizeInterface w3) as [[[]|] w4]; simpl in *;
        injection Hpre as -> -> ->; done.
    + injection Hpre as -> -> ->; done.
  - injection Hpre as -> -> ->; done.
Qed.

(** ** The replaceable blocks are replaced *)

Section ReplaceFacts.

Lemma first_in_at {A} (g : A → option path) i l j x q :
  (∀ j' y, (j' < j)%nat → l !! j' = Some y → g y = None) →
  l !! j = Some x → g x = Some q →
  Dom.first_in g i l = Some ((i + j)%nat :: q).
Proof.
  revert i j. induction l as [|y l IH]; intros i j Hbefore Hj Hx; [done|].
  destruct j as [|j]; simpl in *.
  - injection Hj as ->. rewrite Hx. by rewrite Nat.add_0_r.
  - rewrite (Hbefore 0%nat y) by (done || lia).
    rewrite (IH (S i) j); [f_equal; f_equal; lia | | done | done].
    intros j' z Hlt Hz. apply (Hbefore (S j') z); [lia | done].
Qed.

Lemma count_in_zero P ks :
  count_in P ks = 0%nat → Forall (λ k, Dom.count P k = 0%nat) ks.
Proof.
  induction ks as [|k ks IH]; [constructor|].
  rewrite count_in_cons. intros H. constructor; [lia | apply IH; lia].
Qed.

Lemma find_first_absent P n : Dom.count P n = 0%nat → Dom.find_first P n = None.
Proof.
  induction n as [e ks IH] using Node_ind'. rewrite count_node. simpl.
  destruct (P e); [lia|]. simpl. intros Hks. apply count_in_zero in Hks.
  generalize 0%nat. induction ks as [|k ks IHks]; intros i; [done|]. simpl.
  inversion IH as [|?? Hk Hrest]; subst. inversion Hks as [|?? Hk0 Hrest0]; subst.
  rewrite (Hk Hk0). by apply IHks.
Qed.

Lemma alter_fixed {A} (g : A → A) i (l : list A) :
  (∀ x, l !! i = Some x → g x = x) → alter g i l = l.
Proof.
  revert i. induction l as [|x l IH]; intros i H; [done|].
  destruct i as [|i]; simpl.
  - by rewrite (H x).
  - f_equal. apply IH. intros y Hy. by apply H.
Qed.

Lemma alter_compose {A} (g g' : A → A) i (l : list A) :
  alter g i (alter g' i l) = alter (λ x, g (g' x)) i l.
Proof.
  revert i. induction l as [|x l IH]; intros i; [done|].
  destruct i as [|i]; simpl; [done|]. f_equal. apply IH.
Qed.

Lemma delete_last {A} (l : list A) x : delete (length l) (l ++ [x])%list = l.
Proof. induction l as [|y l IH]; simpl; [done|]. by f_equal. Qed.

(** In a document without the id, a block appended to the head is what the
    lookup by id finds, and removing it gives the document back. *)
Lemma appended_block_found i css h d hk :
  Dom.count (Dom.hasId i) d = 0%nat →
  node_kids d !! h = Some hk →
  let d' := Dom.appendChild (Site.styleElement i css) [h] d in
  let p := [h; length (node_kids hk)] in
  Dom.find_first (Dom.hasId i) d' = Some p ∧ Dom.remove_at p d' = d.
Proof.
  destruct d as [r ks]. rewrite count_node. simpl. intros Hzero Hh.
  destruct (Dom.hasId i r) eqn:Hr; [lia|]. simpl in Hzero.
  apply count_in_zero in Hzero.
  destruct hk as [he hks]. simpl.
  assert (Dom.count (Dom.hasId i) (El he hks) = 0%nat) as Hhk
    by (by eapply Forall_lookup_1 in Hzero).
  rewrite count_node in Hhk.
  destruct (Dom.hasId i he) eqn:Hhe; [lia|]. simpl in Hhk.
  apply count_in_zero in Hhk.
  cbv zeta. cbn [Dom.appendChild Dom.find_first Dom.remove_at node_element node_kids length].
  split.
  - apply (first_in_at _ 0%nat _ h (El he (hks ++ [Site.styleElement i css]))
             [length hks]).
    + intros j' y Hlt Hy. rewrite list_lookup_alter_ne in Hy by lia.
      apply find_first_absent. by eapply Forall_lookup_1 in Hzero.
    + by rewrite list_lookup_alter_eq, Hh.
    + simpl. rewrite Hhe.
      apply (first_in_at _ 0%nat _ (length hks) (Site.styleElement i css) []).
      * intros j' y Hlt Hy. rewrite lookup_app_l in Hy by done.
        apply find_first_absent. by eapply Forall_lookup_1 in Hhk.
      * rewrite lookup_app_r by done. by rewrite Nat.sub_diag.
      * simpl. unfold Dom.hasId. simpl. rewrite lookup_insert_eq.
        by rewrite String.eqb_refl.
  - f_equal. rewrite alter_compose. apply alter_fixed.
    intros x Hx. rewrite Hh in Hx. injection Hx as <-. simpl. f_equal.
    apply delete_last.
Qed.

Lemma head_ref_kid w h :
  head_ref w = Some [h] → ∃ hk, node_kids (doc w) !! h = Some hk.
Proof.
  intros H. apply child_with_tag_Some in H as (e & He & _).
  unfold Dom.element_at in He. simpl in He.
  destruct (node_kids (doc w) !! h) as [hk|]; [eauto | done].
Qed.

(** The first injection of a block into a document without one. *)
Lemma replaceStyleBlock_fresh i css h w :
  blocks i w = 0%nat → head_ref w = Some [h] →
  Site.replaceStyleBlock i css w = (Normal tt, with_block i css h w).
Proof.
  unfold blocks, head_ref, doc. intros Hzero Hh.
  unfold Site.replaceStyleBlock, Site.head_appendChild.
  cbv [mbind JS_bind gets Api.querySelector_id Api.document_head Api.deref modify mret JS_ret].
  rewrite (find_first_absent _ _ Hzero). by rewrite Hh.
Qed.

(** Every later injection takes the previous block out and puts the new one
    in its place. *)
Lemma with_document_ext f g w :
  f (doc w) = g (doc w) → Upd.with_document f w = Upd.with_document g w.
Proof. unfold doc, Upd.with_document. by intros ->. Qed.

Lemma replaceStyleBlock_again i css css' h w :
  blocks i w = 0%nat → head_ref w = Some [h] →
  Site.replaceStyleBlock i css' (with_block i css h w) = (Normal tt, with_block i css' h w).
Proof.
  intros Hzero Hh. destruct (head_ref_kid w h Hh) as [hk Hhk].
  destruct (appended_block_found i css h (doc w) hk Hzero Hhk) as [Hfind Hremove].
  set (p := [h; length (node_kids hk)]) in *.
  set (w1 := Upd.with_document (Dom.remove_at p) (with_block i css h w)).
  assert (doc w1 = doc w) as Hdoc by exact Hremove.
  assert (Site.remove p (with_block i css h w) = (Normal tt, w1)) as Hrm by done.
  assert (Api.querySelector_id i (with_block i css h w) = (Normal (Some p), with_block i css h w))
    as Hq by (unfold Api.querySelector_id, gets; by rewrite <- Hfind).
  assert (Site.head_appendChild (Site.styleElement i css') w1 =
          (Normal tt, Upd.with_document (Dom.appendChild (Site.styleElement i css') [h]) w1))
    as Happ.
  { unfold Site.head_appendChild.
    cbv [mbind JS_bind gets Api.document_head Api.deref modify mret JS_ret].
    change (document (browser w1)) with (doc w1). rewrite Hdoc.
    unfold head_ref in Hh. by rewrite Hh. }
  unfold Site.replaceStyleBlock. cbv [mbind JS_bind].
  rewrite Hq, Hrm, Happ. f_equal.
  unfold w1, with_block.
  change (Upd.with_document ?f (Upd.with_document ?g (Upd.with_document ?k w)))
    with (Upd.with_document (λ d, f (g (k d))) w).
  apply with_document_ext. by rewrite Hremove.
Qed.

Lemma with_block_count i css h w :
  head_ref w = Some [h] →
  blocks i (with_block i css h w) = S (blocks i w).
Proof.
  intros Hh. destruct (head_ref_kid w h Hh) as [hk Hhk].
  unfold blocks, with_block, doc. cbn [document browser Upd.with_document].
  rewrite count_appendChild.
  - unfold Site.styleElement. rewrite count_node.
    unfold Dom.hasId. simpl. rewrite lookup_insert_eq, String.eqb_refl.
    change (count_in _ []) with 0%nat. lia.
  - simpl. unfold doc in Hhk. by rewrite Hhk.
Qed.

(** Hence any number of injections, each with its own CSS text, leaves one
    block with the id: the behaviour the battery block lacks. *)
Lemma replaceStyleBlock_repeated i (csss : list string) css h w :
  blocks i w = 0%nat → head_ref w = Some [h] →
  ∃ w', Site.for_each (css :: csss) (Site.replaceStyleBlock i) w = (Normal tt, w') ∧
        blocks i w' = 1%nat.
Proof.
  intros Hzero Hh.
  assert (∀ l c, ∃ c', Site.for_each l (Site.replaceStyleBlock i) (with_block i c h w)
                       = (Normal tt, with_block i c' h w)) as Hloop.
  { induction l as [|c1 l IH]; intros c; simpl.
    - by exists c.
    - destruct (IH c1) as [c' Hc']. exists c'.
      cbv [mbind JS_bind]. by rewrite (replaceStyleBlock_again i c c1 h w). }
  destruct (Hloop csss css) as [c' Hc'].
  exists (with_block i c' h w). split.
  - simpl. cbv [mbind JS_bind]. by rewrite (replaceStyleBlock_fresh i css h w).
  - rewrite with_block_count by done. lia.
Qed.

End ReplaceFacts.

(** ** Tabs: a successful switch, the initial tab, fragment changes *)

Section TabSelection.

Lemma lookup_map {A B} (g : A → B) (l : list A) i :
  List.map g l !! i = g <$> l !! i.
Proof.
  revert i. induction l as [|x l IH]; intros [|i]; simpl; done.
Qed.

Lemma element_at_forEach P f q n :
  Dom.element_at q (Dom.forEach_matching P f n) =
  (λ e, if P e then f e else e) <$> Dom.element_at q n.
Proof.
  unfold Dom.element_at. revert n. induction q as [|i q IH]; intros [e ks]; simpl; [done|].
  rewrite lookup_map. destruct (ks !! i) as [k|]; simpl; [apply IH | done].
Qed.

Lemma element_at_elements q n e :
  Dom.element_at q n = Some e → e ∈ Dom.elements n.
Proof.
  unfold Dom.element_at. revert n. induction q as [|i q IH]; intros [e0 ks]; simpl.
  - intros [= <-]. apply list_elem_of_here.
  - destruct (ks !! i) as [k|] eqn:Hk; simpl; [|done]. intros He.
    apply list_elem_of_further, list_elem_of_In, in_concat.
    exists (Dom.elements k). split.
    + apply in_map, list_elem_of_In. by eapply list_elem_of_lookup_2.
    + apply list_elem_of_In. by apply IH.
Qed.

Lemma switchTab_matched_run tabName b p w :
  tab_button tabName w = Some b → tab_panel tabName w = Some p →
  Site.switchTab tabName w = (Normal tt, switched tabName b p w).
Proof.
  intros Hb Hp. destruct (tab_lookups_cleared tabName w) as [Hb' Hp'].
  rewrite Hb in Hb'. rewrite Hp in Hp'.
  unfold Site.switchTab.
  cbv [mbind JS_bind Api.forEach Api.querySelector_attr Api.getElementById gets modify].
  change (Upd.with_document _ (Upd.with_document _ w)) with (cleared w).
  change (Dom.find_first (Dom.hasAttr "data-tab" tabName) (document (browser (cleared w))))
    with (tab_button tabName (cleared w)).
  change (if String.eqb tabName "" then None
          else Dom.find_first (Dom.hasId tabName) (document (browser (cleared w))))
    with (tab_panel tabName (cleared w)).
  rewrite Hb', Hp'. reflexivity.
Qed.

Lemma switched_facts tabName b p w :
  tab_button tabName w = Some b → tab_panel tabName w = Some p →
  active_at b (switched tabName b p w) = true ∧
  active_at p (switched tabName b p w) = true ∧
  (∀ q e, q ≠ b → q ≠ p →
     Dom.element_at q (doc (switched tabName b p w)) = Some e →
     is_tab e = true → Dom.contains "active" e = false).
Proof.
  intros Hb Hp.
  assert (∃ eb, Dom.element_at b (doc (cleared w)) = Some eb) as [eb Heb].
  { apply find_first_Some in Hb as (e & He & _).
    unfold cleared, doc. simpl. rewrite !element_at_forEach.
    unfold doc in He. rewrite He. simpl. eauto. }
  assert (∃ ep, Dom.element_at p (doc (cleared w)) = Some ep) as [ep Hep].
  { unfold tab_panel in Hp. destruct (String.eqb tabName ""); [done|].
    apply find_first_Some in Hp as (e & He & _).
    unfold cleared, doc. simpl. rewrite !element_at_forEach.
    unfold doc in He. rewrite He. simpl. eauto. }
  assert (∀ q, Dom.element_at q (doc (switched tabName b p w)) =
               (if decide (q = p) then Dom.classAdd "active" else id) <$>
               ((if decide (q = b) then Dom.classAdd "active" else id) <$>
                Dom.element_at q (doc (cleared w)))) as Hat.
  { intros q. unfold switched, doc. cbn [document browser Upd.with_location_hash
      Upd.with_scrolled Upd.with_currentTab Upd.with_document].
    by rewrite !element_at_update_at. }
  assert (∀ x, Dom.contains "active" (Dom.classAdd "active" x) = true) as Hon
    by (intros x; rewrite contains_classAdd; apply orb_true_r).
  split_and!.
  - unfold active_at. rewrite Hat, Heb. rewrite (decide_True (P := b = b)) by done.
    simpl. destruct (decide (b = p)); simpl; by rewrite ?Hon.
  - unfold active_at. rewrite Hat, Hep. rewrite (decide_True (P := p = p)) by done.
    simpl. by rewrite Hon.
  - intros q e Hqb Hqp. rewrite Hat. rewrite !decide_False by done.
    destruct (Dom.element_at q (doc (cleared w))) as [e'|] eqn:He'; simpl; [|done].
    intros [= <-]. apply element_at_elements in He'.
    pose proof (cleared_no_active w) as Hall. rewrite Forall_forall in Hall.
    by apply Hall.
Qed.

(** X1.  For a name that has a tab button and a tab panel in the document,
    [switchTab] completes, makes the name the current tab and the URL
    fragment, scrolls the panel into view, and leaves exactly the chosen
    button and panel marked active: every other tab button and tab panel
    is unmarked. *)
Theorem switchTab_selects_exactly_one (w : World) (tabName : string) (b p : path) :
  Site.selector_safe tabName = true →
  tab_button tabName w = Some b → tab_panel tabName w = Some p →
  ∃ w', Site.switchTab tabName w = (Normal tt, w') ∧
        currentTab (this w') = tabName ∧
        location_hash (browser w') = "#" ++ tabName ∧
        scrolled (browser w') = p :: scrolled (browser w) ∧
        active_at b w' = true ∧ active_at p w' = true ∧
        (∀ q e, q ≠ b → q ≠ p → Dom.element_at q (doc w') = Some e →
                is_tab e = true → Dom.contains "active" e = false).
Proof.
  intros _ Hb Hp. exists (switched tabName b p w).
  destruct (switched_facts tabName b p w Hb Hp) as (H1 & H2 & H3).
  split_and!; try done. by apply switchTab_matched_run.
Qed.

Lemma switchTab_selects_exactly_one_witness :
  ∃ w', Site.switchTab "faq" Sample.w0 = (Normal tt, w') ∧
        currentTab (this w') = "faq" ∧
        location_hash (browser w') = "#faq" ∧
        scrolled (browser w') = [Scenario.faq_panel] ∧
        active_at Scenario.faq_button w' = true ∧ active_at Scenario.faq_panel w' = true ∧
        (∀ q e, q ≠ Scenario.faq_button → q ≠ Scenario.faq_panel →
                Dom.element_at q (doc w') = Some e →
                is_tab e = true → Dom.contains "active" e = false).
Proof.
  apply (switchTab_selects_exactly_one Sample.w0 "faq" Scenario.faq_button Scenario.faq_panel);
    reflexivity.
Defined.

Lemma initial_tab_valid w : initial_tab w = "general" ∨ initial_tab w = "faq".
Proof.
  unfold initial_tab, Site.includes, Site.validTabs. simpl.
  destruct (Str.truthy (fragment w)); simpl; [|by left].
  destruct (String.eqb_spec (fragment w) "general") as [->|_]; simpl; [by left|].
  destruct (String.eqb_spec (fragment w) "faq") as [->|_]; simpl; [by right | by left].
Qed.

(** X2.  [initializeActiveTab] always goes to one of the two known tabs:
    to 'faq' exactly when the URL fragment (the hash without its first
    character) is 'faq', to 'general' for every other fragment, the empty
    one included.  When that tab's button
    and panel are in the page it becomes the current tab and the fragment
    is rewritten to it. *)
Theorem initializeActiveTab_selects_known_tab (w : World) (b p : path) :
  tab_button (initial_tab w) w = Some b → tab_panel (initial_tab w) w = Some p →
  ∃ w', Site.initializeActiveTab w = (Normal tt, w') ∧
        currentTab (this w') = initial_tab w ∧
        location_hash (browser w') = "#" ++ initial_tab w ∧
        active_at b w' = true ∧ active_at p w' = true ∧
        (initial_tab w = "faq" ↔ fragment w = "faq") ∧
        (initial_tab w = "general" ∨ initial_tab w = "faq").
Proof.
  intros Hb Hp. exists (switched (initial_tab w) b p w).
  destruct (switched_facts _ b p w Hb Hp) as (H1 & H2 & _).
  split_and!; try done.
  - unfold Site.initializeActiveTab. cbv [mbind JS_bind gets].
    change (Str.substring1 (location_hash (browser w))) with (fragment w).
    pose proof (switchTab_matched_run (initial_tab w) b p w Hb Hp) as Hrun.
    unfold initial_tab in Hrun |- *.
    by destruct (Str.truthy (fragment w) && Site.includes Site.validTabs (fragment w)).
  - unfold initial_tab, Site.includes, Site.validTabs. simpl.
    destruct (Str.truthy (fragment w)) eqn:Ht; simpl.
    + destruct (String.eqb_spec (fragment w) "general") as [Hg|_]; simpl.
      { rewrite Hg. split; intros [=]. }
      destruct (String.eqb_spec (fragment w) "faq") as [Hf|Hne]; simpl; [done|].
      split; [intros [=] | done].
    + unfold Str.truthy in Ht. destruct (String.eqb_spec (fragment w) "") as [He|]; [|done].
      rewrite He. split; intros [=].
  - apply initial_tab_valid.
Qed.

Lemma initializeActiveTab_selects_known_tab_witness :
  ∃ w', Site.initializeActiveTab Scenario.w_bad_link = (Normal tt, w') ∧
        currentTab (this w') = "general" ∧
        location_hash (browser w') = "#general".
Proof.
  destruct (initializeActiveTab_selects_known_tab Scenario.w_bad_link
              Sample.general_button Sample.general_panel)
    as (w' & Hrun & Htab & Hhash & _); [reflexivity | reflexivity |].
  by exists w'.
Defined.

(** X3.  The [hashchange] listener ignores a fragment that names no known
    tab: the world, the active markers included, is left exactly as it was.
    For a known tab whose button and panel are in the page it selects that
    tab. *)
Theorem onHashChange_ignores_unknown (w : World) :
  (Site.includes Site.validTabs (fragment w) = false →
   Site.onHashChange w = (Normal tt, w)) ∧
  (∀ b p, Site.includes Site.validTabs (fragment w) = true →
          tab_button (fragment w) w = Some b → tab_panel (fragment w) w = Some p →
          ∃ w', Site.onHashChange w = (Normal tt, w') ∧
                currentTab (this w') = fragment w ∧
                active_at b w' = true ∧ active_at p w' = true).
Proof.
  unfold Site.onHashChange. cbv [mbind JS_bind gets when].
  change (Str.substring1 (location_hash (browser w))) with (fragment w).
  split.
  - intros ->. by rewrite andb_false_r.
  - intros b p Hv Hb Hp. rewrite Hv.
    assert (Str.truthy (fragment w) = true) as ->.
    { unfold Site.includes, Site.validTabs in Hv. simpl in Hv. unfold Str.truthy.
      destruct (String.eqb_spec (fragment w) ""); [|done]. by rewrite e in Hv. }
    simpl. exists (switched (fragment w) b p w).
    destruct (switched_facts _ b p w Hb Hp) as (H1 & H2 & _).
    split_and!; try done. by apply switchTab_matched_run.
Qed.

Lemma onHashChange_ignores_unknown_witness :
  Site.onHashChange Scenario.w_bad_link = (Normal tt, Scenario.w_bad_link) ∧
  ∃ w', Site.onHashChange Scenario.w_faq_link = (Normal tt, w') ∧
        currentTab (this w') = "faq" ∧
        active_at Scenario.faq_button w' = true ∧ active_at Scenario.faq_panel w' = true.
Proof.
  split.
  - apply (proj1 (onHashChange_ignores_unknown Scenario.w_bad_link)). reflexivity.
  - apply (proj2 (onHashChange_ignores_unknown Scenario.w_faq_link)
             Scenario.faq_button Scenario.faq_panel); reflexivity.
Defined.


End TabSelection.

(** ** Detection *)

Section Detection.

(** X4.  [detectScreen] always completes, records the viewport as it is,
    and puts every width in exactly one of the five breakpoint buckets;
    portrait and landscape exclude each other, and a square viewport is
    neither. *)
Theorem detectScreen_buckets_partition (w : World) :
  ∃ w', Site.detectScreen w = (Normal tt, w') ∧
        let sc := screenInfo (this w') in
        width sc = innerWidth (env (browser w)) ∧
        height sc = innerHeight (env (browser w)) ∧
        count_true (breakpoints sc) = 1%nat ∧
        isPortrait sc && isLandscape sc = false ∧
        (isPortrait sc || isLandscape sc = false ↔ width sc = height sc).
Proof.
  unfold Site.detectScreen. cbv [mbind JS_bind gets modify Api.console_log].
  eexists. split; [reflexivity|]. cbn.
  set (iw := innerWidth (env (browser w))). set (ih := innerHeight (env (browser w))).
  split_and!; try done.
  - unfold count_true.
    destruct (Z.ltb_spec iw 480), (Z.leb_spec 480 iw), (Z.ltb_spec iw 768),
      (Z.leb_spec 768 iw), (Z.ltb_spec iw 1024), (Z.leb_spec 1024 iw),
      (Z.ltb_spec iw 1200), (Z.leb_spec 1200 iw); simpl; try lia.
  - destruct (Z.ltb_spec iw ih), (Z.ltb_spec ih iw); simpl; try done; lia.
  - destruct (Z.ltb_spec iw ih), (Z.ltb_spec ih iw); simpl; split; try done; lia.
Qed.

Lemma strip_prefix_prefix t s r :
  Site.strip_prefix t s = Some r → String.prefix t s = true.
Proof.
  revert s. induction t as [|a t IH]; intros [|b s]; simpl; try done.
  destruct (Ascii.eqb_spec a b) as [->|]; [|done].
  intros H. destruct (Ascii.ascii_dec b b); [by eapply IH | done].
Qed.

Lemma android_not_mobile_includes s :
  Site.android_not_mobile s = true → Str.includes "android" s = true.
Proof.
  induction s as [|c s IH].
  - simpl. done.
  - intros H. change (Site.android_not_mobile (String c s)) with
      (match Site.strip_prefix "android" (String c s) with
       | Some rest => negb (Str.includes "mobile" (Site.first_line rest))
       | None => false
       end || Site.android_not_mobile s) in H.
    change (Str.includes "android" (String c s)) with
      (String.prefix "android" (String c s) || Str.includes "android" s).
    apply orb_true_iff in H as [H|H].
    + destruct (Site.strip_prefix "android" (String c s)) as [r|] eqn:Hr; [|done].
      by rewrite (strip_prefix_prefix _ _ _ Hr).
    + rewrite (IH H). apply orb_true_r.
Qed.

(** X5.  When [window.matchMedia] exists, [detectDevice] completes with a
    snapshot in which desktop is exactly "neither mobile nor tablet", also
    after the tablet refinement, and whose pixel ratio is a number other
    than zero. *)
Theorem detectDevice_desktop_is_the_rest (w : World) (mm : string → bool) :
  matchMedia (env (browser w)) = Some mm →
  ∃ w', Site.detectDevice w = (Normal tt, w') ∧
        let d := deviceInfo (this w') in
        isDesktop d = negb (isMobile d || isTablet d) ∧
        ∃ q, pixelRatio d = Some q ∧ Qeq_bool q 0 = false.
Proof.
  intros Hmm. unfold Site.detectDevice.
  cbv [mbind JS_bind gets Api.matchMedia_matches Api.deref modify when mret JS_ret
       Api.console_log].
  rewrite Hmm. cbn [isMobile].
  set (ua := Str.toLowerCase (userAgent (env (browser w)))).
  assert (Site.test_any (Site.MOBILE_WORDS ++ ["tablet"]) ua =
          Site.test_any Site.MOBILE_WORDS ua || Str.includes "tablet" ua) as Hall.
  { unfold Site.test_any. rewrite existsb_app. cbn [existsb]. by rewrite orb_false_r. }
  assert (Str.includes "ipad" ua = true → Site.test_any Site.MOBILE_WORDS ua = true) as Hipad.
  { intros H. unfold Site.test_any, Site.MOBILE_WORDS.
    cbn [existsb]. rewrite H. by rewrite !orb_true_r. }
  assert (Str.includes "android" ua = true → Site.test_any Site.MOBILE_WORDS ua = true) as Handroid.
  { intros H. unfold Site.test_any, Site.MOBILE_WORDS. cbn [existsb]. by rewrite H. }
  assert (∃ q, Some (if Qeq_bool (devicePixelRatio (env (browser w))) 0 then 1%Q
                     else devicePixelRatio (env (browser w))) = Some q
               ∧ Qeq_bool q 0 = false) as Hratio.
  { eexists. split; [reflexivity|].
    by destruct (Qeq_bool (devicePixelRatio (env (browser w))) 0) eqn:Hz. }
  assert (Site.test_any Site.MOBILE_WORDS ua = false →
          (Str.includes "ipad" ua || Site.android_not_mobile ua || Str.includes "tablet" ua)
          = Str.includes "tablet" ua) as Htab.
  { intros Hm. destruct (Str.includes "ipad" ua) eqn:Hi; [by rewrite Hipad in Hm|].
    destruct (Site.android_not_mobile ua) eqn:Ha; [|done].
    apply android_not_mobile_includes, Handroid in Ha. congruence. }
  clearbody ua.
  destruct (Site.test_any Site.MOBILE_WORDS ua) eqn:Hm.
  - destruct ((Site.TABLET_THRESHOLD <? innerWidth (env (browser w)))
              || (Site.TABLET_THRESHOLD <? innerHeight (env (browser w)))); cbn [andb];
      (eexists; split; [reflexivity|]);
      cbv zeta; cbn [deviceInfo this Upd.with_console Upd.with_deviceInfo isDesktop isMobile
                     isTablet pixelRatio browser];
      rewrite Hall; by split.
  - cbn [andb]. eexists. split; [reflexivity|].
    cbv zeta. cbn [deviceInfo this Upd.with_console Upd.with_deviceInfo isDesktop isMobile
                   isTablet pixelRatio browser].
    rewrite Hall, (Htab eq_refl). by split.
Qed.

Lemma detectDevice_desktop_is_the_rest_witness :
  ∃ w', Site.detectDevice Sample.w0 = (Normal tt, w') ∧
        let d := deviceInfo (this w') in
        isDesktop d = negb (isMobile d || isTablet d) ∧
        ∃ q, pixelRatio d = Some q ∧ Qeq_bool q 0 = false.
Proof.
  apply (detectDevice_desktop_is_the_rest Sample.w0 (λ _, false)). reflexivity.
Defined.

(** X6.  The hover query of [detectDevice] is not guarded: when
    [window.matchMedia] is missing, [detectDevice] raises a TypeError before
    it assigns anything, and the constructor, whose first step it is, raises
    with it, having only reset the controller's attributes. *)
Theorem detectDevice_needs_matchMedia (w : World) :
  matchMedia (env (browser w)) = None →
  Site.detectDevice w = (Throw (TypeError "window.matchMedia is not a function"), w) ∧
  (Site.constructor w).1 = Throw (TypeError "window.matchMedia is not a function") ∧
  browser (Site.constructor w).2 = browser w ∧
  this (Site.constructor w).2 = mkSite "light" "general" emptyDeviceInfo emptyScreenInfo.
Proof.
  intros Hmm.
  assert (∀ v, matchMedia (env (browser v)) = None →
               Site.detectDevice v =
               (Throw (TypeError "window.matchMedia is not a function"), v)) as Hthrow.
  { intros v Hv. unfold Site.detectDevice.
    cbv [mbind JS_bind gets Api.matchMedia_matches Api.deref throw]. by rewrite Hv. }
  split; [by apply Hthrow|].
  unfold Site.constructor, Site.init. cbv [mbind JS_bind modify].
  by rewrite Hthrow.
Qed.

Lemma detectDevice_needs_matchMedia_witness :
  Site.detectDevice Scenario.w_old_browser =
    (Throw (TypeError "window.matchMedia is not a function"), Scenario.w_old_browser) ∧
  (Site.constructor Scenario.w_old_browser).1 =
    Throw (TypeError "window.matchMedia is not a function").
Proof.
  destruct (detectDevice_needs_matchMedia Scenario.w_old_browser) as (H1 & H2 & _);
    [reflexivity | by split].
Defined.

End Detection.

(** ** Theme: what a toggle, a stored value and a system change do *)

Section ThemeMore.

Lemma body_transition_toggled w bp ip :
  body_ref w = Some bp → icon_ref w = Some ip →
  body_transition (toggled bp ip w) = Some THEME_TRANSITION.
Proof.
  intros Hb Hi. unfold toggled. cbv zeta.
  set (w1 := applied bp ip _).
  assert (body_ref w1 = Some bp) as Hb1 by (subst w1; by rewrite applied_body_ref).
  unfold body_transition.
  match goal with |- context [Upd.with_timers ?f ?n ?x] =>
    change (body_of (Upd.with_timers f n x)) with (body_of x) end.
  rewrite (body_of_update _ _ _ bp) by auto using setStyle_identity.
  destruct (body_of_Some _ _ Hb1) as [e ->]. rewrite decide_True by done.
  simpl. unfold Dom.getStyle. simpl. by rewrite lookup_insert_eq.
Qed.

(** X7.  From any in-memory theme, the enumerated ones or not, one
    [toggleTheme] (body and icon present) completes with a theme that is
    'light' or 'dark' ('dark' exactly when it was 'light'), applies it to
    the document, stores that same value under the theme key, and schedules
    one 300ms timer, leaving the animation transition on the body. *)
Theorem toggleTheme_normalises_and_persists (w : World) (bp ip : path) :
  body_ref w = Some bp → icon_ref w = Some ip →
  ∃ w', Site.toggleTheme w = (Normal tt, w') ∧
        currentTheme (this w') = (if String.eqb (currentTheme (this w)) "light"
                                  then "dark" else "light") ∧
        theme_applied w' ∧
        stored_theme w' = Some (currentTheme (this w')) ∧
        body_transition w' = Some THEME_TRANSITION ∧
        timers (browser w') =
          (timers (browser w) ++ [mkTimer (next_timer (browser w)) 300 CbClearTransition])%list.
Proof.
  intros Hb Hi. exists (toggled bp ip w).
  destruct (toggled_facts w bp ip Hb Hi) as (Ht & _ & _ & Happ & Hst).
  split_and!;
    [ by apply toggleTheme_run | exact Ht | exact Happ | by rewrite Ht
    | by apply body_transition_toggled | reflexivity ].
Qed.

Lemma toggleTheme_normalises_and_persists_witness :
  ∃ w', Site.toggleTheme Sample.w_blue = (Normal tt, w') ∧
        currentTheme (this w') = "dark" ∧
        theme_applied w' ∧
        stored_theme w' = Some (currentTheme (this w')) ∧
        body_transition w' = Some THEME_TRANSITION ∧
        timers (browser w') = [mkTimer 0 300 CbClearTransition].
Proof.
  apply (toggleTheme_normalises_and_persists Sample.w_blue [1%nat] [1%nat; 0%nat; 0%nat]);
    reflexivity.
Defined.

(** X8.  The timer [toggleTheme] schedules undoes the transition and
    nothing else: once its callback has run, the body's inline transition
    is the empty string again, while the theme, its marker, the icon and
    the stored key are as the toggle left them. *)
Theorem toggleTheme_transition_is_cleared (w : World) (bp ip : path) :
  body_ref w = Some bp → icon_ref w = Some ip →
  ∃ w1 w2, Site.toggleTheme w = (Normal tt, w1) ∧
           Site.run CbClearTransition (mkEvent [] "" false) w1 = (Normal tt, w2) ∧
           body_transition w1 = Some THEME_TRANSITION ∧
           body_transition w2 = Some "" ∧
           settings w2 = settings w1 ∧
           data_theme w2 = data_theme w1 ∧ icon_class w2 = icon_class w1.
Proof.
  intros Hb Hi.
  destruct (toggled_facts w bp ip Hb Hi) as (_ & Hb1 & Hi1 & _ & _).
  exists (toggled bp ip w),
    (Upd.with_document (Dom.update_at (Dom.setStyle "transition" "") bp) (toggled bp ip w)).
  split; [by apply toggleTheme_run|].
  split.
  { unfold Site.run, Site.onClearTransition.
    cbv [mbind JS_bind gets Api.document_body Api.mutate Api.deref modify mret JS_ret].
    unfold body_ref, doc in Hb1. by rewrite Hb1. }
  split; [by apply body_transition_toggled|].
  split_and!; try done.
  - unfold body_transition. rewrite (body_of_update _ _ _ bp) by auto using setStyle_identity.
    destruct (body_of_Some _ _ Hb1) as [e ->]. rewrite decide_True by done.
    simpl. unfold Dom.getStyle. simpl. by rewrite lookup_insert_eq.
  - by apply (data_theme_setStyle _ _ _ _ bp).
  - by apply (icon_class_setStyle _ _ _ _ ip).
Qed.

Lemma toggleTheme_transition_is_cleared_witness :
  ∃ w1 w2, Site.toggleTheme Sample.w0 = (Normal tt, w1) ∧
           Site.run CbClearTransition (mkEvent [] "" false) w1 = (Normal tt, w2) ∧
           body_transition w1 = Some THEME_TRANSITION ∧
           body_transition w2 = Some "" ∧
           settings w2 = settings w1 ∧
           data_theme w2 = data_theme w1 ∧ icon_class w2 = icon_class w1.
Proof.
  apply (toggleTheme_transition_is_cleared Sample.w0 [1%nat] [1%nat; 0%nat; 0%nat]);
    reflexivity.
Defined.

Lemma loadTheme_empty_item w :
  stored_theme w = Some "" →
  Site.loadTheme w =
  Site.applyTheme (if prefers_dark w then Upd.with_currentTheme "dark" w else w).
Proof.
  unfold stored_theme. intros Hs.
  unfold Site.loadTheme, mbind, JS_bind, Api.localStorage_getItem,
    Api.matchMedia_guarded, gets, prefers_dark. simpl.
  rewrite Hs. simpl.
  by destruct (matchMedia (env (browser w))) as [mm|]; [destruct (mm _)|].
Qed.

(** X9.  A stored theme wins over the system preference: with a non-empty
    string under the key, [loadTheme] makes it the current theme whatever
    the colour-scheme query says, applies it and stores it back unchanged.
    The empty string counts as nothing stored: the theme then follows the
    system preference (dark, or else whatever the attribute held) and the
    empty entry is overwritten with it. *)
Theorem loadTheme_stored_value_wins (w : World) (bp ip : path) (s : string) :
  body_ref w = Some bp → icon_ref w = Some ip →
  (stored_theme w = Some s → s ≠ "" →
   ∃ w', Site.loadTheme w = (Normal tt, w') ∧
         currentTheme (this w') = s ∧ theme_applied w' ∧ stored_theme w' = Some s) ∧
  (stored_theme w = Some "" →
   ∃ w', Site.loadTheme w = (Normal tt, w') ∧
         currentTheme (this w') =
           (if prefers_dark w then "dark" else currentTheme (this w)) ∧
         theme_applied w' ∧
         stored_theme w' = Some (currentTheme (this w'))).
Proof.
  intros Hb Hi.
  assert (∀ v, body_ref v = Some bp → icon_ref v = Some ip →
               Site.applyTheme v = (Normal tt, applied bp ip v) ∧
               theme_applied (applied bp ip v) ∧
               stored_theme (applied bp ip v) = Some (currentTheme (this v))) as Happly.
  { intros v Hvb Hvi. split_and!.
    - by apply applyTheme_run.
    - split; rewrite applied_this; [by apply applied_data_theme | by apply applied_icon_class].
    - apply applied_stored. }
  split.
  - intros Hs Hne. rewrite (loadTheme_stored w s) by done.
    destruct (Happly (Upd.with_currentTheme s w) Hb Hi) as (Hrun & Happ & Hst).
    by exists (applied bp ip (Upd.with_currentTheme s w)).
  - intros Hs. rewrite loadTheme_empty_item by done.
    set (w1 := if prefers_dark w then _ else _).
    assert (body_ref w1 = Some bp) as Hb1 by (subst w1; by destruct (prefers_dark w)).
    assert (icon_ref w1 = Some ip) as Hi1 by (subst w1; by destruct (prefers_dark w)).
    assert (currentTheme (this w1) = if prefers_dark w then "dark" else currentTheme (this w))
      as Ht by (subst w1; by destruct (prefers_dark w)).
    destruct (Happly w1 Hb1 Hi1) as (Hrun & Happ & Hst).
    exists (applied bp ip w1). rewrite applied_this. by rewrite <- Ht.
Qed.

Lemma loadTheme_stored_value_wins_witness :
  (∃ w', Site.loadTheme Scenario.w_stored_dark = (Normal tt, w') ∧
         currentTheme (this w') = "dark" ∧ theme_applied w' ∧
         stored_theme w' = Some "dark") ∧
  (∃ w', Site.loadTheme Scenario.w_stored_empty = (Normal tt, w') ∧
         currentTheme (this w') = "light" ∧ theme_applied w' ∧
         stored_theme w' = Some (currentTheme (this w'))).
Proof.
  split.
  - destruct (loadTheme_stored_value_wins Scenario.w_stored_dark [1%nat] [1%nat; 0%nat; 0%nat]
                "dark") as [H _]; [reflexivity | reflexivity |].
    apply H; [reflexivity | discriminate].
  - destruct (loadTheme_stored_value_wins Scenario.w_stored_empty [1%nat] [1%nat; 0%nat; 0%nat]
                "") as [_ H]; [reflexivity | reflexivity |].
    apply H. reflexivity.
Defined.

(** X10.  The system colour-scheme listener switches at most once.  With
    nothing (or the empty string) stored it takes the theme of the event,
    applies it, and stores it; the stored value then makes every later
    colour-scheme event a no-op. *)
Theorem onSchemeChange_switches_once (w : World) (bp ip : path) (e : Event) :
  Api.truthy_item (stored_theme w) = false →
  body_ref w = Some bp → icon_ref w = Some ip →
  ∃ w', Site.onSchemeChange e w = (Normal tt, w') ∧
        currentTheme (this w') = (if matches e then "dark" else "light") ∧
        theme_applied w' ∧
        stored_theme w' = Some (currentTheme (this w')) ∧
        ∀ e', Site.onSchemeChange e' w' = (Normal tt, w').
Proof.
  intros Hs Hb Hi.
  set (w1 := Upd.with_currentTheme (if matches e then "dark" else "light") w).
  exists (applied bp ip w1).
  assert (stored_theme (applied bp ip w1) = Some (if matches e then "dark" else "light"))
    as Hst by apply applied_stored.
  split_and!.
  - unfold Site.onSchemeChange.
    cbv [mbind JS_bind Api.localStorage_getItem gets when modify].
    change (localStorage (browser w) !! Site.THEME_KEY) with (stored_theme w).
    rewrite Hs. simpl. by apply applyTheme_run.
  - done.
  - split; rewrite applied_this; [by apply applied_data_theme | by apply applied_icon_class].
  - by rewrite Hst.
  - intros e'. unfold Site.onSchemeChange.
    cbv [mbind JS_bind Api.localStorage_getItem gets].
    change (localStorage (browser (applied bp ip w1)) !! Site.THEME_KEY)
      with (stored_theme (applied bp ip w1)).
    rewrite Hst. by destruct (matches e).
Qed.

Lemma onSchemeChange_switches_once_witness :
  ∃ w', Site.onSchemeChange (mkEvent [] "" true) Sample.w0 = (Normal tt, w') ∧
        currentTheme (this w') = "dark" ∧
        theme_applied w' ∧
        stored_theme w' = Some (currentTheme (this w')) ∧
        ∀ e', Site.onSchemeChange e' w' = (Normal tt, w').
Proof.
  apply (onSchemeChange_switches_once Sample.w0 [1%nat] [1%nat; 0%nat; 0%nat]
           (mkEvent [] "" true)); reflexivity.
Defined.

End ThemeMore.

(** ** Resize and orientation timers *)

Section Timers.

Lemma filter_keeps_all {A} (P : A → bool) (l : list A) :
  Forall (λ x, P x = true) l → List.filter P l = l.
Proof. induction 1 as [|x l Hx _ IH]; simpl; [done|]. by rewrite Hx, IH. Qed.

Lemma Forall_filter_kept {A} (P : A → Prop) (f : A → bool) (l : list A) :
  Forall P l → Forall P (List.filter f l).
Proof.
  induction 1 as [|x l Hx _ IH]; simpl; [constructor|].
  destruct (f x); [by constructor | done].
Qed.

Lemma resize_step w :
  Forall (λ t, (t_id t < next_timer (browser w))%nat) (timers (browser w)) →
  ∃ w', Site.run CbResize no_event w = (Normal tt, w') ∧
        timers (browser w') =
          (other_timers w ++ [resize_timer (next_timer (browser w))])%list ∧
        resizeTimeout (browser w') = Some (next_timer (browser w)) ∧
        next_timer (browser w') = S (next_timer (browser w)) ∧
        doc w' = doc w ∧ this w' = this w ∧ listeners (browser w') = listeners (browser w) ∧
        Forall (λ t, (t_id t < next_timer (browser w))%nat) (other_timers w).
Proof.
  intros Hfresh. unfold Site.run, other_timers.
  cbv [mbind JS_bind gets Api.clearTimeout Api.setTimeout modify mret JS_ret].
  destruct (resizeTimeout (browser w)) as [r|];
    (eexists; split; [reflexivity|]); cbn; split_and!; try done.
  by apply Forall_filter_kept.
Qed.

Lemma resize_many k : ∀ w,
  Forall (λ t, (t_id t < next_timer (browser w))%nat) (timers (browser w)) →
  ∃ w', repeat_js (S k) (Site.run CbResize no_event) w = (Normal tt, w') ∧
        timers (browser w') =
          (other_timers w ++ [resize_timer (next_timer (browser w) + k)])%list ∧
        resizeTimeout (browser w') = Some (next_timer (browser w) + k)%nat ∧
        doc w' = doc w ∧ this w' = this w ∧ listeners (browser w') = listeners (browser w).
Proof.
  induction k as [|k IH]; intros w Hfresh.
  - destruct (resize_step w Hfresh) as (w' & Hrun & Ht & Hr & _ & Hd & Hthis & Hl & _).
    exists w'. rewrite Nat.add_0_r. split_and!; try done.
    change (repeat_js 1 ?m) with (m;; (mret tt : JS unit)).
    cbv [mbind JS_bind]. by rewrite Hrun.
  - destruct (resize_step w Hfresh) as (w1 & Hrun & Ht & Hr & Hn & Hd & Hthis & Hl & Hold).
    assert (other_timers w1 = other_timers w) as Hsame.
    { unfold other_timers at 1. rewrite Hr, Ht, List.filter_app. simpl.
      rewrite Nat.eqb_refl. simpl. rewrite app_nil_r.
      apply filter_keeps_all. eapply Forall_impl; [exact Hold|]. simpl. intros t Hlt.
      apply negb_true_iff, Nat.eqb_neq. lia. }
    destruct (IH w1) as (w' & Hrun' & Ht' & Hr' & Hd' & Hthis' & Hl').
    { rewrite Ht, Hn. apply Forall_app. split.
      - eapply Forall_impl; [exact Hold|]. simpl. intros; lia.
      - repeat constructor. }
    exists w'. split_and!.
    + change (repeat_js (S (S k)) ?m) with (m;; repeat_js (S k) m).
      cbv [mbind JS_bind]. by rewrite Hrun.
    + rewrite Ht', Hsame, Hn. do 3 f_equal. lia.
    + rewrite Hr', Hn. f_equal. lia.
    + by rewrite Hd'.
    + by rewrite Hthis'.
    + by rewrite Hl'.
Qed.

(** X11.  The resize listener debounces, in every burst: whatever it
    remembers from its previous run (nothing, a re-detection still pending,
    or one that has fired), [k+1] resize events in a row cancel the
    remembered timer and each other's, so the queue ends with the other
    timers, untouched, plus one single 150ms re-detection, whose id the
    listener now remembers; nothing else in the world moves.  (The timer
    ids in the queue are those [setTimeout] has handed out.) *)
Theorem resize_bursts_leave_one_timer (k : nat) (w : World) :
  Forall (λ t, (t_id t < next_timer (browser w))%nat) (timers (browser w)) →
  ∃ w', repeat_js (S k) (Site.run CbResize no_event) w = (Normal tt, w') ∧
        timers (browser w') =
          (other_timers w ++ [mkTimer (next_timer (browser w) + k) 150 CbRedetect])%list ∧
        resizeTimeout (browser w') = Some (next_timer (browser w) + k)%nat ∧
        doc w' = doc w ∧ this w' = this w ∧ listeners (browser w') = listeners (browser w).
Proof.
  intros Hfresh. by apply resize_many.
Qed.

Lemma resize_bursts_leave_one_timer_witness :
  ∃ w', repeat_js 2 (Site.run CbResize no_event) w_resized = (Normal tt, w') ∧
        timers (browser w') = [mkTimer 2 150 CbRedetect] ∧
        resizeTimeout (browser w') = Some 2%nat ∧
        doc w' = doc w_resized ∧ this w' = this w_resized ∧
        listeners (browser w') = listeners (browser w_resized).
Proof.
  apply (resize_bursts_leave_one_timer 1 w_resized). repeat constructor.
Defined.

(** X12.  The orientation listener does not debounce: every
    orientationchange event queues its own 100ms re-detection, so [k] events
    leave [k] more timers, with consecutive ids. *)
Theorem orientation_changes_queue_each (k : nat) (w : World) :
  ∃ w', repeat_js k (Site.run CbOrientationChange no_event) w = (Normal tt, w') ∧
        timers (browser w') =
          (timers (browser w) ++
           List.map (λ i, mkTimer (next_timer (browser w) + i) 100 CbRedetect) (seq 0 k))%list ∧
        next_timer (browser w') = (next_timer (browser w) + k)%nat ∧
        doc w' = doc w ∧ this w' = this w.
Proof.
  revert w. induction k as [|k IH]; intros w.
  - exists w. simpl. rewrite app_nil_r, Nat.add_0_r. by split_and!.
  - set (w1 := Upd.with_timers
                 (λ l, (l ++ [mkTimer (next_timer (browser w)) 100 CbRedetect])%list)
                 (S (next_timer (browser w))) w).
    destruct (IH w1) as (w' & Hrun & Ht & Hn & Hd & Hthis).
    exists w'. split_and!.
    + change (repeat_js (S k) ?m) with (m;; repeat_js k m).
      unfold Site.run at 1.
      cbv [mbind JS_bind gets Api.setTimeout modify mret JS_ret]. exact Hrun.
    + rewrite Ht. cbn [timers browser w1 Upd.with_timers next_timer].
      rewrite <- app_assoc. f_equal. simpl. rewrite Nat.add_0_r. f_equal.
      rewrite <- seq_shift, List.map_map. apply map_ext. intros i. f_equal. lia.
    + rewrite Hn. cbn. lia.
    + by rewrite Hd.
    + by rewrite Hthis.
Qed.

End Timers.

(** ** The three replaceable blocks, run again and again *)

Section Injectors.

Lemma with_document_const f X w :
  f (doc w) = X → Upd.with_document f w = Upd.with_document (λ _, X) w.
Proof. intros H. by apply with_document_ext. Qed.

(** Injecting into a slot: whatever was there, the document afterwards is
    [d0] with the new block appended to its head. *)
Lemma replaceStyleBlock_slot i css h d0 W :
  block_slot i h d0 (doc W) →
  Site.replaceStyleBlock i css W =
  (Normal tt, Upd.with_document (λ _, Dom.appendChild (Site.styleElement i css) [h] d0) W).
Proof.
  intros (Hzero & Hhead & Hshape).
  assert (∃ hk, node_kids d0 !! h = Some hk) as [hk Hhk].
  { apply child_with_tag_Some in Hhead as (e & He & _).
    unfold Dom.element_at in He. simpl in He.
    destruct (node_kids d0 !! h) as [hk|]; [eauto | done]. }
  assert (∀ V n, doc V = d0 →
            Site.head_appendChild n V = (Normal tt, Upd.with_document (Dom.appendChild n [h]) V))
    as Happend.
  { intros V n HV. unfold Site.head_appendChild.
    cbv [mbind JS_bind gets Api.document_head Api.deref modify mret JS_ret].
    change (document (browser V)) with (doc V). by rewrite HV, Hhead. }
  unfold Site.replaceStyleBlock.
  destruct Hshape as [Hd | [css0 Hd]].
  - assert (Api.querySelector_id i W = (Normal None, W)) as Hq.
    { unfold Api.querySelector_id, gets. change (document (browser W)) with (doc W).
      by rewrite Hd, (find_first_absent _ _ Hzero). }
    cbv [mbind JS_bind]. rewrite Hq. cbv [mret JS_ret].
    rewrite (Happend W _ Hd). f_equal.
    apply with_document_const. by rewrite Hd.
  - destruct (appended_block_found i css0 h d0 hk Hzero Hhk) as [Hfind Hremove].
    set (p := [h; length (node_kids hk)]) in *.
    set (W1 := Upd.with_document (Dom.remove_at p) W).
    assert (doc W1 = d0) as Hdoc.
    { unfold W1, doc. cbn [document browser Upd.with_document].
      change (document (browser W)) with (doc W). by rewrite Hd. }
    assert (Api.querySelector_id i W = (Normal (Some p), W)) as Hq.
    { unfold Api.querySelector_id, gets. change (document (browser W)) with (doc W).
      by rewrite Hd, Hfind. }
    assert (Site.remove p W = (Normal tt, W1)) as Hrm by done.
    cbv [mbind JS_bind]. rewrite Hq, Hrm, (Happend W1 _ Hdoc). f_equal.
    unfold W1.
    change (Upd.with_document ?f (Upd.with_document ?g W))
      with (Upd.with_document (λ d, f (g d)) W).
    apply with_document_const. by rewrite Hd, Hremove.
Qed.

Lemma block_slot_filled i css h d0 d W :
  block_slot i h d0 d →
  block_slot i h d0
    (doc (Upd.with_document (λ _, Dom.appendChild (Site.styleElement i css) [h] d0) W)).
Proof. intros (? & ? & _). split_and!; try done. right. by exists css. Qed.

Lemma slot_count i css h d0 :
  Dom.count (Dom.hasId i) d0 = 0%nat → Api.child_with_tag "head" d0 = Some [h] →
  Dom.count (Dom.hasId i) (Dom.appendChild (Site.styleElement i css) [h] d0) = 1%nat.
Proof.
  intros Hzero Hhead. rewrite count_appendChild, Hzero.
  - unfold Site.styleElement. rewrite count_node.
    unfold Dom.hasId. simpl. rewrite lookup_insert_eq, String.eqb_refl.
    by change (count_in _ []) with 0%nat.
  - apply child_with_tag_Some in Hhead as (e & He & _).
    unfold Dom.element_at in He. by destruct (Dom.get_at [h] d0).
Qed.

Lemma adjustLayoutForScreen_run W :
  Site.adjustLayoutForScreen W = Site.replaceStyleBlock "layout-optimization" (layout_css W) W.
Proof. reflexivity. Qed.

Lemma adjustLayout_many n : ∀ h d0 W,
  block_slot "layout-optimization" h d0 (doc W) →
  ∃ W', repeat_js (S n) Site.adjustLayoutForScreen W = (Normal tt, W') ∧
        doc W' = Dom.appendChild (Site.styleElement "layout-optimization" (layout_css W)) [h] d0 ∧
        this W' = this W ∧ browser W' = browser (Upd.with_document (λ _, doc W') W).
Proof.
  induction n as [|n IH]; intros h d0 W Hslot.
  - eexists. split.
    + change (repeat_js 1 ?m) with (m;; (mret tt : JS unit)). cbv [mbind JS_bind].
      rewrite adjustLayoutForScreen_run, (replaceStyleBlock_slot _ _ h d0 W Hslot).
      reflexivity.
    + by split_and!.
  - set (W1 := Upd.with_document
                 (λ _, Dom.appendChild
                         (Site.styleElement "layout-optimization" (layout_css W)) [h] d0) W).
    destruct (IH h d0 W1) as (W' & Hrun & Hdoc & Hthis & Hb).
    { by eapply block_slot_filled. }
    exists W'. split_and!.
    + change (repeat_js (S (S n)) ?m) with (m;; repeat_js (S n) m). cbv [mbind JS_bind].
      rewrite adjustLayoutForScreen_run, (replaceStyleBlock_slot _ _ h d0 W Hslot).
      exact Hrun.
    + exact Hdoc.
    + exact Hthis.
    + rewrite Hb. reflexivity.
Qed.

(** X13.  [adjustLayoutForScreen] replaces its block: on a document that
    has a head and no element with id layout-optimization, any number of
    runs in a row ends like a single run, with exactly one such block, the
    last child of the head, holding the CSS for the current snapshots. *)
Theorem adjustLayoutForScreen_is_idempotent (n h : nat) (w : World) :
  blocks "layout-optimization" w = 0%nat → head_ref w = Some [h] →
  ∃ w', repeat_js (S n) Site.adjustLayoutForScreen w = (Normal tt, w') ∧
        doc w' = Dom.appendChild
                   (Site.styleElement "layout-optimization" (layout_css w)) [h] (doc w) ∧
        blocks "layout-optimization" w' = 1%nat ∧
        this w' = this w.
Proof.
  intros Hzero Hhead.
  destruct (adjustLayout_many n h (doc w) w) as (w' & Hrun & Hdoc & Hthis & _).
  { split_and!; [done | done | by left]. }
  exists w'. split_and!; try done.
  unfold blocks. rewrite Hdoc. by apply slot_count.
Qed.

Lemma adjustLayoutForScreen_is_idempotent_witness :
  ∃ w', repeat_js 3 Site.adjustLayoutForScreen Sample.w0 = (Normal tt, w') ∧
        doc w' = Dom.appendChild
                   (Site.styleElement "layout-optimization" (layout_css Sample.w0)) [0%nat]
                   (doc Sample.w0) ∧
        blocks "layout-optimization" w' = 1%nat ∧
        this w' = this Sample.w0.
Proof.
  apply (adjustLayoutForScreen_is_idempotent 2 0 Sample.w0); reflexivity.
Defined.

Lemma optimizePerformance_run W :
  Site.optimizePerformance W =
  if wants_less_motion W
  then Site.replaceStyleBlock "performance-optimization" Site.PERFORMANCE_CSS W
  else (Normal tt, W).
Proof.
  unfold Site.optimizePerformance, wants_less_motion, Site.prefersReducedMotion.
  cbv [mbind JS_bind gets Api.matchMedia_guarded when mret JS_ret].
  destruct (Site.num_le _ 1); simpl; [done|].
  destruct (connection (deviceInfo (this W))) as [c|]; simpl.
  - destruct (saveData c); simpl; [done|].
    by destruct (matchMedia (env (browser W))) as [mm|]; [destruct (mm _)|].
  - by destruct (matchMedia (env (browser W))) as [mm|]; [destruct (mm _)|].
Qed.

Lemma optimizePerformance_many n : ∀ h d0 W,
  wants_less_motion W = true →
  block_slot "performance-optimization" h d0 (doc W) →
  ∃ W', repeat_js (S n) Site.optimizePerformance W = (Normal tt, W') ∧
        doc W' = Dom.appendChild
                   (Site.styleElement "performance-optimization" Site.PERFORMANCE_CSS) [h] d0.
Proof.
  induction n as [|n IH]; intros h d0 W Hwant Hslot.
  - eexists. split.
    + change (repeat_js 1 ?m) with (m;; (mret tt : JS unit)). cbv [mbind JS_bind].
      rewrite optimizePerformance_run, Hwant, (replaceStyleBlock_slot _ _ h d0 W Hslot).
      reflexivity.
    + done.
  - set (W1 := Upd.with_document
                 (λ _, Dom.appendChild
                         (Site.styleElement "performance-optimization" Site.PERFORMANCE_CSS)
                         [h] d0) W).
    destruct (IH h d0 W1) as (W' & Hrun & Hdoc); [done | by eapply block_slot_filled |].
    exists W'. split; [|done].
    change (repeat_js (S (S n)) ?m) with (m;; repeat_js (S n) m). cbv [mbind JS_bind].
    rewrite optimizePerformance_run, Hwant, (replaceStyleBlock_slot _ _ h d0 W Hslot).
    exact Hrun.
Qed.

(** X14.  [optimizePerformance] only ever adds.  When the device is not
    low-end and no reduced motion is asked for, it changes nothing at all,
    so a block injected earlier stays in the document; when it does inject
    (document with a head and no such block), any number of runs leaves
    exactly one block with id performance-optimization. *)
Theorem optimizePerformance_adds_at_most_one (n h : nat) (w : World) :
  (wants_less_motion w = false → Site.optimizePerformance w = (Normal tt, w)) ∧
  (wants_less_motion w = true →
   blocks "performance-optimization" w = 0%nat → head_ref w = Some [h] →
   ∃ w', repeat_js (S n) Site.optimizePerformance w = (Normal tt, w') ∧
         blocks "performance-optimization" w' = 1%nat).
Proof.
  split.
  - intros Hno. by rewrite optimizePerformance_run, Hno.
  - intros Hwant Hzero Hhead.
    destruct (optimizePerformance_many n h (doc w) w Hwant) as (w' & Hrun & Hdoc).
    { split_and!; [done | done | by left]. }
    exists w'. split; [done|]. unfold blocks. rewrite Hdoc. by apply slot_count.
Qed.

Lemma optimizePerformance_adds_at_most_one_witness :
  Site.optimizePerformance Sample.w0 = (Normal tt, Sample.w0) ∧
  ∃ w', repeat_js 3 Site.optimizePerformance Scenario.w_desktop_detected = (Normal tt, w') ∧
        blocks "performance-optimization" w' = 1%nat.
Proof.
  split.
  - apply (proj1 (optimizePerformance_adds_at_most_one 0 0 Sample.w0)). reflexivity.
  - apply (proj2 (optimizePerformance_adds_at_most_one 2 0 Scenario.w_desktop_detected));
      reflexivity.
Defined.


Lemma collect_alter {A} (g : A → list path) (f : A → A) i h l :
  (∀ x, l !! h = Some x → g (f x) = g x) →
  Dom.collect g i (alter f h l) = Dom.collect g i l.
Proof.
  revert i h. induction l as [|x l IH]; intros i h Hg; [done|].
  destruct h as [|h]; simpl.
  - by rewrite (Hg x).
  - f_equal. apply IH. intros y Hy. by apply Hg.
Qed.

Lemma collect_app {A} (g : A → list path) i l l' :
  Dom.collect g i (l ++ l') = (Dom.collect g i l ++ Dom.collect g (i + length l) l')%list.
Proof.
  revert i. induction l as [|x l IH]; intros i; simpl.
  - by rewrite Nat.add_0_r.
  - rewrite IH, <- app_assoc. do 3 f_equal. lia.
Qed.

(** A childless element that is no target, appended to the head, changes
    nothing in what [querySelectorAll] returns. *)
Lemma select_appended P ce h d :
  (∀ anc, P anc ce = false) →
  Dom.select P [] (Dom.appendChild (El ce []) [h] d) = Dom.select P [] d.
Proof.
  intros Hno. destruct d as [r ks]. simpl. f_equal.
  apply collect_alter. intros [he hks] _. simpl. f_equal.
  rewrite collect_app. simpl. rewrite Hno. simpl. by rewrite app_nil_r.
Qed.

Lemma haptic_listeners_appended i css h d :
  haptic_listeners (Dom.appendChild (Site.styleElement i css) [h] d) = haptic_listeners d.
Proof. unfold haptic_listeners, Site.styleElement. by rewrite select_appended. Qed.

Lemma optimizeTouch_step h d0 W :
  hasTouch (deviceInfo (this W)) = true →
  block_slot "touch-optimization" h d0 (doc W) →
  ∃ W', Site.optimizeTouchInteractions W = (Normal tt, W') ∧
        doc W' = Dom.appendChild (Site.styleElement "touch-optimization" Site.TOUCH_CSS) [h] d0 ∧
        this W' = this W ∧
        listeners (browser W') =
          (listeners (browser W) ++
           if canVibrate (deviceInfo (this W)) then haptic_listeners d0 else [])%list.
Proof.
  intros Htouch Hslot. unfold Site.optimizeTouchInteractions.
  cbv [mbind JS_bind gets]. rewrite Htouch. cbn [negb].
  cbv [mbind JS_bind]. rewrite (replaceStyleBlock_slot _ _ h d0 W Hslot).
  destruct (canVibrate (deviceInfo (this W))) eqn:Hv;
    cbv [when mbind JS_bind gets modify mret JS_ret].
  - eexists. split; [reflexivity|]. split_and!; try done.
    cbn [listeners browser Upd.with_listeners Upd.with_document document].
    f_equal. apply haptic_listeners_appended.
  - eexists. split; [reflexivity|]. split_and!; try done.
    cbn. by rewrite app_nil_r.
Qed.

Lemma optimizeTouch_many n : ∀ h d0 W,
  hasTouch (deviceInfo (this W)) = true →
  block_slot "touch-optimization" h d0 (doc W) →
  ∃ W', repeat_js (S n) Site.optimizeTouchInteractions W = (Normal tt, W') ∧
        doc W' = Dom.appendChild (Site.styleElement "touch-optimization" Site.TOUCH_CSS) [h] d0 ∧
        listeners (browser W') =
          (listeners (browser W) ++
           concat (replicate (S n)
                     (if canVibrate (deviceInfo (this W)) then haptic_listeners d0 else [])))%list.
Proof.
  induction n as [|n IH]; intros h d0 W Htouch Hslot.
  - destruct (optimizeTouch_step h d0 W Htouch Hslot) as (W' & Hrun & Hdoc & Hthis & Hl).
    exists W'. split_and!; [|done|].
    + change (repeat_js 1 ?m) with (m;; (mret tt : JS unit)). cbv [mbind JS_bind].
      by rewrite Hrun.
    + rewrite Hl. simpl. by rewrite app_nil_r.
  - destruct (optimizeTouch_step h d0 W Htouch Hslot) as (W1 & Hrun & Hdoc & Hthis & Hl).
    destruct (IH h d0 W1) as (W' & Hrun' & Hdoc' & Hl').
    { by rewrite Hthis. }
    { destruct Hslot as (? & ? & _). split_and!; try done. right. eexists. exact Hdoc. }
    exists W'. split_and!; [|done|].
    + change (repeat_js (S (S n)) ?m) with (m;; repeat_js (S n) m). cbv [mbind JS_bind].
      by rewrite Hrun.
    + rewrite Hl', Hl, Hthis, <- app_assoc. reflexivity.
Qed.

(** X15.  [optimizeTouchInteractions] does nothing on a device without
    touch.  With touch it replaces its style block (one block after any
    number of runs) but registers its vibration listeners anew on every
    run: after [n+1] runs on a device that can vibrate, every tab button,
    theme toggle and FAQ heading carries [n+1] of them. *)
Theorem optimizeTouchInteractions_stacks_listeners (n h : nat) (w : World) :
  (hasTouch (deviceInfo (this w)) = false →
   Site.optimizeTouchInteractions w = (Normal tt, w)) ∧
  (hasTouch (deviceInfo (this w)) = true →
   blocks "touch-optimization" w = 0%nat → head_ref w = Some [h] →
   ∃ w', repeat_js (S n) Site.optimizeTouchInteractions w = (Normal tt, w') ∧
         blocks "touch-optimization" w' = 1%nat ∧
         listeners (browser w') =
           (listeners (browser w) ++
            concat (replicate (S n)
                      (if canVibrate (deviceInfo (this w))
                       then haptic_listeners (doc w) else [])))%list).
Proof.
  split.
  - intros Hno. unfold Site.optimizeTouchInteractions. cbv [mbind JS_bind gets].
    by rewrite Hno.
  - intros Htouch Hzero Hhead.
    destruct (optimizeTouch_many n h (doc w) w Htouch) as (w' & Hrun & Hdoc & Hl).
    { split_and!; [done | done | by left]. }
    exists w'. split_and!; try done.
    unfold blocks. rewrite Hdoc. by apply slot_count.
Qed.

Lemma optimizeTouchInteractions_stacks_listeners_witness :
  Site.optimizeTouchInteractions Sample.w0 = (Normal tt, Sample.w0) ∧
  ∃ w', repeat_js 2 Site.optimizeTouchInteractions Scenario.w_phone_detected = (Normal tt, w') ∧
        blocks "touch-optimization" w' = 1%nat ∧
        listeners (browser w') =
          (listeners (browser Scenario.w_phone_detected) ++
           concat (replicate 2
                     (if canVibrate (deviceInfo (this Scenario.w_phone_detected))
                      then haptic_listeners (doc Scenario.w_phone_detected) else [])))%list.
Proof.
  split.
  - apply (proj1 (optimizeTouchInteractions_stacks_listeners 0 0 Sample.w0)). reflexivity.
  - apply (proj2 (optimizeTouchInteractions_stacks_listeners 1 0 Scenario.w_phone_detected));
      reflexivity.
Defined.


End Injectors.

(** ** The clipboard fallback cleans up after itself, when nothing throws *)

Section ClipboardMore.

Lemma remove_at_cons i p n :
  p ≠ [] →
  Dom.remove_at (i :: p) n = El (node_element n) (alter (Dom.remove_at p) i (node_kids n)).
Proof. by destruct p. Qed.

Lemma remove_appended c bp d n :
  Dom.get_at bp d = Some n →
  Dom.remove_at (bp ++ [length (node_kids n)])%list (Dom.appendChild c bp d) = d.
Proof.
  revert d. induction bp as [|i bp IH]; intros [e ks].
  - simpl. intros [= <-]. simpl. f_equal. apply delete_last.
  - cbn [Dom.get_at node_kids]. destruct (ks !! i) as [k|] eqn:Hk; [|done]. intros Hn.
    change ((i :: bp) ++ [length (node_kids n)])%list
      with (i :: (bp ++ [length (node_kids n)]))%list.
    rewrite remove_at_cons by (by destruct bp).
    cbn [Dom.appendChild node_element node_kids]. f_equal.
    rewrite alter_compose. apply alter_fixed.
    intros x Hx. rewrite Hk in Hx. injection Hx as <-. by apply IH.
Qed.

(** X16.  On the fallback path with a body to attach to, a
    [copyToClipboard] whose [execCommand] returns leaves the document, the
    console and the theme settings exactly as they were: the textarea it
    appended is removed again.  When [execCommand] throws, the removal is
    skipped with the rest of the block, and the document keeps one textarea
    more than before. *)
Theorem copyToClipboard_fallback_cleans_up (text : string) (w : World) (bp : path) :
  fallback_only w → body_ref w = Some bp →
  (∀ b, execCommand_copy (env (browser w)) = Normal b →
        ∃ w', Util.copyToClipboard text w = (Normal b, w') ∧
              doc w' = doc w ∧ console (browser w') = console (browser w) ∧
              settings w' = settings w) ∧
  (∀ e, execCommand_copy (env (browser w)) = Throw e →
        textareas (Util.copyToClipboard text w).2 = S (textareas w)).
Proof.
  intros Hfb Hb.
  destruct (child_with_tag_Some _ _ _ Hb) as (eb & Heb & _).
  unfold Dom.element_at in Heb.
  destruct (Dom.get_at bp (doc w)) as [nb|] eqn:Hnb; [|done].
  assert (Util.copyToClipboard text w =
          match execCommand_copy (env (browser w)) with
          | Normal b =>
              (Normal b,
               Upd.with_document (Dom.remove_at (bp ++ [length (node_kids nb)])%list)
                 (Upd.with_document (Dom.appendChild (clipboard_textarea text) bp) w))
          | Throw e =>
              (Normal false,
               Upd.with_console (λ l, (l ++ ["Failed to copy text: "])%list)
                 (Upd.with_document (Dom.appendChild (clipboard_textarea text) bp) w))
          end) as Hrun.
  { unfold Util.copyToClipboard, try_catch, body_ref, doc in *.
    cbv [mbind JS_bind gets modify Util.lift Util.appendChild Api.document_body Api.deref
         Site.remove Api.console_log mret JS_ret throw].
    destruct Hfb as [-> | Hsec].
    - rewrite Hb. cbv beta iota. rewrite Hnb.
      by destruct (execCommand_copy (env (browser w))).
    - rewrite Hsec.
      destruct (clipboard (env (browser w))); rewrite Hb; cbv beta iota; rewrite Hnb;
        by destruct (execCommand_copy (env (browser w))). }
  rewrite Hrun. split.
  - intros b ->. eexists. split; [reflexivity|]. split_and!; try done.
    unfold doc. cbn [document browser Upd.with_document].
    by apply remove_appended.
  - intros e ->. unfold textareas, doc. cbn [snd document browser Upd.with_console
      Upd.with_document].
    rewrite count_appendChild by (fold (doc w); by rewrite Hnb).
    change (Dom.count _ (clipboard_textarea text)) with 1%nat. lia.
Qed.

Lemma copyToClipboard_fallback_cleans_up_witness :
  (∃ w', Util.copyToClipboard "GreenMax" Sample.w0 = (Normal true, w') ∧
         doc w' = doc Sample.w0 ∧ console (browser w') = console (browser Sample.w0) ∧
         settings w' = settings Sample.w0) ∧
  textareas (Util.copyToClipboard "GreenMax" Scenario.w_strict).2 = 1%nat.
Proof.
  split.
  - destruct (copyToClipboard_fallback_cleans_up "GreenMax" Sample.w0 [1%nat]) as [H _];
      [by left | reflexivity |]. by apply H.
  - destruct (copyToClipboard_fallback_cleans_up "GreenMax" Scenario.w_strict [1%nat])
      as [_ H]; [by left | reflexivity |].
    by apply (H (DOMException "NotAllowedError")).
Defined.

End ClipboardMore.

(** ** The accordion: items are independent, and how they are wired *)

Section FaqMore.

Lemma below_extends P item d q : Dom.below P item d = Some q → item `prefix_of` q.
Proof.
  unfold Dom.below. destruct (Dom.get_at item d) as [n|]; [|done].
  destruct (Dom.find_below P n) as [rel|]; [|done]. intros [= <-]. by exists rel.
Qed.

Lemma apart_neq a b p q :
  apart a b → a `prefix_of` p → b `prefix_of` q → p ≠ q.
Proof.
  intros [Hab Hba] [r1 ->] [r2 ->] Heq.
  assert (∀ (x y : path) s t, (x ++ s = y ++ t)%list → x `prefix_of` y ∨ y `prefix_of` x)
    as Htotal.
  { induction x as [|i x IH]; intros [|j y] s t H.
    - left. by exists [].
    - left. by exists (j :: y).
    - right. by exists (i :: x).
    - simpl in H. injection H as -> H. destruct (IH y s t H) as [[r ->] | [r ->]].
      + left. by exists r.
      + right. by exists r. }
  destruct (Htotal a b r1 r2 Heq); tauto.
Qed.

Lemma faq_toggled_elsewhere a w q :
  ¬ a `prefix_of` q →
  Dom.element_at q (doc (faq_toggled a w)) = Dom.element_at q (doc w).
Proof.
  intros Hq.
  assert (question_ref a w ≠ Some q) as Hqa
    by (intros H; apply below_extends in H; done).
  assert (answer_ref a w ≠ Some q) as Haa
    by (intros H; apply below_extends in H; done).
  assert (q ≠ a) as Hne by (intros ->; by apply Hq).
  unfold faq_toggled. destruct (active_at a w); cbv zeta;
    unfold doc; cbn [document browser Upd.with_document];
    rewrite !element_at_update_opt, element_at_update_at;
    rewrite !decide_False by done;
    by destruct (Dom.element_at q (document (browser w))).
Qed.

Lemma faq_toggled_refs a w b :
  question_ref b (faq_toggled a w) = question_ref b w ∧
  answer_ref b (faq_toggled a w) = answer_ref b w.
Proof.
  assert (keeps_faq (λ e, Dom.setStyle "maxHeight" (pretty (scrollHeight e) ++ "px") e))
    as Hgrow by done.
  unfold faq_toggled, question_ref, answer_ref.
  destruct (active_at a w); cbv zeta; unfold doc; cbn [document browser Upd.with_document];
    rewrite !below_update_opt, !below_update_at; try done;
    intros e; first [ by apply keeps_faq_tag, keeps_faq_classRemove
                    | by apply keeps_faq_tag, keeps_faq_classAdd
                    | by apply keeps_faq_answer, keeps_faq_classRemove
                    | by apply keeps_faq_answer, keeps_faq_classAdd
                    | done ].
Qed.

(** X17.  FAQ items are independent: toggling one item leaves the active
    class, the aria-expanded attribute and the answer's max-height of every
    item outside its subtree (and not around it) as they were, so several
    items can be open at once. *)
Theorem toggleFAQItem_leaves_other_items (w : World) (a b : path) :
  apart a b →
  ∃ w', Site.toggleFAQItem a w = (Normal tt, w') ∧
        active_at b w' = active_at b w ∧
        aria_expanded b w' = aria_expanded b w ∧
        max_height b w' = max_height b w.
Proof.
  intros Hapart. exists (faq_toggled a w). split; [apply toggleFAQItem_run|].
  destruct (faq_toggled_refs a w b) as [Hq Ha].
  assert (∀ q, b `prefix_of` q →
               Dom.element_at q (doc (faq_toggled a w)) = Dom.element_at q (doc w)) as Hsame.
  { intros q Hbq. apply faq_toggled_elsewhere. intros Haq.
    by apply (apart_neq a b q q Hapart Haq Hbq). }
  split_and!.
  - unfold active_at. by rewrite Hsame.
  - unfold aria_expanded. rewrite Hq.
    destruct (question_ref b w) as [q|] eqn:Hqb; [|done]. simpl.
    rewrite Hsame; [done|]. by eapply below_extends.
  - unfold max_height. rewrite Ha.
    destruct (answer_ref b w) as [q|] eqn:Hab; [|done]. simpl.
    rewrite Hsame; [done|]. by eapply below_extends.
Qed.

Lemma toggleFAQItem_leaves_other_items_witness :
  ∃ w', Site.toggleFAQItem Scenario.first_item Scenario.w_two_items = (Normal tt, w') ∧
        active_at Scenario.second_item w' = true ∧
        aria_expanded Scenario.second_item w' = Some "true" ∧
        max_height Scenario.second_item w' = None.
Proof.
  apply (toggleFAQItem_leaves_other_items Scenario.w_two_items
           Scenario.first_item Scenario.second_item).
  split; intros [r Hr]; discriminate.
Defined.

Lemma faq_setup_item_step item w :
  ∃ w', faq_setup_item item w = (Normal tt, w') ∧
        listeners (browser w') = (listeners (browser w) ++ faq_listeners w item)%list ∧
        (∀ it, question_ref it w' = question_ref it w) ∧
        (∀ q, Dom.element_at q (doc w') =
              (if decide (question_ref item w = Some q) then as_button else id)
                <$> Dom.element_at q (doc w)).
Proof.
  unfold faq_setup_item. cbv [mbind JS_bind gets Site.querySelector_in].
  change (Dom.below (Dom.hasTag "h4") item (document (browser w)))
    with (question_ref item w).
  unfold faq_listeners. destruct (question_ref item w) as [q|] eqn:Hq.
  - cbv [Api.addEventListener Api.mutate Api.deref modify mbind JS_bind mret JS_ret].
    eexists. split; [reflexivity|]. split_and!.
    + cbn. by rewrite <- app_assoc.
    + intros it. unfold question_ref, doc. cbn [document browser Upd.with_document
        Upd.with_listeners]. by rewrite !below_update_at.
    + intros q'. unfold doc. cbn [document browser Upd.with_document Upd.with_listeners].
      rewrite !element_at_update_at.
      destruct (decide (q' = q)) as [->|Hne].
      * rewrite decide_True by done. by destruct (Dom.element_at q _).
      * rewrite decide_False by congruence. by destruct (Dom.element_at q' _).
  - exists w. split_and!; try done.
    + by rewrite app_nil_r.
    + intros q'. by destruct (Dom.element_at q' _).
Qed.

Lemma faq_setup_item_sets k v item w w' :
  (∀ e, Dom.getAttribute k (as_button e) = Some v) →
  (∀ it, question_ref it w' = question_ref it w) →
  (∀ q, Dom.element_at q (doc w') =
        (if decide (question_ref item w = Some q) then as_button else id)
          <$> Dom.element_at q (doc w)) →
  heading_set k v item w' ∧ (∀ it, heading_set k v it w → heading_set k v it w').
Proof.
  intros Hk Hrefs Hel. unfold heading_set, heading_attr. split.
  - rewrite Hrefs. destruct (question_ref item w) as [q|] eqn:Hq; [|done].
    destruct (below_Some _ _ _ _ Hq) as (_ & e & He & _).
    cbn. rewrite Hel, decide_True by done. rewrite He. cbn. apply Hk.
  - intros it. rewrite Hrefs. destruct (question_ref it w) as [q|] eqn:Hq; [|done].
    cbn. rewrite Hel. destruct (Dom.element_at q (doc w)) as [e|]; [|done]. cbn.
    destruct (decide (question_ref item w = Some q)); [intros _; apply Hk | done].
Qed.

Lemma faq_setup_loop k v (L : list path) :
  (∀ e, Dom.getAttribute k (as_button e) = Some v) →
  ∀ w, ∃ w', Site.for_each L faq_setup_item w = (Normal tt, w') ∧
        listeners (browser w') =
          (listeners (browser w) ++ flat_map (faq_listeners w) L)%list ∧
        (∀ it, question_ref it w' = question_ref it w) ∧
        (∀ q, classList <$> Dom.element_at q (doc w') =
              classList <$> Dom.element_at q (doc w)) ∧
        (∀ it, it ∈ L → heading_set k v it w') ∧
        (∀ it, heading_set k v it w → heading_set k v it w').
Proof.
  intros Hk. induction L as [|item L IH]; intros w.
  - exists w. split_and!; try done.
    + simpl. by rewrite app_nil_r.
    + intros it Hin. by apply elem_of_nil in Hin.
  - destruct (faq_setup_item_step item w) as (w1 & Hrun1 & Hl1 & Hrefs1 & Hel1).
    destruct (faq_setup_item_sets k v item w w1 Hk Hrefs1 Hel1) as [Hset1 Hkeep1].
    destruct (IH w1) as (w' & Hrun & Hl & Hrefs & Hcls & Hset & Hkeep).
    exists w'. split_and!.
    + change (Site.for_each (item :: L) faq_setup_item)
        with (faq_setup_item item;; Site.for_each L faq_setup_item).
      cbv [mbind JS_bind]. by rewrite Hrun1.
    + rewrite Hl, Hl1, <- app_assoc. simpl. do 2 f_equal.
      apply flat_map_ext. intros it. unfold faq_listeners. by rewrite Hrefs1.
    + intros it. by rewrite Hrefs, Hrefs1.
    + intros q. rewrite Hcls, Hel1. destruct (Dom.element_at q (doc w)); [|done].
      by destruct (decide _).
    + intros it [->|Hin]%elem_of_cons; [by apply Hkeep | by apply Hset].
    + intros it Hit. by apply Hkeep, Hkeep1.
Qed.

(** X18.  [setupFAQInteractivity] never fails; it adds, in document order,
    one click and one keydown listener on the heading of every FAQ item
    that has one (and nothing for an item without), and afterwards each
    such heading is a focusable button marked collapsed, whatever the
    item's active class says. *)
Theorem setupFAQInteractivity_wires_every_item (w : World) :
  ∃ w', Site.setupFAQInteractivity w = (Normal tt, w') ∧
        listeners (browser w') =
          (listeners (browser w) ++ flat_map (faq_listeners w) (faq_items w))%list ∧
        ∀ item, item ∈ faq_items w →
          question_ref item w' = question_ref item w ∧
          heading_set "tabindex" "0" item w' ∧
          heading_set "role" "button" item w' ∧
          aria_expanded item w' = (λ _, "false") <$> question_ref item w ∧
          active_at item w' = active_at item w.
Proof.
  assert (∀ e, Dom.getAttribute "tabindex" (as_button e) = Some "0") as Ht.
  { intros e. unfold as_button, Dom.getAttribute, Dom.setAttribute. cbn [attributes].
    do 2 rewrite lookup_insert_ne by done. apply lookup_insert_eq. }
  assert (∀ e, Dom.getAttribute "role" (as_button e) = Some "button") as Hr.
  { intros e. unfold as_button, Dom.getAttribute, Dom.setAttribute. cbn [attributes].
    rewrite lookup_insert_ne by done. apply lookup_insert_eq. }
  assert (∀ e, Dom.getAttribute "aria-expanded" (as_button e) = Some "false") as Ha.
  { intros e. apply lookup_insert_eq. }
  destruct (faq_setup_loop _ _ (faq_items w) Ht w)
    as (w' & Hrun & Hl & Hrefs & Hcls & Hset & _).
  destruct (faq_setup_loop _ _ (faq_items w) Hr w) as (w2 & Hrun2 & _ & _ & _ & Hset2 & _).
  destruct (faq_setup_loop _ _ (faq_items w) Ha w) as (w3 & Hrun3 & _ & _ & _ & Hset3 & _).
  rewrite Hrun in Hrun2, Hrun3. injection Hrun2 as <-. injection Hrun3 as <-.
  exists w'. split_and!; [exact Hrun | exact Hl |].
  intros item Hin. split_and!; [apply Hrefs | by apply Hset | by apply Hset2 | |].
  - rewrite <- Hrefs. by apply Hset3.
  - unfold active_at, Dom.contains. specialize (Hcls item).
    destruct (Dom.element_at item (doc w')), (Dom.element_at item (doc w));
      simplify_eq/=; by rewrite ?Hcls.
Qed.

Lemma setupFAQInteractivity_wires_every_item_witness :
  ∃ w', Site.setupFAQInteractivity Sample.w0 = (Normal tt, w') ∧
        aria_expanded Sample.faq_item w' = Some "false" ∧
        heading_attr "role" Sample.faq_item w' = Some "button" ∧
        heading_attr "tabindex" Sample.faq_item w' = Some "0".
Proof.
  destruct (setupFAQInteractivity_wires_every_item Sample.w0) as (w' & Hrun & _ & Hitems).
  exists w'. split; [exact Hrun|].
  destruct (Hitems Sample.faq_item) as (Hq & Htab & Hrole & Haria & _).
  - change (faq_items Sample.w0) with [Sample.faq_item]. apply elem_of_cons. by left.
  - unfold heading_set in Htab, Hrole. rewrite Hq in Htab, Hrole.
    split_and!; [exact Haria | exact Hrole | exact Htab].
Defined.


End FaqMore.

(** ** Steps that keep a page ready *)

Section Triples.

Lemma total_skip (P : World → Prop) : total P (mret tt) (λ _, P).
Proof. intros w Hw. by exists tt, w. Qed.

Lemma total_gets {A} (P : World → Prop) (f : World → A) (Q : A → World → Prop) :
  (∀ w, P w → Q (f w) w) → total P (gets f) Q.
Proof. intros H w Hw. exists (f w), w. split; [done | by apply H]. Qed.

Lemma total_modify (P : World → Prop) f (Q : unit → World → Prop) :
  (∀ w, P w → Q tt (f w)) → total P (modify f) Q.
Proof. intros H w Hw. exists tt, (f w). split; [done | by apply H]. Qed.

Lemma total_bind {A B} (P : World → Prop) (m : JS A) (k : A → JS B) Q R :
  total P m Q → (∀ a, total (Q a) (k a) R) → total P (m ≫= k) R.
Proof.
  intros Hm Hk w Hw. destruct (Hm w Hw) as (a & w1 & Hrun & Hq).
  destruct (Hk a w1 Hq) as (b & w2 & Hrun2 & Hr).
  exists b, w2. split; [|done]. unfold mbind, JS_bind. by rewrite Hrun.
Qed.

Lemma total_pure {A} (φ : Prop) (P : World → Prop) (m : JS A) Q :
  (φ → total P m Q) → total (λ w, φ ∧ P w) m Q.
Proof. intros H w [Hφ Hw]. by apply H. Qed.

Lemma total_weaken {A} (P P' : World → Prop) (m : JS A) (Q : A → World → Prop) :
  (∀ w, P' w → P w) → total P m Q → total P' m Q.
Proof. intros HP H w Hw. apply H, HP, Hw. Qed.

Lemma total_when (P : World → Prop) b m :
  total P m (λ _, P) → total P (when b m) (λ _, P).
Proof. intros H. destruct b; [done | apply total_skip]. Qed.

End Triples.

Section PageFacts.

Context (bp : path) (h : nat) (io : option path).

Lemma classRemove_identity c : keeps_identity (Dom.classRemove c).
Proof. by intros e. Qed.

Lemma classRemoveAll_identity cs : keeps_identity (Dom.classRemoveAll cs).
Proof.
  unfold Dom.classRemoveAll. induction cs as [|c cs IH]; intros e; [done|].
  simpl. destruct (IH (Dom.classRemove c e)) as [-> ->]. done.
Qed.

Lemma first_in_app_none {A} (g : A → option path) i l x :
  g x = None → Dom.first_in g i (l ++ [x]) = Dom.first_in g i l.
Proof.
  intros Hx. revert i. induction l as [|y l IH]; intros i; simpl.
  - by rewrite Hx.
  - destruct (g y); [done | apply IH].
Qed.

Lemma find_first_appended P ce j d :
  P ce = false →
  Dom.find_first P (Dom.appendChild (El ce []) [j] d) = Dom.find_first P d.
Proof.
  intros Hce. destruct d as [r ks]. simpl. destruct (P r); [done|].
  apply first_in_alter. intros [he hks] _. simpl. destruct (P he); [done|].
  apply first_in_app_none. simpl. by rewrite Hce.
Qed.

Lemma element_at_appended b c j d :
  Dom.element_at [b] (Dom.appendChild c [j] d) = Dom.element_at [b] d.
Proof.
  destruct d as [r ks]. unfold Dom.element_at. simpl.
  destruct (decide (b = j)) as [->|Hne].
  - rewrite list_lookup_alter_eq. by destruct (ks !! j).
  - by rewrite list_lookup_alter_ne.
Qed.

Lemma body_of_doc w w' : doc w' = doc w → body_of w' = body_of w.
Proof. unfold body_of, body_ref. by intros ->. Qed.

Lemma body_of_block i css w : body_of (with_block i css h w) = body_of w.
Proof.
  unfold body_of, body_ref, with_block, doc. cbn [document browser Upd.with_document].
  rewrite child_with_tag_appendChild.
  unfold Api.child_with_tag.
  destruct (Api.index_where _ _) as [b|]; [|done]. simpl. apply element_at_appended.
Qed.

Lemma body_classes_update f p w :
  keeps_identity f → (∀ e, classList (f e) = classList e) → body_ref w = Some bp →
  body_classes (Upd.with_document (Dom.update_at f p) w) = body_classes w.
Proof.
  intros Hf Hc Hb. unfold body_classes. rewrite (body_of_update _ _ _ bp) by done.
  destruct (body_of w) as [e|]; [|done]. simpl. by destruct (decide (bp = p)); rewrite ?Hc.
Qed.

Lemma classList_classAdd c e : classList (Dom.classAdd c e) = class_add c (classList e).
Proof. unfold Dom.classAdd, class_add, Dom.contains. by destruct (existsb _ _). Qed.

Lemma classList_classRemoveAll cs e :
  classList (Dom.classRemoveAll cs e) = class_remove_all cs (classList e).
Proof.
  unfold Dom.classRemoveAll, class_remove_all. revert e.
  induction cs as [|c cs IH]; intros e; [done|]. simpl. by rewrite IH.
Qed.

Lemma ready_doc free w w' :
  doc w' = doc w → ready bp h io free w → ready bp h io free w'.
Proof. unfold ready, body_ref, head_ref, icon_ref, blocks. by intros ->. Qed.

Lemma ready_tail i free w : ready bp h io (i :: free) w → ready bp h io free w.
Proof. intros (Hb & Hh & Hi & Hz). split_and!; try done. by inversion Hz. Qed.

Lemma ready_update free f p w :
  keeps_identity f → ready bp h io free w →
  ready bp h io free (Upd.with_document (Dom.update_at f p) w).
Proof.
  intros Hf (Hb & Hh & Hi & Hz). split_and!.
  - by rewrite body_ref_update.
  - rewrite <- Hh. apply child_with_tag_update_at. intros e. apply Hf.
  - by rewrite icon_ref_update.
  - eapply Forall_impl; [exact Hz|]. intros i Hi0. rewrite <- Hi0.
    apply count_update_at. intros e. by apply keeps_identity_hasId.
Qed.

Lemma ready_block free i css w :
  String.eqb i "themeIcon" = false →
  Forall (λ j, String.eqb i j = false) free →
  ready bp h io (i :: free) w → ready bp h io free (with_block i css h w).
Proof.
  intros Hicon Hfree (Hb & Hh & Hi & Hz).
  assert (∀ j, Dom.hasId j (Dom.setAttribute "id" i
                 (Dom.setTextContent css (Dom.createElement "style"))) = String.eqb i j) as Hid.
  { intros j. unfold Dom.hasId. simpl. by rewrite lookup_insert_eq. }
  split_and!.
  - rewrite <- Hb. apply child_with_tag_appendChild.
  - rewrite <- Hh. apply child_with_tag_appendChild.
  - rewrite <- Hi. apply find_first_appended. by rewrite Hid.
  - inversion Hz as [|?? _ Hz']; subst. clear Hz.
    induction Hfree as [|j free Hj Hfree IH]; [constructor|].
    inversion Hz' as [|?? Hj0 Hz'']; subst. constructor; [|by apply IH].
    destruct (head_ref_kid w h Hh) as [hk Hhk].
    unfold blocks, with_block, doc in *. cbn [document browser Upd.with_document].
    rewrite count_appendChild by (simpl; by rewrite Hhk).
    rewrite Hj0. unfold Site.styleElement. rewrite count_node, Hid, Hj.
    by change (count_in _ []) with 0%nat.
Qed.

(** *** Steps that also leave the controller and the body's classes alone *)

Lemma kept_tail t cs i free w : kept bp h io t cs (i :: free) w → kept bp h io t cs free w.
Proof. intros (Hr & Ht & Hc). split_and!; try done. by eapply ready_tail. Qed.

Lemma S_gets {A} t cs free (f : World → A) :
  total (kept bp h io t cs free) (gets f) (λ _, kept bp h io t cs free).
Proof. by apply total_gets. Qed.

Lemma S_this {A} t cs free (g : GreenMaxWebsite → A) :
  total (kept bp h io t cs free) (gets (λ w, g (this w)))
        (λ a w, a = g t ∧ kept bp h io t cs free w).
Proof. apply total_gets. intros w Hw. split; [|done]. destruct Hw as (_ & -> & _). done. Qed.

Lemma S_quiet t cs free f :
  (∀ w, doc (f w) = doc w) → (∀ w, this (f w) = this w) →
  total (kept bp h io t cs free) (modify f) (λ _, kept bp h io t cs free).
Proof.
  intros Hd Ht. apply total_modify. intros w (Hr & Hthis & Hc). split_and!.
  - by eapply ready_doc; [|exact Hr].
  - by rewrite Ht.
  - unfold body_classes. by rewrite (body_of_doc w).
Qed.

Lemma S_body t cs free :
  total (kept bp h io t cs free) Api.document_body
        (λ a w, a = Some bp ∧ kept bp h io t cs free w).
Proof. apply total_gets. intros w Hw. split; [apply Hw | done]. Qed.

Lemma S_style t cs free what p f :
  keeps_identity f → (∀ e, classList (f e) = classList e) →
  total (kept bp h io t cs free) (Api.mutate what (Some p) f)
        (λ _, kept bp h io t cs free).
Proof.
  intros Hf Hc w (Hr & Ht & Hcs). exists tt, (Upd.with_document (Dom.update_at f p) w).
  split; [done|]. split_and!; [by apply ready_update | done |].
  rewrite body_classes_update; try done. apply Hr.
Qed.

Lemma S_class t cs free what f g :
  keeps_identity f → (∀ e, classList (f e) = g (classList e)) →
  total (kept bp h io t cs free) (Api.mutate what (Some bp) f)
        (λ _, kept bp h io t (g cs) free).
Proof.
  intros Hf Hg w (Hr & Ht & Hcs). exists tt, (Upd.with_document (Dom.update_at f bp) w).
  split; [done|]. split_and!; [by apply ready_update | done |].
  unfold body_classes in *. rewrite (body_of_update _ _ _ bp) by (done || apply Hr).
  rewrite decide_True by done.
  destruct (body_of w) as [e|]; [|done]. simpl in *. injection Hcs as <-. by rewrite Hg.
Qed.

Lemma S_replace t cs free i css :
  String.eqb i "themeIcon" = false →
  Forall (λ j, String.eqb i j = false) free →
  total (kept bp h io t cs (i :: free)) (Site.replaceStyleBlock i css)
        (λ _, kept bp h io t cs free).
Proof.
  intros Hicon Hfree w (Hr & Ht & Hcs). exists tt, (with_block i css h w). split.
  - destruct Hr as (_ & Hh & _ & Hz). apply replaceStyleBlock_fresh; [|done].
    by inversion Hz.
  - split_and!; [by apply ready_block | done |].
    unfold body_classes. by rewrite body_of_block.
Qed.

End PageFacts.

Create HintDb identity discriminated.

#[global] Hint Resolve classAdd_identity classRemove_identity classRemoveAll_identity
  setStyle_identity : identity.

Ltac hprim :=
  first
    [ apply S_body
    | apply S_style; [solve [auto with identity] | intros ?; reflexivity]
    | apply S_quiet; intros ?; reflexivity
    | apply S_gets ].

Ltac hstep :=
  cbv beta zeta;
  first
    [ lazymatch goal with
      | |- total (λ w, _ = _ ∧ _) _ _ => apply total_pure; intros ->
      end
    | hprim
    | apply total_skip
    | apply total_when
    | lazymatch goal with
      | |- total _ (match ?x with _ => _ end) _ => destruct x
      end
    | eapply total_bind; [|intros ?] ].

Ltac hoare := repeat hstep.

Section InterfaceSteps.

Context (bp : path) (h : nat) (io : option path).

Lemma S_optimizeTouch t cs free :
  Forall (λ j, String.eqb "touch-optimization" j = false) free →
  total (kept bp h io t cs ("touch-optimization" :: free)) Site.optimizeTouchInteractions
        (λ _, kept bp h io t cs free).
Proof.
  intros Hfree. unfold Site.optimizeTouchInteractions.
  eapply total_bind; [apply S_gets|]. intros d. cbv beta.
  destruct (negb (hasTouch d)).
  - eapply total_weaken; [apply kept_tail | apply total_skip].
  - eapply total_bind; [by apply S_replace|]. intros ?. hoare.
Qed.

Lemma S_optimizeScrolling t cs free :
  total (kept bp h io t cs free) Site.optimizeScrolling (λ _, kept bp h io t cs free).
Proof. unfold Site.optimizeScrolling. hoare. Qed.

Lemma S_optimizePerformance t cs free :
  Forall (λ j, String.eqb "performance-optimization" j = false) free →
  total (kept bp h io t cs ("performance-optimization" :: free)) Site.optimizePerformance
        (λ _, kept bp h io t cs free).
Proof.
  intros Hfree. unfold Site.optimizePerformance, Site.prefersReducedMotion,
    Api.matchMedia_guarded.
  eapply total_bind; [apply S_gets|]. intros d. cbv beta zeta.
  eapply total_bind; [hoare|]. intros [|]; cbv beta; unfold when.
  - by apply S_replace.
  - eapply total_weaken; [apply kept_tail | apply total_skip].
Qed.

Lemma S_adjustLayout t cs free :
  Forall (λ j, String.eqb "layout-optimization" j = false) free →
  total (kept bp h io t cs ("layout-optimization" :: free)) Site.adjustLayoutForScreen
        (λ _, kept bp h io t cs free).
Proof.
  intros Hfree. unfold Site.adjustLayoutForScreen.
  eapply total_bind; [apply S_gets|]. intros d.
  eapply total_bind; [apply S_gets|]. intros sc. cbv beta zeta.
  by apply S_replace.
Qed.

Lemma S_add t cs free what c :
  total (kept bp h io t cs free) (Api.mutate what (Some bp) (Dom.classAdd c))
        (λ _, kept bp h io t (class_add c cs) free).
Proof. apply S_class; [apply classAdd_identity | apply classList_classAdd]. Qed.

Lemma S_removeAll t cs free what rs :
  total (kept bp h io t cs free) (Api.mutate what (Some bp) (Dom.classRemoveAll rs))
        (λ _, kept bp h io t (class_remove_all rs cs) free).
Proof. apply S_class; [apply classRemoveAll_identity | apply classList_classRemoveAll]. Qed.

Lemma S_optimizeInterface t cs :
  total (kept bp h io t cs BLOCK_IDS) Site.optimizeInterface
        (λ _, kept bp h io t (final_classes t cs) []).
Proof.
  unfold Site.optimizeInterface, BLOCK_IDS, final_classes.
  eapply total_bind; [apply S_body|]. intros body. cbv beta.
  apply total_pure. intros ->.
  eapply total_bind; [apply (S_this _ _ _ _ _ _ deviceInfo)|]. intros d. cbv beta.
  apply total_pure. intros ->.
  eapply total_bind; [apply (S_this _ _ _ _ _ _ screenInfo)|]. intros sc. cbv beta.
  apply total_pure. intros ->. cbv zeta.
  eapply total_bind; [apply S_removeAll|]. intros ?. cbv beta.
  eapply total_bind; [apply S_add|]. intros ?. cbv beta.
  eapply total_bind; [apply S_add|]. intros ?. cbv beta.
  eapply total_bind; [apply S_add|]. intros ?. cbv beta.
  eapply total_bind; [apply S_removeAll|]. intros ?. cbv beta.
  eapply total_bind; [apply S_add|]. intros ?. cbv beta.
  eapply total_bind; [apply S_optimizeTouch; by repeat constructor|]. intros ?. cbv beta.
  eapply total_bind; [apply S_optimizeScrolling|]. intros ?. cbv beta.
  eapply total_bind; [apply S_optimizePerformance; by repeat constructor|]. intros ?. cbv beta.
  apply S_adjustLayout. constructor.
Qed.

End InterfaceSteps.

(** ** The classes [optimizeInterface] leaves on the body *)

Section BodyClasses.

Lemma filter_twice {A} (P Q : A → bool) l :
  List.filter P (List.filter Q l) = List.filter (λ x, Q x && P x) l.
Proof.
  induction l as [|x l IH]; [done|]. simpl.
  destruct (Q x); simpl; [|done]. destruct (P x); by rewrite IH.
Qed.

Lemma class_remove_all_filter rs l :
  class_remove_all rs l = List.filter (λ x, negb (Site.includes rs x)) l.
Proof.
  unfold class_remove_all, Site.includes. revert l.
  induction rs as [|c rs IH]; intros l; simpl.
  - induction l as [|x l IHl]; [done|]. simpl. by f_equal.
  - rewrite IH, filter_twice. apply List.filter_ext. intros x.
    by rewrite negb_orb, (String.eqb_sym c x).
Qed.

Lemma existsb_filter_out (P : string → bool) c l :
  P c = false → existsb (String.eqb c) (List.filter P l) = false.
Proof.
  intros Hc. induction l as [|x l IH]; [done|]. simpl.
  destruct (P x) eqn:Hx; [|done]. simpl. rewrite IH, orb_false_r.
  destruct (String.eqb_spec c x) as [->|]; [congruence | done].
Qed.

Lemma class_add_fresh c l : existsb (String.eqb c) l = false → class_add c l = (l ++ [c])%list.
Proof. unfold class_add. by intros ->. Qed.

Lemma classes_shape dev touch orient size cs :
  Site.includes Site.DEVICE_CLASSES dev = true →
  Site.includes Site.DEVICE_CLASSES touch = true →
  Site.includes Site.DEVICE_CLASSES orient = true →
  Site.includes Site.SIZE_CLASSES dev = false →
  Site.includes Site.SIZE_CLASSES touch = false →
  Site.includes Site.SIZE_CLASSES orient = false →
  Site.includes Site.SIZE_CLASSES size = true →
  String.eqb touch dev = false → String.eqb orient dev = false →
  String.eqb orient touch = false →
  String.eqb size dev = false → String.eqb size touch = false →
  String.eqb size orient = false →
  class_add size
    (class_remove_all Site.SIZE_CLASSES
       (class_add orient (class_add touch (class_add dev
          (class_remove_all Site.DEVICE_CLASSES cs))))) =
  (List.filter (λ c, negb (managed c)) cs ++ [dev; touch; orient; size])%list.
Proof.
  intros Hd Ht Ho Hsd Hst Hso Hs Htd Hod Hot Hzd Hzt Hzo.
  rewrite !class_remove_all_filter.
  set (PD := λ x, negb (Site.includes Site.DEVICE_CLASSES x)).
  set (PS := λ x, negb (Site.includes Site.SIZE_CLASSES x)).
  set (L1 := List.filter PD cs).
  assert (∀ c, Site.includes Site.DEVICE_CLASSES c = true →
               existsb (String.eqb c) L1 = false) as Hout.
  { intros c Hc. apply existsb_filter_out. unfold PD. by rewrite Hc. }
  rewrite (class_add_fresh dev L1) by by apply Hout.
  rewrite (class_add_fresh touch)
    by (rewrite existsb_app, Hout by done; cbn [existsb]; by rewrite Htd).
  rewrite (class_add_fresh orient)
    by (rewrite !existsb_app, Hout by done; cbn [existsb]; by rewrite Hod, Hot).
  rewrite !List.filter_app. cbn [List.filter]. unfold PS at 2 3 4.
  rewrite Hsd, Hst, Hso. cbn [negb].
  rewrite (class_add_fresh size).
  - rewrite <- !app_assoc. cbn [app]. f_equal.
    unfold L1. rewrite filter_twice. apply List.filter_ext. intros x.
    unfold PD, PS, managed, Site.includes. by rewrite existsb_app, negb_orb.
  - rewrite !existsb_app. cbn [existsb]. rewrite Hzd, Hzt, Hzo.
    rewrite existsb_filter_out; [done|]. unfold PS. by rewrite Hs.
Qed.

Lemma final_classes_shape t cs :
  final_classes t cs =
  (List.filter (λ c, negb (managed c)) cs ++ responsive_classes t)%list.
Proof.
  unfold final_classes, responsive_classes.
  apply classes_shape;
    unfold device_class, touch_class, orientation_class, size_class;
    repeat match goal with |- context [if ?b then _ else _] => destruct b end;
    reflexivity.
Qed.

End BodyClasses.

(** X21.  On a page with a head and a body on which the three block ids
    are not in use, [optimizeInterface] completes and leaves on the body
    the classes it found there, minus every device, touch, orientation and
    size class, followed by exactly one class of each of the four kinds,
    the ones the detected device and screen call for; the controller's
    attributes are untouched. *)
Theorem optimizeInterface_sets_body_classes
        (w : World) (bp : path) (h : nat) (io : option path) :
  ready bp h io BLOCK_IDS w →
  ∃ w', Site.optimizeInterface w = (Normal tt, w') ∧
        this w' = this w ∧
        body_classes w' =
          (λ cs, (List.filter (λ c, negb (managed c)) cs ++ responsive_classes (this w))%list)
            <$> body_classes w.
Proof.
  intros Hw. destruct (body_of_Some w bp) as [e He]; [apply Hw|].
  destruct (S_optimizeInterface bp h io (this w) (classList e) w)
    as ([] & w' & Hrun & _ & Ht & Hc).
  { split_and!; try done. unfold body_classes. by rewrite He. }
  exists w'. split_and!; try done.
  rewrite Hc, final_classes_shape. unfold body_classes. by rewrite He.
Qed.

Lemma optimizeInterface_sets_body_classes_witness :
  ∃ w', Site.optimizeInterface Scenario.w_classed = (Normal tt, w') ∧
        this w' = this Scenario.w_classed ∧
        body_classes w' =
          Some ["page"; "device-desktop"; "no-touch"; "orientation-landscape"; "screen-xl"].
Proof.
  apply (optimizeInterface_sets_body_classes Scenario.w_classed [1%nat] 0 None).
  split_and!; try reflexivity. by repeat constructor.
Defined.

(** ** Recovering from a low battery *)

Section BatteryRecovery.

Lemma get_at_cons i p d :
  Dom.get_at (i :: p) d =
  match node_kids d !! i with Some k => Dom.get_at p k | None => None end.
Proof. done. Qed.

Lemma count_in_delete P i ks k :
  ks !! i = Some k → (count_in P (delete i ks) + Dom.count P k = count_in P ks)%nat.
Proof.
  revert i. induction ks as [|x ks IH]; intros i Hk; [done|].
  destruct i as [|i]; simpl in *.
  - injection Hk as ->. rewrite count_in_cons. lia.
  - rewrite !count_in_cons. specialize (IH i Hk). lia.
Qed.

Lemma count_in_alter_minus P g i ks k (δ : nat) :
  ks !! i = Some k →
  (Dom.count P (g k) + δ = Dom.count P k)%nat →
  (count_in P (alter g i ks) + δ = count_in P ks)%nat.
Proof.
  revert i. induction ks as [|x ks IH]; intros i Hk Hg; [done|].
  destruct i as [|i]; simpl in *.
  - injection Hk as ->. rewrite !count_in_cons. lia.
  - rewrite !count_in_cons. specialize (IH i Hk Hg). unfold alter in IH. lia.
Qed.

(** Removing a subtree takes its elements, and no others, out of a count. *)
Lemma count_remove_at P p d n :
  p ≠ [] → Dom.get_at p d = Some n →
  (Dom.count P (Dom.remove_at p d) + Dom.count P n = Dom.count P d)%nat.
Proof.
  revert d. induction p as [|i p IH]; intros [e ks] Hne; [done|].
  destruct p as [|j q].
  - rewrite get_at_cons. cbn [node_kids Dom.get_at Dom.remove_at node_element].
    destruct (ks !! i) as [k|] eqn:Hk; [|done]. intros [= <-].
    rewrite !count_node. pose proof (count_in_delete P i ks k Hk). lia.
  - rewrite get_at_cons, remove_at_cons by done. cbn [node_kids node_element].
    destruct (ks !! i) as [k|] eqn:Hk; [|done]. intros Hget.
    rewrite !count_node.
    pose proof (count_in_alter_minus P (Dom.remove_at (j :: q)) i ks k (Dom.count P n) Hk
                  (IH k ltac:(done) Hget)).
    lia.
Qed.

Lemma first_in_inv {A} (g : A → option path) i l p :
  Dom.first_in g i l = Some p →
  ∃ j x q, p = (i + j)%nat :: q ∧ l !! j = Some x ∧ g x = Some q ∧
           ∀ j' y, (j' < j)%nat → l !! j' = Some y → g y = None.
Proof.
  revert i. induction l as [|x l IH]; intros i; simpl; [done|].
  destruct (g x) as [q|] eqn:Hg.
  - intros [= <-]. exists 0%nat, x, q. split_and!; [f_equal; lia | done | done |].
    intros; lia.
  - intros H. destruct (IH _ H) as (j & y & q & -> & Hy & Hgy & Hbefore).
    exists (S j), y, q. split_and!; [f_equal; lia | done | done |].
    intros [|j'] z Hlt Hz; simpl in Hz; [by injection Hz as <-|].
    eapply Hbefore; [|done]. lia.
Qed.

Lemma first_in_app_some {A} (g : A → option path) i l l' p :
  Dom.first_in g i l = Some p → Dom.first_in g i (l ++ l') = Some p.
Proof.
  revert i. induction l as [|x l IH]; intros i; simpl; [done|].
  destruct (g x); [done | apply IH].
Qed.

(** A first match inside the head stays the first match when a child is
    appended to the head. *)
Lemma find_first_appended_kept P c h q d :
  Dom.find_first P d = Some (h :: q) →
  Dom.find_first P (Dom.appendChild c [h] d) = Some (h :: q).
Proof.
  destruct d as [r ks]. simpl. destruct (P r); [done|]. intros H.
  apply first_in_inv in H as (j & x & q' & Heq & Hx & Hg & Hbefore).
  simpl in Heq. injection Heq as -> ->.
  apply (first_in_at _ 0%nat _ j (El (node_element x) (node_kids x ++ [c])) q').
  - intros j' y Hlt Hy. rewrite list_lookup_alter_ne in Hy by lia. by eapply Hbefore.
  - by rewrite list_lookup_alter_eq, Hx.
  - destruct x as [xe xks]. simpl in *. destruct (P xe); [done|].
    by apply first_in_app_some.
Qed.

Lemma get_at_appended c h k q d n :
  Dom.get_at (h :: k :: q) d = Some n →
  Dom.get_at (h :: k :: q) (Dom.appendChild c [h] d) = Some n.
Proof.
  destruct d as [r ks]. rewrite !get_at_cons.
  cbn [Dom.appendChild node_kids node_element]. rewrite list_lookup_alter_eq.
  destruct (ks !! h) as [[xe xks]|]; [|done]. cbn [fmap option_fmap option_map].
  rewrite !get_at_cons. cbn [node_kids].
  destruct (xks !! k) as [y|] eqn:Hk; [|done].
  by rewrite (lookup_app_l_Some _ _ _ _ Hk).
Qed.

Lemma get_at_update_top f b i j q d :
  Dom.get_at (i :: j :: q) (Dom.update_at f [b] d) = Dom.get_at (i :: j :: q) d.
Proof.
  destruct d as [r ks]. rewrite !get_at_cons. cbn [Dom.update_at node_kids node_element].
  destruct (decide (i = b)) as [->|Hne].
  - rewrite list_lookup_alter_eq. destruct (ks !! b) as [x|]; [|done].
    cbn [fmap option_fmap option_map]. by rewrite !get_at_cons.
  - by rewrite list_lookup_alter_ne.
Qed.

Lemma body_ref_inv w bp : body_ref w = Some bp → ∃ b, bp = [b].
Proof.
  unfold body_ref, Api.child_with_tag.
  destruct (Api.index_where _ _) as [i|]; simpl; [|done]. intros [= <-]. eauto.
Qed.

Lemma child_with_tag_removed t h k d :
  Api.child_with_tag t (Dom.remove_at [h; k] d) = Api.child_with_tag t d.
Proof.
  destruct d as [r ks]. unfold Api.child_with_tag. simpl. f_equal.
  apply index_where_alter. by intros [xe xks].
Qed.

Lemma element_at_removed b h k d :
  Dom.element_at [b] (Dom.remove_at [h; k] d) = Dom.element_at [b] d.
Proof.
  destruct d as [r ks]. unfold Dom.element_at. simpl.
  destruct (decide (b = h)) as [->|Hne].
  - rewrite list_lookup_alter_eq. by destruct (ks !! h).
  - by rewrite list_lookup_alter_ne.
Qed.

Lemma drained_first_block bp h k0 w :
  first_block bp h k0 w → first_block bp h k0 (drained bp [h] w).
Proof.
  intros (Hb & Hh & Hfind & Hget).
  destruct (drained_facts w bp [h] Hb Hh) as (_ & Hb1 & Hh1 & _).
  destruct (body_ref_inv w bp Hb) as [b ->].
  split_and!; [done | done | |].
  - unfold drained, doc. cbn [document browser Upd.with_document].
    apply find_first_appended_kept.
    rewrite find_first_update_at; [done|].
    intros e. apply keeps_identity_hasId, classAdd_identity.
  - unfold drained, doc. cbn [document browser Upd.with_document].
    apply get_at_appended. by rewrite get_at_update_top.
Qed.

Lemma drained_starts bp h w :
  body_ref w = Some bp → head_ref w = Some [h] →
  blocks "battery-optimization" w = 0%nat →
  ∃ k0, first_block bp h k0 (drained bp [h] w).
Proof.
  intros Hb Hh Hzero.
  destruct (drained_facts w bp [h] Hb Hh) as (_ & Hb1 & Hh1 & _).
  set (w1 := Upd.with_document (Dom.update_at (Dom.classAdd "low-battery") bp) w).
  assert (head_ref w1 = Some [h]) as Hhw1.
  { etrans; [|exact Hh]. apply child_with_tag_update_at.
    intros e. apply classAdd_identity. }
  destruct (head_ref_kid w1 h Hhw1) as [hk Hhk].
  assert (Dom.count (Dom.hasId "battery-optimization") (doc w1) = 0%nat) as Hz1.
  { unfold w1, doc. cbn [document browser Upd.with_document].
    rewrite count_update_at; [exact Hzero|].
    intros e. apply keeps_identity_hasId, classAdd_identity. }
  destruct (appended_block_found "battery-optimization" Site.BATTERY_CSS h (doc w1) hk Hz1 Hhk)
    as [Hfind _].
  exists (length (node_kids hk)). split_and!; [done | done | exact Hfind |].
  change (doc (drained bp [h] w)) with (Dom.appendChild BATTERY_BLOCK [h] (doc w1)).
  destruct (doc w1) as [r ks]. simpl in Hhk. rewrite !get_at_cons.
  cbn [Dom.appendChild node_kids node_element]. rewrite list_lookup_alter_eq, Hhk.
  cbn [fmap option_fmap option_map]. rewrite get_at_cons. cbn [node_kids].
  by rewrite list_lookup_middle.
Qed.

Lemma low_many bp h k0 b n : ∀ w,
  battery (env (browser w)) = Some b → Site.battery_low b = true →
  first_block bp h k0 w →
  ∃ w', repeat_js n Site.optimizeForBattery w = (Normal tt, w') ∧
        first_block bp h k0 w' ∧
        blocks "battery-optimization" w' = (blocks "battery-optimization" w + n)%nat.
Proof.
  induction n as [|n IH]; intros w Hbat Hlow Hw.
  - exists w. split_and!; [done | done | lia].
  - pose proof Hw as (Hb & Hh & _).
    destruct (drained_facts w bp [h] Hb Hh) as (Henv & _ & _ & Hcount).
    destruct (IH (drained bp [h] w)) as (w' & Hrun & Hw' & Hblocks).
    { by rewrite Henv. } { done. } { by apply drained_first_block. }
    exists w'. split_and!; [|done|].
    + unfold repeat_js in *. simpl. cbv [mbind JS_bind].
      rewrite (optimizeForBattery_low w b bp [h]) by done. exact Hrun.
    + rewrite Hblocks, Hcount. lia.
Qed.

Lemma recovery_run bp h k0 b w :
  battery (env (browser w)) = Some b → Site.battery_low b = false →
  first_block bp h k0 w →
  ∃ w', Site.optimizeForBattery w = (Normal tt, w') ∧
        (blocks "battery-optimization" w' + 1 = blocks "battery-optimization" w)%nat ∧
        Dom.contains "low-battery" <$> body_of w' = Some false.
Proof.
  intros Hbat Hlow (Hb & Hh & Hfind & Hget).
  destruct (body_ref_inv w bp Hb) as [bi ->].
  set (w1 := Upd.with_document (Dom.update_at (Dom.classRemove "low-battery") [bi]) w).
  assert (Dom.find_first (Dom.hasId "battery-optimization") (doc w1) = Some [h; k0]) as Hfind1.
  { unfold w1, doc. cbn [document browser Upd.with_document].
    rewrite find_first_update_at; [done|].
    intros e. apply keeps_identity_hasId, classRemove_identity. }
  assert (Dom.get_at [h; k0] (doc w1) = Some BATTERY_BLOCK) as Hget1.
  { unfold w1, doc. cbn [document browser Upd.with_document]. by rewrite get_at_update_top. }
  exists (Upd.with_document (Dom.remove_at [h; k0]) w1). split_and!.
  - unfold Site.optimizeForBattery.
    cbv [mbind JS_bind gets Api.deref Api.document_body Api.mutate modify mret JS_ret
         Api.querySelector_id Site.remove].
    rewrite Hbat. unfold body_ref, doc in Hb. rewrite Hb, Hlow.
    fold w1. unfold doc in Hfind1. by rewrite Hfind1.
  - pose proof (count_remove_at (Dom.hasId "battery-optimization") [h; k0] (doc w1)
                  BATTERY_BLOCK ltac:(done) Hget1) as Hc.
    change (Dom.count _ BATTERY_BLOCK) with 1%nat in Hc.
    unfold blocks. change (doc (Upd.with_document (Dom.remove_at [h; k0]) w1))
      with (Dom.remove_at [h; k0] (doc w1)).
    rewrite Hc. unfold w1, doc. cbn [document browser Upd.with_document].
    apply count_update_at. intros e. apply keeps_identity_hasId, classRemove_identity.
  - unfold body_of, body_ref.
    change (doc (Upd.with_document (Dom.remove_at [h; k0]) w1))
      with (Dom.remove_at [h; k0] (doc w1)).
    rewrite child_with_tag_removed.
    assert (body_ref w1 = Some [bi]) as Hb1
      by (unfold w1; rewrite body_ref_update; [done | apply classRemove_identity]).
    unfold body_ref in Hb1. rewrite Hb1. cbn [mbind option_bind].
    rewrite element_at_removed. unfold w1, doc. cbn [document browser Upd.with_document].
    rewrite element_at_update_at, decide_True by done.
    apply child_with_tag_Some in Hb as (e & He & _). unfold doc in He. rewrite He.
    cbn [fmap option_fmap option_map]. f_equal.
    rewrite contains_classRemove. apply andb_false_r.
Qed.

End BatteryRecovery.

(** X22.  Recovery does not undo the accumulation: after [S n] triggers
    on a low or discharging battery, the first trigger that finds the
    battery recovered removes the low-battery class from the body and one
    style block, the first, so [n] stale battery blocks stay in the head. *)
Theorem battery_recovery_removes_one_block
        (n : nat) (w : World) (b b' : Battery) (ev' : Env) (bp : path) (h : nat) :
  battery (env (browser w)) = Some b → Site.battery_low b = true →
  battery ev' = Some b' → Site.battery_low b' = false →
  body_ref w = Some bp → head_ref w = Some [h] →
  blocks "battery-optimization" w = 0%nat →
  ∃ w1 w2, repeat_js (S n) Site.optimizeForBattery w = (Normal tt, w1) ∧
           Site.optimizeForBattery (Upd.with_env ev' w1) = (Normal tt, w2) ∧
           blocks "battery-optimization" w1 = S n ∧
           blocks "battery-optimization" w2 = n ∧
           Dom.contains "low-battery" <$> body_of w2 = Some false.
Proof.
  intros Hbat Hlow Hbat' Hnormal Hb Hh Hzero.
  destruct (drained_starts bp h w Hb Hh Hzero) as [k0 Hfirst].
  destruct (drained_facts w bp [h] Hb Hh) as (Henv & _ & _ & Hcount).
  destruct (low_many bp h k0 b n (drained bp [h] w)) as (w1 & Hrun & Hw1 & Hblocks);
    [by rewrite Henv | done | done |].
  destruct (recovery_run bp h k0 b' (Upd.with_env ev' w1)) as (w2 & Hrun2 & Hless & Hclass);
    [done | done | exact Hw1 |].
  exists w1, w2. split_and!; [| exact Hrun2 | | | exact Hclass].
  - unfold repeat_js in *. simpl. cbv [mbind JS_bind].
    rewrite (optimizeForBattery_low w b bp [h]) by done. exact Hrun.
  - rewrite Hblocks, Hcount, Hzero. lia.
  - change (blocks "battery-optimization" (Upd.with_env ev' w1))
      with (blocks "battery-optimization" w1) in Hless.
    rewrite Hblocks, Hcount, Hzero in Hless. lia.
Qed.

Lemma battery_recovery_removes_one_block_witness :
  ∃ w1 w2, repeat_js 3 Site.optimizeForBattery Sample.w0 = (Normal tt, w1) ∧
           Site.optimizeForBattery (Upd.with_env Scenario.charged w1) = (Normal tt, w2) ∧
           blocks "battery-optimization" w1 = 3%nat ∧
           blocks "battery-optimization" w2 = 2%nat ∧
           Dom.contains "low-battery" <$> body_of w2 = Some false.
Proof.
  apply (battery_recovery_removes_one_block 2 Sample.w0 (mkBattery (1 # 10) false)
           (mkBattery (9 # 10) true) Scenario.charged [1%nat] 0); reflexivity.
Defined.

(** X23.  Of the closures the page-load block and the controller register,
    exactly three write the theme settings, the three that reach
    [applyTheme]: the click on the theme toggle, the system colour-scheme
    change, and the [DOMContentLoaded] listener, which runs the constructor
    and with it [loadTheme].  Every other closure leaves the stored theme
    key, the in-memory theme and the platform's answers as they were,
    however it completes. *)
Theorem only_theme_handlers_write_settings :
  (∀ cb e, cb ≠ CbThemeToggleClick → cb ≠ CbSchemeChange → cb ≠ CbDOMContentLoaded →
           keeps_settings (Site.run cb e)) ∧
  (∀ cb, cb = CbThemeToggleClick ∨ cb = CbSchemeChange ∨ cb = CbDOMContentLoaded →
         ∃ w, settings (Site.run cb no_event w).2 ≠ settings w).
Proof.
  split.
  - intros cb e Hc Hs Hd.
    destruct cb; try done; unfold Site.run, Site.onClearTransition, Site.onFaqKeydown,
      Site.onBatteryReady; frame.
  - intros cb Hcb. exists Sample.w0. intros H.
    apply (f_equal (λ s, (s.1.1 !! Site.THEME_KEY, s.1.2))) in H.
    destruct Hcb as [-> | [-> | ->]]; vm_compute in H; discriminate.
Qed.

Lemma only_theme_handlers_write_settings_witness :
  settings (Site.run CbTabClick (mkEvent Sample.general_button "" false) Sample.w_blue).2
  = settings Sample.w_blue ∧
  ∃ w, settings (Site.run CbDOMContentLoaded no_event w).2 ≠ settings w.
Proof.
  split.
  - apply (proj1 only_theme_handlers_write_settings CbTabClick
             (mkEvent Sample.general_button "" false)); discriminate.
  - apply (proj2 only_theme_handlers_write_settings CbDOMContentLoaded). by right; right.
Defined.
